(** * rollinglog: a daily rolling log file writer

    Shallow embedding of [log.go] (package [rollinglog]).  The repository
    carries the file in two revisions: the first substitutes bracketed
    date layouts in [Config.FilepathPattern] and its constructor returns
    [(io.WriteCloser, error)]; the second inserts a fixed
    [/2006/01/2006-01-02/] segment in [Config.Filepath] and its
    constructor returns [io.WriteCloser] alone.  Both share [rollingFile],
    [Write] and [Close] word for word.

    Layout of the development:
    - [GoTime], [GoPath], [GoRegexp]: the parts of Go's standard library
      that [log.go] calls ([time], [path], [regexp]), written over [Z] and
      [string]; a location carries its zone transitions, and [Date] looks
      the offset up as [time.Date] does;
    - [Pattern], [Layout]: the two [Config] types with their defaults and
      path formatters;
    - the scheduler goroutine, the channels and the writer as one
      transition system whose actions are the environment's choices
      (clock readings, results of [os] calls, timer expiry) and the
      caller's operations ([New]'s receive, [Write], [Close]);
    - the properties. *)

From Stdlib Require Import ZArith List String Ascii Bool Lia.
Import ListNotations.

Local Open Scope string_scope.
Local Open Scope Z_scope.

(** ** Package [time] *)

Module GoTime.

(** One [zone] of a location: its abbreviation and its seconds east of
    UTC. *)
Record Zone : Type := mkZone {
  zoneName : string;
  zoneOffset : Z
}.

(** A [*time.Location]: the zone in effect before the first transition
    and the transitions [tx], in the order of their instants (Unix
    seconds): from [when] on, the zone paired with it is in effect.  The
    rule a zone file gives for the time after its last transition (the
    [extend] string) is taken as written out in [tx]. *)
Record Location : Type := mkLocation {
  firstZone : Zone;
  tx : list (Z * Zone)
}.

Definition UTC : Location := mkLocation (mkZone "UTC" 0) [].

(** [time.FixedZone(name, offset)]. *)
Definition FixedZone (name : string) (offset : Z) : Location :=
  mkLocation (mkZone name offset) [].

(** The ends of time of [lookup]: [math.MinInt64] and [math.MaxInt64]. *)
Definition alpha : Z := - 2 ^ 63.
Definition omega : Z := 2 ^ 63 - 1.

(** [l.lookup(sec)]: the zone in effect at the instant [sec], with the
    instant it starts at and the instant it ends at.  It is the zone of
    the transition with the largest instant that is not after [sec]. *)
Fixpoint lookupFrom (z : Zone) (start : Z) (tx : list (Z * Zone)) (sec : Z)
    : Zone * Z * Z :=
  match tx with
  | [] => (z, start, omega)
  | (when, z') :: rest =>
      if sec <? when then (z, start, when) else lookupFrom z' when rest sec
  end.

Definition lookup (l : Location) (sec : Z) : Zone * Z * Z :=
  lookupFrom (firstZone l) alpha (tx l) sec.

Definition zoneAt (l : Location) (sec : Z) : Zone := fst (fst (lookup l sec)).

Definition offsetAt (l : Location) (sec : Z) : Z := zoneOffset (zoneAt l sec).

(** A [time.Time]: an instant, in nanoseconds since the Unix epoch, seen in
    a location. *)
Record Time : Type := mkTime {
  unixNano : Z;
  loc : Location
}.

Definition secondsPerMinute : Z := 60.
Definition secondsPerHour : Z := 3600.
Definition secondsPerDay : Z := 86400.
Definition secondsPerWeek : Z := 604800.
Definition daysPer400Years : Z := 146097.
Definition daysPer100Years : Z := 36524.
Definition daysPer4Years : Z := 1461.

Definition absoluteZeroYear : Z := -292277022399.
Definition unixToInternal : Z :=
  (1969 * 365 + 1969 / 4 - 1969 / 100 + 1969 / 400) * secondsPerDay.
Definition internalToAbsolute : Z := 9223371966579724800.
Definition unixToAbsolute : Z := unixToInternal + internalToAbsolute.

Definition nanosPerSecond : Z := 1000000000.

Definition unixSec (t : Time) : Z := unixNano t / nanosPerSecond.
Definition Nanosecond (t : Time) : Z := unixNano t mod nanosPerSecond.

(** [t.abs()]: seconds since the absolute epoch, in [t]'s location, with
    the offset in effect at [t]. *)
Definition absSec (t : Time) : Z :=
  unixSec t + offsetAt (loc t) (unixSec t) + unixToAbsolute.

Definition isLeap (year : Z) : bool :=
  (Z.rem year 4 =? 0) && (negb (Z.rem year 100 =? 0) || (Z.rem year 400 =? 0)).

(** [daysBefore[m]]: days of a non-leap year before month [m+1]. *)
Definition daysBefore (m : Z) : Z :=
  match m with
  | 0 => 0
  | 1 => 31
  | 2 => 31 + 28
  | 3 => 31 + 28 + 31
  | 4 => 31 + 28 + 31 + 30
  | 5 => 31 + 28 + 31 + 30 + 31
  | 6 => 31 + 28 + 31 + 30 + 31 + 30
  | 7 => 31 + 28 + 31 + 30 + 31 + 30 + 31
  | 8 => 31 + 28 + 31 + 30 + 31 + 30 + 31 + 31
  | 9 => 31 + 28 + 31 + 30 + 31 + 30 + 31 + 31 + 30
  | 10 => 31 + 28 + 31 + 30 + 31 + 30 + 31 + 31 + 30 + 31
  | 11 => 31 + 28 + 31 + 30 + 31 + 30 + 31 + 31 + 30 + 31 + 30
  | _ => 31 + 28 + 31 + 30 + 31 + 30 + 31 + 31 + 30 + 31 + 30 + 31
  end.

(** A calendar date as [absDate] returns it. *)
Record Civil : Type := mkCivil {
  cYear : Z;
  cMonth : Z;   (* January = 1 *)
  cDay : Z;
  cYday : Z     (* 0-based day of the year *)
}.

(** [absDate(abs, false)] on the day count [abs / secondsPerDay]: the
    year and the 0-based day of the year. *)
Definition dayYear (d0 : Z) : Z * Z :=
  (* 400-year cycles *)
  let n := d0 / daysPer400Years in
  let y := 400 * n in
  let d := d0 - daysPer400Years * n in
  (* 100-year cycles; the last has one extra leap year *)
  let n := d / daysPer100Years in
  let n := n - Z.shiftr n 2 in
  let y := y + 100 * n in
  let d := d - daysPer100Years * n in
  (* 4-year cycles *)
  let n := d / daysPer4Years in
  let y := y + 4 * n in
  let d := d - daysPer4Years * n in
  (* years within a 4-year cycle; the last is a leap year *)
  let n := d / 365 in
  let n := n - Z.shiftr n 2 in
  let y := y + n in
  let d := d - 365 * n in
  (y + absoluteZeroYear, d).

(** The rest of [absDate(abs, true)]: month and day of the month from the
    day of the year. *)
Definition monthDay (leap : bool) (yday : Z) : Z * Z :=
  if leap && (yday =? 31 + 29 - 1) then (2, 29)      (* leap day *)
  else
    (* after the leap day: pretend it wasn't there *)
    let day := if leap && (31 + 29 - 1 <? yday) then yday - 1 else yday in
    (* estimate the month as if every month had 31 days, then adjust *)
    let month := day / 31 in
    let e := daysBefore (month + 1) in
    if e <=? day
    then (month + 1 + 1, day - e + 1)
    else (month + 1, day - daysBefore month + 1).

Definition dayDate (d0 : Z) : Civil :=
  let '(year, yday) := dayYear d0 in
  let '(month, day) := monthDay (isLeap year) yday in
  mkCivil year month day yday.

Definition absDate (abs : Z) : Civil := dayDate (abs / secondsPerDay).

Definition date (t : Time) : Civil := absDate (absSec t).

Definition Year (t : Time) : Z := cYear (date t).
Definition Month (t : Time) : Z := cMonth (date t).
Definition Day (t : Time) : Z := cDay (date t).
Definition YearDay (t : Time) : Z := cYday (date t) + 1.

Definition Hour (t : Time) : Z := (absSec t mod secondsPerDay) / secondsPerHour.
Definition Minute (t : Time) : Z := (absSec t mod secondsPerHour) / secondsPerMinute.
Definition Second (t : Time) : Z := absSec t mod secondsPerMinute.

(** [absWeekday]: Sunday = 0.  Day 0 of the absolute epoch was a Monday. *)
Definition absWeekday (abs : Z) : Z :=
  ((abs + 1 * secondsPerDay) mod secondsPerWeek) / secondsPerDay.

Definition Weekday (t : Time) : Z := absWeekday (absSec t).

(** [absClock]: hour, minute and second within the day. *)
Definition absClock (abs : Z) : Z * Z * Z :=
  let sec := abs mod secondsPerDay in
  let hour := sec / secondsPerHour in
  let sec := sec - hour * secondsPerHour in
  let min := sec / secondsPerMinute in
  let sec := sec - min * secondsPerMinute in
  (hour, min, sec).

Definition Location_of (t : Time) : Location := loc t.

(** [t.In(loc)]: the same instant, seen in [l]. *)
Definition In (t : Time) (l : Location) : Time := mkTime (unixNano t) l.

(** [daysSinceEpoch(year)]. *)
Definition daysSinceEpoch (year : Z) : Z :=
  let y := year - absoluteZeroYear in
  let n := y / 400 in
  let y := y - 400 * n in
  let d := daysPer400Years * n in
  let n := y / 100 in
  let y := y - 100 * n in
  let d := d + daysPer100Years * n in
  let n := y / 4 in
  let y := y - 4 * n in
  let d := d + daysPer4Years * n in
  d + 365 * y.

(** [norm(hi, lo, base)]: carry [lo] into [hi] so that [0 <= lo < base]. *)
Definition norm (hi lo base : Z) : Z * Z := (hi + lo / base, lo mod base).

(** The end of [time.Date]: from the wall-clock reading [unix], counted
    as if it were UTC, to the instant.  The offset is looked up at [unix]
    itself, and looked up again at the instant it gives when that instant
    falls outside the zone found. *)
Definition zoneAdjust (l : Location) (unix : Z) : Z :=
  let '(z, start, stop) := lookup l unix in
  let offset := zoneOffset z in
  if offset =? 0 then unix
  else
    let utc := unix - offset in
    let offset :=
      if (utc <? start) || (stop <=? utc) then offsetAt l utc else offset in
    unix - offset.

(** [time.Date(year, month, day, hour, min, sec, nsec, loc)]: out-of-range
    fields are normalised; the day overflows through the day count. *)
Definition Date (year month day hour min sec nsec : Z) (l : Location) : Time :=
  let '(year, m) := norm year (month - 1) 12 in
  let month := m + 1 in
  let '(sec, nsec) := norm sec nsec nanosPerSecond in
  let '(min, sec) := norm min sec 60 in
  let '(hour, min) := norm hour min 60 in
  let '(day, hour) := norm day hour 24 in
  let d := daysSinceEpoch year in
  let d := d + daysBefore (month - 1) in
  let d := if isLeap year && (3 <=? month) then d + 1 else d in
  let d := d + (day - 1) in
  let abs := d * secondsPerDay + hour * secondsPerHour + min * secondsPerMinute + sec in
  let unix := abs - unixToAbsolute in
  let unix := zoneAdjust l unix in
  mkTime (unix * nanosPerSecond + nsec) l.

Definition minDuration : Z := - 2 ^ 63.
Definition maxDuration : Z := 2 ^ 63 - 1.

(** [t.Sub(u)]: a [Duration] in nanoseconds, saturating at the ends of
    [int64]. *)
Definition Sub (t u : Time) : Z :=
  let d := unixNano t - unixNano u in
  if d <? minDuration then minDuration
  else if maxDuration <? d then maxDuration
  else d.

(** *** Layouts ([format.go]) *)

(** The reference-time elements a layout can hold. *)
Inductive Std : Type :=
| stdLongMonth | stdMonth | stdNumMonth | stdZeroMonth
| stdLongWeekDay | stdWeekDay
| stdDay | stdUnderDay | stdZeroDay | stdUnderYearDay | stdZeroYearDay
| stdHour | stdHour12 | stdZeroHour12
| stdMinute | stdZeroMinute | stdSecond | stdZeroSecond
| stdLongYear | stdYear
| stdPM | stdpm
| stdTZ
| stdISO8601TZ | stdISO8601SecondsTZ | stdISO8601ShortTZ
| stdISO8601ColonTZ | stdISO8601ColonSecondsTZ
| stdNumTZ | stdNumSecondsTz | stdNumShortTZ
| stdNumColonTZ | stdNumColonSecondsTZ
| stdFracSecond0 (digits : nat) (sep : ascii)
| stdFracSecond9 (digits : nat) (sep : ascii).

(** [layout[i:i+len(p)] == p], returning what follows. *)
Fixpoint stripPrefix (p s : string) : option string :=
  match p with
  | EmptyString => Some s
  | String a p' =>
      match s with
      | EmptyString => None
      | String b s' => if Ascii.eqb a b then stripPrefix p' s' else None
      end
  end.

Definition isDigit (c : ascii) : bool :=
  let n := Z.of_nat (nat_of_ascii c) in (48 <=? n) && (n <=? 57).

Definition startsWithLowerCase (s : string) : bool :=
  match s with
  | EmptyString => false
  | String c _ => let n := Z.of_nat (nat_of_ascii c) in (97 <=? n) && (n <=? 122)
  end.

(** The run of [ch] at the head of [s]: its length and what follows. *)
Fixpoint spanChar (ch : ascii) (s : string) : nat * string :=
  match s with
  | String c s' =>
      if Ascii.eqb c ch then let '(n, r) := spanChar ch s' in (S n, r) else (O, s)
  | EmptyString => (O, s)
  end.

(** First of the candidates that is a prefix of the layout. *)
Fixpoint firstPrefix (cands : list (string * Std)) (s : string) : option (Std * string) :=
  match cands with
  | [] => None
  | (p, std) :: cands' =>
      match stripPrefix p s with
      | Some r => Some (std, r)
      | None => firstPrefix cands' s
      end
  end.

(** One turn of the loop of [nextStdChunk]: the element that starts at the
    head of the layout, if any, and the layout after it. *)
Definition stdChunkAt (layout : string) : option (Std * string) :=
  match layout with
  | EmptyString => None
  | String c rest =>
      if Ascii.eqb c "J" then
        match stripPrefix "Jan" layout with
        | Some r3 =>
            match stripPrefix "January" layout with
            | Some r7 => Some (stdLongMonth, r7)
            | None => if startsWithLowerCase r3 then None else Some (stdMonth, r3)
            end
        | None => None
        end
      else if Ascii.eqb c "M" then
        match stripPrefix "Mon" layout with
        | Some r3 =>
            match stripPrefix "Monday" layout with
            | Some r6 => Some (stdLongWeekDay, r6)
            | None => if startsWithLowerCase r3 then None else Some (stdWeekDay, r3)
            end
        | None =>
            match stripPrefix "MST" layout with
            | Some r => Some (stdTZ, r)
            | None => None
            end
        end
      else if Ascii.eqb c "0" then
        firstPrefix [("01", stdZeroMonth); ("02", stdZeroDay); ("03", stdZeroHour12);
                     ("04", stdZeroMinute); ("05", stdZeroSecond); ("06", stdYear);
                     ("002", stdZeroYearDay)] layout
      else if Ascii.eqb c "1" then
        match stripPrefix "15" layout with
        | Some r => Some (stdHour, r)
        | None => Some (stdNumMonth, rest)
        end
      else if Ascii.eqb c "2" then
        match stripPrefix "2006" layout with
        | Some r => Some (stdLongYear, r)
        | None => Some (stdDay, rest)
        end
      else if Ascii.eqb c "_" then
        match stripPrefix "_2" layout with
        | Some r =>
            (* [_2006] is a literal [_] followed by the long year *)
            match stripPrefix "_2006" layout with
            | Some _ => None
            | None => Some (stdUnderDay, r)
            end
        | None =>
            match stripPrefix "__2" layout with
            | Some r => Some (stdUnderYearDay, r)
            | None => None
            end
        end
      else if Ascii.eqb c "3" then Some (stdHour12, rest)
      else if Ascii.eqb c "4" then Some (stdMinute, rest)
      else if Ascii.eqb c "5" then Some (stdSecond, rest)
      else if Ascii.eqb c "P" then
        match stripPrefix "PM" layout with
        | Some r => Some (stdPM, r)
        | None => None
        end
      else if Ascii.eqb c "p" then
        match stripPrefix "pm" layout with
        | Some r => Some (stdpm, r)
        | None => None
        end
      else if Ascii.eqb c "-" then
        firstPrefix [("-070000", stdNumSecondsTz); ("-07:00:00", stdNumColonSecondsTZ);
                     ("-0700", stdNumTZ); ("-07:00", stdNumColonTZ);
                     ("-07", stdNumShortTZ)] layout
      else if Ascii.eqb c "Z" then
        firstPrefix [("Z070000", stdISO8601SecondsTZ); ("Z07:00:00", stdISO8601ColonSecondsTZ);
                     ("Z0700", stdISO8601TZ); ("Z07:00", stdISO8601ColonTZ);
                     ("Z07", stdISO8601ShortTZ)] layout
      else if Ascii.eqb c "." || Ascii.eqb c "," then
        match rest with
        | String ch _ =>
            if Ascii.eqb ch "0" || Ascii.eqb ch "9" then
              let '(n, after) := spanChar ch rest in
              let digitNext := match after with
                               | String d _ => isDigit d
                               | EmptyString => false
                               end in
              if digitNext then None
              else if Ascii.eqb ch "9" then Some (stdFracSecond9 n c, after)
              else Some (stdFracSecond0 n c, after)
            else None
        | EmptyString => None
        end
      else None
  end.

Fixpoint digitsOf (fuel : nat) (u : Z) (acc : string) : string :=
  match fuel with
  | O => acc
  | S k =>
      let acc' := String (ascii_of_nat (Z.to_nat (48 + u mod 10))) acc in
      if u / 10 =? 0 then acc' else digitsOf k (u / 10) acc'
  end.

(** The decimal digits of [u >= 0]. *)
Definition decimal (u : Z) : string := digitsOf (S (Z.to_nat (Z.log2 u))) u "".

Fixpoint zeros (n : nat) : string :=
  match n with
  | O => ""
  | S k => String "0" (zeros k)
  end.

(** [appendInt(b, x, width)]: sign, then the digits padded with zeros. *)
Definition appendInt (x : Z) (width : nat) : string :=
  let u := Z.abs x in
  let ds := decimal u in
  ((if x <? 0 then "-" else "") ++ zeros (width - String.length ds) ++ ds).

Definition monthName (m : Z) : string :=
  match m with
  | 1 => "January" | 2 => "February" | 3 => "March" | 4 => "April"
  | 5 => "May" | 6 => "June" | 7 => "July" | 8 => "August"
  | 9 => "September" | 10 => "October" | 11 => "November" | 12 => "December"
  | _ => "%!Month(" ++ appendInt m 0 ++ ")"
  end.

Definition dayName (d : Z) : string :=
  match d with
  | 0 => "Sunday" | 1 => "Monday" | 2 => "Tuesday" | 3 => "Wednesday"
  | 4 => "Thursday" | 5 => "Friday" | 6 => "Saturday"
  | _ => "%!Weekday(" ++ appendInt d 0 ++ ")"
  end.

Fixpoint takeStr (n : nat) (s : string) : string :=
  match n, s with
  | S k, String c s' => String c (takeStr k s')
  | _, _ => EmptyString
  end.

Fixpoint trimZeros (s : string) : string :=
  match s with
  | EmptyString => EmptyString
  | String c s' =>
      match trimZeros s' with
      | EmptyString => if Ascii.eqb c "0" then EmptyString else String c EmptyString
      | r => String c r
      end
  end.

(** [formatNano]: the first [n] of the nine digits of the nanoseconds,
    trailing zeros (and then the separator) dropped when [trim]. *)
Definition formatNano (nanosec : Z) (n : nat) (sep : ascii) (trim : bool) : string :=
  let ds := takeStr (Nat.min n 9) (appendInt nanosec 9) in
  let ds := if trim then trimZeros ds else ds in
  match ds with
  | EmptyString => if trim then EmptyString else String sep EmptyString
  | _ => String sep ds
  end.

Definition isISO8601 (std : Std) : bool :=
  match std with
  | stdISO8601TZ | stdISO8601SecondsTZ | stdISO8601ShortTZ
  | stdISO8601ColonTZ | stdISO8601ColonSecondsTZ => true
  | _ => false
  end.

Definition hasColon (std : Std) : bool :=
  match std with
  | stdISO8601ColonTZ | stdNumColonTZ | stdISO8601ColonSecondsTZ | stdNumColonSecondsTZ => true
  | _ => false
  end.

Definition isShortTZ (std : Std) : bool :=
  match std with
  | stdNumShortTZ | stdISO8601ShortTZ => true
  | _ => false
  end.

Definition hasSecondsTZ (std : Std) : bool :=
  match std with
  | stdISO8601SecondsTZ | stdNumSecondsTz | stdNumColonSecondsTZ | stdISO8601ColonSecondsTZ => true
  | _ => false
  end.

Definition colonSecondsTZ (std : Std) : bool :=
  match std with
  | stdNumColonSecondsTZ | stdISO8601ColonSecondsTZ => true
  | _ => false
  end.

(** The text one element contributes (the [switch std] of [AppendFormat]),
    from [name, offset, abs := t.locabs()] and the nanoseconds. *)
Definition appendStd (abs nsec : Z) (name : string) (offset : Z) (std : Std) : string :=
  let year := cYear (absDate abs) in
  let month := cMonth (absDate abs) in
  let day := cDay (absDate abs) in
  let yday := cYday (absDate abs) + 1 in
  let '(hour, min, sec) := absClock abs in
  match std with
  | stdYear => appendInt (Z.rem (Z.abs year) 100) 2
  | stdLongYear => appendInt year 4
  | stdMonth => takeStr 3 (monthName month)
  | stdLongMonth => monthName month
  | stdNumMonth => appendInt month 0
  | stdZeroMonth => appendInt month 2
  | stdWeekDay => takeStr 3 (dayName (absWeekday abs))
  | stdLongWeekDay => dayName (absWeekday abs)
  | stdDay => appendInt day 0
  | stdUnderDay => (if day <? 10 then " " else "") ++ appendInt day 0
  | stdZeroDay => appendInt day 2
  | stdUnderYearDay =>
      (if yday <? 100 then (if yday <? 10 then "  " else " ") else "")
      ++ appendInt yday 0
  | stdZeroYearDay => appendInt yday 3
  | stdHour => appendInt hour 2
  | stdHour12 => appendInt (if Z.rem hour 12 =? 0 then 12 else Z.rem hour 12) 0
  | stdZeroHour12 => appendInt (if Z.rem hour 12 =? 0 then 12 else Z.rem hour 12) 2
  | stdMinute => appendInt min 0
  | stdZeroMinute => appendInt min 2
  | stdSecond => appendInt sec 0
  | stdZeroSecond => appendInt sec 2
  | stdPM => if 12 <=? hour then "PM" else "AM"
  | stdpm => if 12 <=? hour then "pm" else "am"
  | stdTZ =>
      match name with
      | EmptyString =>
          let zone := Z.quot offset 60 in
          (if zone <? 0 then "-" else "+")
          ++ appendInt (Z.quot (Z.abs zone) 60) 2 ++ appendInt (Z.rem (Z.abs zone) 60) 2
      | _ => name
      end
  | stdFracSecond0 n sep => formatNano nsec n sep false
  | stdFracSecond9 n sep => formatNano nsec n sep true
  | _ =>
      (* the numeric zone elements *)
      if (offset =? 0) && isISO8601 std then "Z"
      else
        let zone := Z.quot offset 60 in
        (if zone <? 0 then "-" else "+")
        ++ appendInt (Z.quot (Z.abs zone) 60) 2
        ++ (if hasColon std then ":" else "")
        ++ (if isShortTZ std then "" else appendInt (Z.rem (Z.abs zone) 60) 2)
        ++ (if hasSecondsTZ std
            then (if colonSecondsTZ std then ":" else "")
                 ++ appendInt (Z.rem (if zone <? 0 then - offset else offset) 60) 2
            else "")
  end.

(** The loop of [AppendFormat]: literal text is copied, each element is
    rendered.  Every turn consumes at least one byte of the layout, so
    [String.length layout] turns are enough. *)
Fixpoint formatLoop (fuel : nat) (abs nsec : Z) (name : string) (offset : Z)
    (layout : string) : string :=
  match fuel with
  | O => EmptyString
  | S k =>
      match layout with
      | EmptyString => EmptyString
      | String c rest =>
          match stdChunkAt layout with
          | Some (std, suffix) =>
              appendStd abs nsec name offset std ++ formatLoop k abs nsec name offset suffix
          | None => String c (formatLoop k abs nsec name offset rest)
          end
      end
  end.

(** [t.Format(layout)]. *)
Definition Format (t : Time) (layout : string) : string :=
  formatLoop (String.length layout) (absSec t) (Nanosecond t)
    (zoneName (zoneAt (loc t) (unixSec t))) (offsetAt (loc t) (unixSec t)) layout.

End GoTime.

(** ** Package [path] *)

Module GoPath.

Definition slash : ascii := "/".
Definition dot : ascii := ".".

(** The [.. element] case of [Clean]: [out.w--], then keep dropping while
    [out.w > dotdot] and the byte just dropped is not a slash.  The buffer
    is kept last byte first. *)
Fixpoint backtrack (rout : list ascii) (dotdot : nat) : list ascii :=
  match rout with
  | [] => []
  | c :: r' =>
      if Nat.ltb dotdot (List.length r') && negb (Ascii.eqb c slash)
      then backtrack r' dotdot
      else r'
  end.

Definition atElementEnd (s : string) : bool :=
  match s with
  | EmptyString => true
  | String c _ => Ascii.eqb c slash
  end.

(** The loop of [Clean] over the unread part of the path.  [inElem] is set
    while a real path element is being copied. *)
Fixpoint cleanLoop (rooted : bool) (s : string) (inElem : bool)
    (rout : list ascii) (dotdot : nat) : list ascii :=
  match s with
  | EmptyString => rout
  | String c rest =>
      if inElem then
        if Ascii.eqb c slash then cleanLoop rooted rest false rout dotdot
        else cleanLoop rooted rest true (c :: rout) dotdot
      else if Ascii.eqb c slash then
        (* empty path element *)
        cleanLoop rooted rest false rout dotdot
      else if Ascii.eqb c dot && atElementEnd rest then
        (* . element *)
        cleanLoop rooted rest false rout dotdot
      else
        let real :=
          (* real path element: add a slash if needed, then copy *)
          let w := List.length rout in
          let rout' := if (rooted && negb (Nat.eqb w 1)) || (negb rooted && negb (Nat.eqb w 0))
                       then slash :: rout else rout in
          cleanLoop rooted rest true (c :: rout') dotdot in
        match rest with
        | String c2 rest2 =>
            if Ascii.eqb c dot && Ascii.eqb c2 dot && atElementEnd rest2 then
              (* .. element: remove to last / *)
              if Nat.ltb dotdot (List.length rout) then
                cleanLoop rooted rest2 false (backtrack rout dotdot) dotdot
              else if negb rooted then
                let rout' := if Nat.ltb 0 (List.length rout) then slash :: rout else rout in
                let rout'' := dot :: dot :: rout' in
                cleanLoop rooted rest2 false rout'' (List.length rout'')
              else cleanLoop rooted rest2 false rout dotdot
            else real
        | EmptyString => real
        end
  end.

Definition Clean (path : string) : string :=
  match path with
  | EmptyString => "."
  | String c _ =>
      let rooted := Ascii.eqb c slash in
      let rout :=
        if rooted
        then cleanLoop true (substring 1 (String.length path - 1) path) false [slash] 1
        else cleanLoop false path false [] 0 in
      match rout with
      | [] => "."
      | _ => string_of_list_ascii (List.rev rout)
      end
  end.

(** [Split]: the path up to and with its last slash, and what follows. *)
Fixpoint Split (path : string) : string * string :=
  match path with
  | EmptyString => (EmptyString, EmptyString)
  | String c s =>
      match Split s with
      | (EmptyString, f) =>
          if Ascii.eqb c slash then (String c EmptyString, s)
          else (EmptyString, String c f)
      | (d, f) => (String c d, f)
      end
  end.

Definition Dir (path : string) : string := Clean (fst (Split path)).

Fixpoint stripTrailingSlashes (s : string) : string :=
  match s with
  | EmptyString => EmptyString
  | String c s' =>
      match stripTrailingSlashes s' with
      | EmptyString => if Ascii.eqb c slash then EmptyString else String c EmptyString
      | r => String c r
      end
  end.

Definition Base (path : string) : string :=
  match path with
  | EmptyString => "."
  | _ =>
      match snd (Split (stripTrailingSlashes path)) with
      | EmptyString => "/"
      | b => b
      end
  end.

End GoPath.

(** ** Package [regexp], for [pattern = regexp.MustCompile("{.*}")] *)

Module GoRegexp.

Definition newline : ascii := ascii_of_nat 10.

(** [.*}] at the head of [s], greedy: [.] is any character but a newline
    and the star takes as many as still leave a closing brace.  Returns
    the text matched by [.*] and what follows the brace. *)
Fixpoint greedyClose (s : string) : option (string * string) :=
  match s with
  | EmptyString => None
  | String c t =>
      if Ascii.eqb c newline then None
      else
        match greedyClose t with
        | Some (inner, rest) => Some (String c inner, rest)
        | None => if Ascii.eqb c "}" then Some (EmptyString, t) else None
        end
  end.

(** A match of [{.*}] that starts at the head of [s]: the matched text and
    what follows it. *)
Definition matchHere (s : string) : option (string * string) :=
  match s with
  | String c t =>
      if Ascii.eqb c "{" then
        match greedyClose t with
        | Some (inner, rest) => Some (String c (inner ++ "}"), rest)
        | None => None
        end
      else None
  | EmptyString => None
  end.

(** Successive leftmost matches are replaced; the text between them is
    copied.  A match has at least two bytes, so [String.length src] turns
    are enough. *)
Fixpoint replaceLoop (fuel : nat) (repl : string -> string) (src : string) : string :=
  match fuel with
  | O => EmptyString
  | S k =>
      match src with
      | EmptyString => EmptyString
      | String c rest =>
          match matchHere src with
          | Some (m, after) => repl m ++ replaceLoop k repl after
          | None => String c (replaceLoop k repl rest)
          end
      end
  end.

(** [pattern.ReplaceAllStringFunc(src, repl)]. *)
Definition ReplaceAllStringFunc (src : string) (repl : string -> string) : string :=
  replaceLoop (String.length src) repl src.

End GoRegexp.

Import GoTime.

(** ** Values of the program *)

(** The Go [error] values the program handles; [nil] is [None]. *)
Inductive GoError : Type :=
| EOF                                           (* io.EOF *)
| ErrInvalid                                    (* os.ErrInvalid *)
| PathError (op path : string) (errno : Z).     (* *os.PathError *)

Definition EEXIST : Z := 17.
Definition ENOTEMPTY : Z := 39.

(** [os.IsExist]. *)
Definition IsExist (err : GoError) : bool :=
  match err with
  | PathError _ _ errno => (errno =? EEXIST) || (errno =? ENOTEMPTY)
  | _ => false
  end.

(** An open [*os.File]; the nil pointer is [None]. *)
Record File : Type := mkFile {
  Fd : Z;
  Name : string
}.

Definition FlagCaptureStdout : Z := 1.
Definition FlagCaptureStderr : Z := 2.

Definition O_WRONLY : Z := 1.
Definition O_CREATE : Z := 64.
Definition O_APPEND : Z := 1024.

Definition stdoutFd : Z := 1.
Definition stderrFd : Z := 2.

(** ** First revision: [Config.FilepathPattern] *)

Module Pattern.

Record Config : Type := mkConfig {
  FilepathPattern : string;
  Mode : Z;
  DirMode : Z;
  Flags : Z
}.

(** The head of [New], ll. 65-73. *)
Definition defaults (config : Config) : Config :=
  let config :=
    if String.eqb (FilepathPattern config) ""
    then mkConfig "logs/{2006/01/2006-01-02}/log.log" (Mode config) (DirMode config) (Flags config)
    else config in
  let config :=
    if Mode config =? 0
    then mkConfig (FilepathPattern config) 384 (* 0600 *) (DirMode config) (Flags config)
    else config in
  if DirMode config =? 0
  then mkConfig (FilepathPattern config) (Mode config) 1472 (* 02700 *) (Flags config)
  else config.

(** [s[1 : len(s)-1]]. *)
Definition inner (s : string) : string :=
  substring 1 (String.length s - 1 - 1) s.

(** ll. 89-91. *)
Definition formatPath (template : string) (now : Time) : string :=
  GoRegexp.ReplaceAllStringFunc template (fun s => Format now (inner s)).

End Pattern.

(** ** Second revision: [Config.Filepath] and [Config.Timezone] *)

Module Layout.

Record Config : Type := mkConfig {
  Filepath : string;
  Timezone : option Location;
  Mode : Z;
  DirMode : Z;
  Flags : Z
}.

(** The head of [New], ll. 234-245; [Local] is [time.Local]. *)
Definition defaults (Local : Location) (config : Config) : Config :=
  let config :=
    if String.eqb (Filepath config) ""
    then mkConfig "logs/log.log" (Timezone config) (Mode config) (DirMode config) (Flags config)
    else config in
  let config :=
    match Timezone config with
    | None => mkConfig (Filepath config) (Some Local) (Mode config) (DirMode config) (Flags config)
    | Some _ => config
    end in
  let config :=
    if Mode config =? 0
    then mkConfig (Filepath config) (Timezone config) 384 (DirMode config) (Flags config)
    else config in
  if DirMode config =? 0
  then mkConfig (Filepath config) (Timezone config) (Mode config) 1472 (Flags config)
  else config.

(** l. 261. *)
Definition formatPath (filepath : string) (now : Time) : string :=
  GoPath.Dir filepath ++ Format now "/2006/01/2006-01-02/" ++ GoPath.Base filepath.

End Layout.

(** ** The running program *)

(** Which revision runs, with its configuration as passed to [New], and the
    zone [time.Now()] reports in. *)
Inductive Revision : Type :=
| PatternRev (config : Pattern.Config)
| LayoutRev (config : Layout.Config).

Record Program : Type := mkProgram {
  code : Revision;
  Local : Location
}.

Definition isPatternRev (P : Program) : bool :=
  match code P with
  | PatternRev _ => true
  | LayoutRev _ => false
  end.

(** [now], l. 88 and l. 260, from the clock reading in nanoseconds. *)
Definition epochNow (P : Program) (clock : Z) : Time :=
  match code P with
  | PatternRev _ => mkTime clock (Local P)
  | LayoutRev c =>
      match Layout.Timezone (Layout.defaults (Local P) c) with
      | Some tz => In (mkTime clock (Local P)) tz
      | None => mkTime clock (Local P)
      end
  end.

(** [p], ll. 89-91 and l. 261. *)
Definition epochPath (P : Program) (now : Time) : string :=
  match code P with
  | PatternRev c => Pattern.formatPath (Pattern.FilepathPattern (Pattern.defaults c)) now
  | LayoutRev c => Layout.formatPath (Layout.Filepath (Layout.defaults (Local P) c)) now
  end.

Definition fileMode (P : Program) : Z :=
  match code P with
  | PatternRev c => Pattern.Mode (Pattern.defaults c)
  | LayoutRev c => Layout.Mode (Layout.defaults (Local P) c)
  end.

Definition dirMode (P : Program) : Z :=
  match code P with
  | PatternRev c => Pattern.DirMode (Pattern.defaults c)
  | LayoutRev c => Layout.DirMode (Layout.defaults (Local P) c)
  end.

Definition flags (P : Program) : Z :=
  match code P with
  | PatternRev c => Pattern.Flags (Pattern.defaults c)
  | LayoutRev c => Layout.Flags (Layout.defaults (Local P) c)
  end.

(** [tomorrow.Sub(now)], ll. 121-123 and ll. 293-294. *)
Definition tomorrow (now : Time) : Time :=
  Date (Year now) (Month now) (Day now + 1) 0 0 0 0 (Location_of now).

Definition waitFor (now : Time) : Z := Sub (tomorrow now) now.

(** What the program does to the world outside it, newest first. *)
Inductive Event : Type :=
| EvNow (now : Time)                              (* time.Now() *)
| EvMkdirAll (dir : string) (perm : Z)            (* os.MkdirAll *)
| EvOpenFile (name : string) (flag perm : Z)      (* os.OpenFile *)
| EvSyscallClose (fd : Z)                         (* syscall.Close *)
| EvDup2 (oldfd newfd : Z)                        (* syscall.Dup2 *)
| EvTimer (d : Z)                                 (* time.After(d), time.Sleep(d) *)
| EvFileClose (f : option File)                   (* f.Close() *)
| EvFileWrite (f : option File) (p : list Byte.byte)   (* f.Write(p) *)
| EvCloseChFile                                   (* close(chFile) *)
| EvCloseChClosed.                                (* close(chClosed) *)

(** [rollingFile]; its three channel fields are the shared part of the
    state below. *)
Record rollingFile : Type := mkRollingFile {
  f : option File;
  lastErr : option GoError
}.

(** Where the scheduler goroutine stands, with the locals of the current
    turn of its loop. *)
Inductive Goroutine : Type :=
| LoopHead                               (* l. 82 / l. 254 *)
| Opening                                (* l. 88 / l. 260 *)
| SendErr (err : GoError)                (* ll. 93-96, 102-105 / 263-266, 272-275 *)
| SendFile (now : Time) (file : File)    (* ll. 124-132 / ll. 279-283 *)
| Sent (now : Time) (file : File)        (* second revision, l. 285 *)
| Sleeping                               (* l. 127 / l. 294 *)
| Returning                              (* a return was taken; the deferred close is due *)
| Exited.                                (* chFile is closed *)

(** The caller's side: inside [New], after [New] returned an error, or
    holding the writer. *)
Inductive Caller : Type :=
| InNew
| NewFailed (err : GoError)
| Holding (rf : rollingFile).

Record System : Type := mkSystem {
  sched : Goroutine;
  chClosed : bool;          (* has chClosed been closed? *)
  caller : Caller;
  events : list Event
}.

Definition start : System := mkSystem LoopHead false InNew [].

(** What a receive on [chErr] or [chFile] finds.  Both channels are
    unbuffered and every send stands in a select beside [<-chClosed]:
    closing [chClosed] settles such a select for good, and the receivers of
    this program either never park ([Write]) or are gone by then ([New]),
    so a send completes only while [chClosed] is open.  A receive on the
    closed [chFile] yields nil. *)
Inductive Offer : Type :=
| OfferErr (err : GoError)
| OfferFile (now : Time) (file : File)
| OfferNil
| NoOffer.

Definition offer (s : System) : Offer :=
  match sched s with
  | SendErr err => if chClosed s then NoOffer else OfferErr err
  | SendFile now file => if chClosed s then NoOffer else OfferFile now file
  | Exited => OfferNil
  | _ => NoOffer
  end.

(** The goroutine after its send on [chFile] went through: the first
    revision waits for the timer it armed, the second goes on to l. 285. *)
Definition afterSend (P : Program) (now : Time) (file : File) : Goroutine :=
  if isPatternRev P then Sleeping else Sent now file.

Definition hasFlag (P : Program) (flag : Z) : bool :=
  negb (Z.land (flags P) flag =? 0).

(** ll. 109-118: close the standard descriptor, then duplicate. *)
Definition capturePattern (P : Program) (file : File) : list Event :=
  (if hasFlag P FlagCaptureStderr
   then [EvDup2 (Fd file) stderrFd; EvSyscallClose stderrFd] else [])
  ++ (if hasFlag P FlagCaptureStdout
      then [EvDup2 (Fd file) stdoutFd; EvSyscallClose stdoutFd] else []).

(** ll. 285-290. *)
Definition captureLayout (P : Program) (file : File) : list Event :=
  (if hasFlag P FlagCaptureStderr then [EvDup2 (Fd file) stderrFd] else [])
  ++ (if hasFlag P FlagCaptureStdout then [EvDup2 (Fd file) stdoutFd] else []).

(** The moves of the system.  The goroutine's moves carry what the world
    answers: the clock reading, the results of [os.MkdirAll] and
    [os.OpenFile] (a descriptor or an error); [CallWrite] carries the
    result the held file gives for this write. *)
Inductive Action : Type :=
| GoCheck                                  (* the select at the head of the loop *)
| GoOpen (clock : Z) (mkdir : option GoError) (opened : Z + GoError)
| GoArm                                    (* second revision: ll. 285-294 *)
| GoClosed                                 (* a parked select takes <-chClosed *)
| GoTimeout                                (* the timer fires, Sleep returns *)
| GoReturn                                 (* the deferred close(chFile) *)
| NewReceive                               (* the receive in New, ll. 137-141 / l. 299 *)
| CallWrite (p : list Byte.byte) (n : Z) (err : option GoError)
| CallClose.

Inductive Output : Type :=
| Quiet                                    (* a move of the goroutine *)
| Blocked                                  (* the move cannot be made here *)
| NewReturns (err : option GoError)
| WriteReturns (n : Z) (err : option GoError)
| CloseReturns (err : option GoError)
| Panics.                                  (* close of closed channel *)

Definition log (s : System) (evs : list Event) : System :=
  mkSystem (sched s) (chClosed s) (caller s) (evs ++ events s).

Definition goto (s : System) (g : Goroutine) : System :=
  mkSystem g (chClosed s) (caller s) (events s).

Definition hold (s : System) (rf : rollingFile) : System :=
  mkSystem (sched s) (chClosed s) (Holding rf) (events s).

(** [err != nil && !os.IsExist(err)], l. 92 / l. 262. *)
Definition mkdirFailed (mkdir : option GoError) : option GoError :=
  match mkdir with
  | Some err => if IsExist err then None else Some err
  | None => None
  end.

(** One turn of the goroutine's loop from l. 88 / l. 260 to its select. *)
Definition goOpen (P : Program) (s : System) (clock : Z)
    (mkdir : option GoError) (opened : Z + GoError) : System :=
  let now := epochNow P clock in
  let p := epochPath P now in
  let s := log s [EvMkdirAll (GoPath.Dir p) (dirMode P); EvNow now] in
  match mkdirFailed mkdir with
  | Some err => goto s (SendErr err)
  | None =>
      let s := log s [EvOpenFile p (Z.lor (Z.lor O_CREATE O_APPEND) O_WRONLY) (fileMode P)] in
      match opened with
      | inr err => goto s (SendErr err)
      | inl fd =>
          let file := mkFile fd p in
          if isPatternRev P
          then goto (log s (EvTimer (waitFor now) :: capturePattern P file)) (SendFile now file)
          else goto s (SendFile now file)
      end
  end.

(** The moves of the goroutine. *)
Definition goStep (P : Program) (s : System) (a : Action) : option System :=
  match a, sched s with
  | GoCheck, LoopHead =>
      Some (goto s (if chClosed s then Returning else Opening))
  | GoOpen clock mkdir opened, Opening =>
      Some (goOpen P s clock mkdir opened)
  | GoArm, Sent now file =>
      Some (goto (log s (EvTimer (waitFor now) :: captureLayout P file)) Sleeping)
  | GoClosed, SendErr _ =>
      if chClosed s then Some (goto s Returning) else None
  | GoClosed, SendFile _ _ =>
      if chClosed s
      then Some (goto s (if isPatternRev P then Returning (* l. 129 *) else LoopHead (* l. 282 *)))
      else None
  | GoTimeout, SendFile _ file =>
      if isPatternRev P
      then Some (goto (log s [EvFileClose (Some file)]) LoopHead)    (* ll. 130-131 *)
      else None
  | GoTimeout, Sleeping => Some (goto s LoopHead)
  | GoReturn, Returning => Some (goto (log s [EvCloseChFile]) Exited)
  | _, _ => None
  end.

(** The receive that [New] blocks in. *)
Definition newReceive (P : Program) (s : System) : System * Output :=
  match caller s with
  | InNew =>
      match offer s with
      | OfferFile now file =>
          (hold (goto s (afterSend P now file)) (mkRollingFile (Some file) None),
           NewReturns None)
      | OfferNil => (hold s (mkRollingFile None None), NewReturns None)
      | OfferErr err =>
          if isPatternRev P
          then (mkSystem Returning (chClosed s) (NewFailed err) (events s),
                NewReturns (Some err))                               (* ll. 139-140 *)
          else (s, Blocked)                                          (* l. 299 receives on chFile alone *)
      | NoOffer => (s, Blocked)
      end
  | _ => (s, Blocked)
  end.

(** The select of [Write], ll. 160-166 / ll. 315-321. *)
Definition poll (P : Program) (s : System) (rf : rollingFile) : System * rollingFile :=
  match offer s with
  | OfferErr err =>
      (goto s Returning, mkRollingFile (f rf) (Some err))
  | OfferFile now file =>
      (goto (log s [EvFileClose (f rf)]) (afterSend P now file),
       mkRollingFile (Some file) (lastErr rf))
  | OfferNil =>
      (log s [EvFileClose (f rf)], mkRollingFile None (lastErr rf))
  | NoOffer => (s, rf)
  end.

(** [rf.f.Write(p)] with the result [(n, err)] the file gives; a nil
    [*os.File] answers [os.ErrInvalid]. *)
Definition fileWrite (file : option File) (n : Z) (err : option GoError) : Z * option GoError :=
  match file with
  | Some _ => (n, err)
  | None => (0, Some ErrInvalid)
  end.

(** [rollingFile.Write]. *)
Definition Write (P : Program) (s : System) (rf : rollingFile)
    (p : list Byte.byte) (n : Z) (err : option GoError) : System * Output :=
  let '(s, rf) := poll P s rf in
  match lastErr rf with
  | Some e => (hold s rf, WriteReturns 0 (Some e))
  | None =>
      let '(n, err) := fileWrite (f rf) n err in
      (hold (log s [EvFileWrite (f rf) p]) rf, WriteReturns n err)
  end.

(** [rollingFile.Close]. *)
Definition Close (s : System) (rf : rollingFile) : System * Output :=
  let s := match f rf with
           | Some file => log s [EvFileClose (Some file)]
           | None => s
           end in
  let rf := mkRollingFile (f rf) (Some EOF) in
  if chClosed s
  then (hold s rf, Panics)
  else (mkSystem (sched s) true (Holding rf) (EvCloseChClosed :: events s), CloseReturns None).

Definition step (P : Program) (s : System) (a : Action) : System * Output :=
  match a with
  | NewReceive => newReceive P s
  | CallWrite p n err =>
      match caller s with
      | Holding rf => Write P s rf p n err
      | _ => (s, Blocked)
      end
  | CallClose =>
      match caller s with
      | Holding rf => Close s rf
      | _ => (s, Blocked)
      end
  | _ =>
      match goStep P s a with
      | Some s' => (s', Quiet)
      | None => (s, Blocked)
      end
  end.

(** A run: the state after the moves, and what each move returned. *)
Fixpoint run (P : Program) (s : System) (tr : list Action) : System * list Output :=
  match tr with
  | [] => (s, [])
  | a :: tr' =>
      let '(s1, o) := step P s a in
      let '(s2, os) := run P s1 tr' in
      (s2, o :: os)
  end.

Definition after (P : Program) (s : System) (tr : list Action) : System :=
  fst (run P s tr).

Definition outputs (P : Program) (s : System) (tr : list Action) : list Output :=
  snd (run P s tr).

(** ** Notions used to state the properties *)

(** *** The calendar *)

Definition yearLen (year : Z) : Z := if isLeap year then 366 else 365.

Definition monthLen (leap : bool) (month : Z) : Z :=
  if month =? 2 then (if leap then 29 else 28)
  else if (month =? 4) || (month =? 6) || (month =? 9) || (month =? 11) then 30
  else 31.

Definition daysIn (year month : Z) : Z := monthLen (isLeap year) month.

(** The calendar day after [c]: the next day of the month, else the first
    of the next month, else the first of January of the next year. *)
Definition nextDay (c : Civil) : Civil :=
  if cDay c <? daysIn (cYear c) (cMonth c)
  then mkCivil (cYear c) (cMonth c) (cDay c + 1) (cYday c + 1)
  else if cMonth c <? 12
       then mkCivil (cYear c) (cMonth c + 1) 1 (cYday c + 1)
       else mkCivil (cYear c + 1) 1 1 0.

(** The day count [Date] computes from a date. *)
Definition dayCount (c : Civil) : Z :=
  daysSinceEpoch (cYear c) + daysBefore (cMonth c - 1)
  + (if isLeap (cYear c) && (3 <=? cMonth c) then 1 else 0) + (cDay c - 1).

Definition nanosPerDay : Z := secondsPerDay * nanosPerSecond.

(** Nanoseconds on the wall clock of [t]'s location since its
    1970-01-01T00:00. *)
Definition localNano (t : Time) : Z :=
  unixNano t + offsetAt (loc t) (unixSec t) * nanosPerSecond.

(** From [t] to the next midnight on that wall clock. *)
Definition untilNextMidnight (t : Time) : Z :=
  nanosPerDay - localNano t mod nanosPerDay.

(** The offset found at the wall-clock reading [unix] is the one in
    effect at the instant it gives: [time.Date] has one answer there. *)
Definition readingKept (l : Location) (unix : Z) : Prop :=
  offsetAt l (unix - offsetAt l unix) = offsetAt l unix.

(** The day after [t]'s has its midnight: the reading 00:00:00 of that day
    is kept in [t]'s location. *)
Definition midnightKept (t : Time) : Prop :=
  readingKept (loc t) ((absSec t / secondsPerDay + 1) * secondsPerDay - unixToAbsolute).

(** The offset of [t]'s location is less than a day and does not change
    within two days of [t]. *)
Definition steady (t : Time) : Prop :=
  - secondsPerDay <= offsetAt (loc t) (unixSec t) <= secondsPerDay
  /\ forall sec,
       unixSec t - 2 * secondsPerDay <= sec <= unixSec t + 2 * secondsPerDay ->
       offsetAt (loc t) sec = offsetAt (loc t) (unixSec t).

(** [P] on [from], [from + 1], ..., [n] values in all. *)
Fixpoint allFrom (n : nat) (from : Z) (P : Z -> bool) : bool :=
  match n with
  | O => true
  | S k => P from && allFrom k (from + 1) P
  end.

(** What [monthDay] owes for one day of a year: a month and a day within
    it that count back to the day of the year, and the next day of the
    year is the next day of the calendar. *)
Definition monthDayCheck (leap : bool) (yday : Z) : bool :=
  let '(m, d) := monthDay leap yday in
  let '(m', d') := monthDay leap (yday + 1) in
  (1 <=? m) && (m <=? 12) && (1 <=? d) && (d <=? monthLen leap m)
  && (daysBefore (m - 1) + (if leap && (3 <=? m) then 1 else 0) + (d - 1) =? yday)
  && (if yday + 1 <? (if leap then 366 else 365)
      then if d <? monthLen leap m
           then (m' =? m) && (d' =? d + 1)
           else (m <? 12) && (m' =? m + 1) && (d' =? 1)
      else (m =? 12) && (d =? 31)).

(** *** The system *)

(** The goroutine has not taken a return. *)
Definition running (g : Goroutine) : bool :=
  match g with
  | Returning | Exited => false
  | _ => true
  end.

Definition validWrite (ev : Event) : bool :=
  match ev with
  | EvFileWrite None _ => false
  | _ => true
  end.

(** What holds in every state a run from [start] reaches. *)
Definition Inv (s : System) : Prop :=
  forallb validWrite (events s) = true
  /\ match caller s with
     | InNew => chClosed s = false /\ running (sched s) = true
     | NewFailed _ => True
     | Holding rf =>
         lastErr rf = None ->
         f rf <> None /\ chClosed s = false /\ running (sched s) = true
     end.

Definition isCallClose (a : Action) : bool :=
  match a with
  | CallClose => true
  | _ => false
  end.

(** The error a writer that recorded [e] holds after the moves [tr]. *)
Definition errAfter (e : GoError) (tr : list Action) : GoError :=
  if existsb isCallClose tr then EOF else e.

(** The writer holds the error [e] and no send can reach it any more. *)
Definition Failed (e : GoError) (s : System) : Prop :=
  exists rf, caller s = Holding rf /\ lastErr rf = Some e
             /\ (chClosed s = true \/ running (sched s) = false).

Definition isFileClose (ev : Event) : bool :=
  match ev with
  | EvFileClose _ => true
  | _ => false
  end.

(** The latest clock reading and the latest name opened in a log. *)
Fixpoint lastNow (evs : list Event) : option Time :=
  match evs with
  | [] => None
  | EvNow now :: _ => Some now
  | _ :: rest => lastNow rest
  end.

Fixpoint lastOpened (evs : list Event) : option string :=
  match evs with
  | [] => None
  | EvOpenFile name _ _ :: _ => Some name
  | _ :: rest => lastOpened rest
  end.

(** Every timer of the log was set to [waitFor now], for the [now] read
    last before it, and after the file formatted from that [now] was
    opened. *)
Fixpoint timersOk (P : Program) (evs : list Event) : Prop :=
  match evs with
  | [] => True
  | ev :: rest =>
      match ev with
      | EvTimer d =>
          exists now, lastNow rest = Some now
                      /\ lastOpened rest = Some (epochPath P now)
                      /\ d = waitFor now
      | _ => True
      end /\ timersOk P rest
  end.

Definition InvTimer (P : Program) (s : System) : Prop :=
  timersOk P (events s)
  /\ match sched s with
     | SendFile now file | Sent now file =>
         lastNow (events s) = Some now
         /\ lastOpened (events s) = Some (epochPath P now)
         /\ Name file = epochPath P now
     | _ => True
     end.

(** *** Sample runs *)

Definition samplePattern : Program :=
  mkProgram (PatternRev (Pattern.mkConfig "" 0 0 0)) UTC.

Definition sampleLayout : Program :=
  mkProgram (LayoutRev (Layout.mkConfig "" None 0 0 3)) UTC.

(** 2021-03-05T10:00:00Z and 2021-03-06T00:00:00.1Z, in nanoseconds. *)
Definition sampleClock : Z := 1614938400 * 10 ^ 9.
Definition sampleClock' : Z := 1614988800 * 10 ^ 9 + 10 ^ 8.

Definition sampleErr : GoError := PathError "open" "logs/2021/03/2021-03-06/log.log" 13.

(** [New] returns a writer after the first turn of the loop opened a file. *)
Definition sampleNew : list Action :=
  [GoCheck; GoOpen sampleClock None (inl 3); NewReceive].

(** Then midnight passes and the next turn fails to open its file. *)
Definition sampleFailing : list Action :=
  sampleNew ++ [GoTimeout; GoCheck; GoOpen sampleClock' None (inr sampleErr)].

(** America/Havana in 2021: Cuba Standard Time until 2021-03-14T05:00:00Z,
    when the clocks go from 00:00 to 01:00; Cuba Daylight Time from then
    to 2021-11-07T05:00:00Z, when they go from 01:00 back to 00:00. *)
Definition Havana : Location :=
  mkLocation (mkZone "CST" (-18000))
    [(1615698000, mkZone "CDT" (-14400)); (1636261200, mkZone "CST" (-18000))].

(** 2021-03-13T10:00:00 in Havana (15:00:00Z), in nanoseconds, and an
    hour in nanoseconds. *)
Definition havanaClock : Z := 1615647600 * 10 ^ 9.
Definition oneHour : Z := 3600 * 10 ^ 9.

(** The first revision where [time.Local] is Havana, and the second with
    [Config.Timezone] set to it. *)
Definition havanaPattern : Program :=
  mkProgram (PatternRev (Pattern.mkConfig "" 0 0 0)) Havana.

Definition havanaLayout : Program :=
  mkProgram (LayoutRev (Layout.mkConfig "" (Some Havana) 0 0 0)) UTC.

(** [New] returns, the timer of the first turn runs out after 13 hours,
    and the second turn opens its file. *)
Definition havanaRun : list Action :=
  [GoCheck; GoOpen havanaClock None (inl 3); NewReceive;
   GoTimeout; GoCheck; GoOpen (havanaClock + 13 * oneHour) None (inl 4)].

(** *** The claims that fail, as they are stated *)

(** Once a write has taken the scheduler's error from [chErr], every later
    write returns zero bytes and that same error. *)
Definition StickySameError : Prop :=
  forall P pre rf e p n err tr p' n' err',
    caller (after P start pre) = Holding rf ->
    offer (after P start pre) = OfferErr e ->
    snd (step P (after P (fst (step P (after P start pre) (CallWrite p n err))) tr)
           (CallWrite p' n' err'))
    = WriteReturns 0 (Some e).

(** The error a write takes from [chErr] is recorded permanently: the
    writer holds that error in every later state. *)
Definition RecordedPermanently : Prop :=
  forall P pre rf e p n err tr rf',
    caller (after P start pre) = Holding rf ->
    offer (after P start pre) = OfferErr e ->
    caller (after P (fst (step P (after P start pre) (CallWrite p n err))) tr) = Holding rf' ->
    lastErr rf' = Some e.

(** A second [Close] does not panic. *)
Definition SecondCloseGuarded : Prop :=
  forall P pre tr,
    snd (step P (after P start pre) CallClose) = CloseReturns None ->
    snd (step P (after P (fst (step P (after P start pre) CallClose)) tr) CallClose)
    <> Panics.

Definition sampleFile : File := mkFile 3 "logs/2021/03/2021-03-05/log.log".

(** ** Notions used to state the further properties *)

(** *** Text *)

(** The byte [c] occurs in [s]. *)
Fixpoint occurs (c : ascii) (s : string) : bool :=
  match s with
  | EmptyString => false
  | String a s' => Ascii.eqb a c || occurs c s'
  end.

(** The value of a string of decimal digits, most significant first. *)
Fixpoint digitsValue (acc : Z) (s : string) : Z :=
  match s with
  | EmptyString => acc
  | String c s' => digitsValue (10 * acc + (Z.of_nat (nat_of_ascii c) - 48)) s'
  end.

(** Every byte of [s] is a decimal digit. *)
Fixpoint allDigits (s : string) : bool :=
  match s with
  | EmptyString => true
  | String c s' => isDigit c && allDigits s'
  end.

Definition digitsCheck (width : nat) (x : Z) : bool := allDigits (appendInt x width).

(** [appendInt x width] has [width] bytes and reads back as [x]. *)
Definition paddedCheck (width : nat) (x : Z) : bool :=
  Nat.eqb (String.length (appendInt x width)) width
  && (digitsValue 0 (appendInt x width) =? x).

(** The dated segment both revisions put in the path by default. *)
Definition datedSegment (year month day : Z) : string :=
  appendInt year 4 ++ "/" ++ appendInt month 2 ++ "/"
  ++ appendInt year 4 ++ "-" ++ appendInt month 2 ++ "-" ++ appendInt day 2.

(** The path of [P] carries the date in the default layout: always so in
    the second revision, and in the first when the template is
    [pre{2006/01/2006-01-02}post]. *)
Definition datedTemplate (P : Program) : Prop :=
  match code P with
  | LayoutRev _ => True
  | PatternRev c =>
      exists pre post,
        occurs "{" pre = false /\ occurs "}" post = false
        /\ Pattern.FilepathPattern (Pattern.defaults c)
           = pre ++ String "{" ("2006/01/2006-01-02" ++ String "}" post)
  end.

(** Days from the absolute epoch to 1970-01-01. *)
Definition unixToAbsoluteDays : Z := 106751991073094.

(** *** The moves, as a relation *)

(** [O_CREATE|O_APPEND|O_WRONLY]. *)
Definition openFlags : Z := Z.lor (Z.lor O_CREATE O_APPEND) O_WRONLY.

(** What a turn logs up to [os.MkdirAll], and up to [os.OpenFile]. *)
Definition mkdirEvents (P : Program) (now : Time) : list Event :=
  [EvMkdirAll (GoPath.Dir (epochPath P now)) (dirMode P); EvNow now].

Definition openEvents (P : Program) (now : Time) : list Event :=
  EvOpenFile (epochPath P now) openFlags (fileMode P) :: mkdirEvents P now.

(** What the first revision does between opening a file and offering it. *)
Definition armPattern (P : Program) (now : Time) (file : File) : list Event :=
  if isPatternRev P then EvTimer (waitFor now) :: capturePattern P file else [].

(** [rf.f.Close()] in [Close]. *)
Definition closeEvents (rf : rollingFile) : list Event :=
  match f rf with
  | Some file => [EvFileClose (Some file)]
  | None => []
  end.

(** The select of [Write]: the state and the writer it leaves. *)
Inductive Polls (P : Program) : System -> rollingFile -> System -> rollingFile -> Prop :=
| Polls_default s rf :
    Polls P s rf s rf
| Polls_err e c evs rf :
    Polls P (mkSystem (SendErr e) false c evs) rf
            (mkSystem Returning false c evs) (mkRollingFile (f rf) (Some e))
| Polls_file now file c evs rf :
    Polls P (mkSystem (SendFile now file) false c evs) rf
            (mkSystem (afterSend P now file) false c (EvFileClose (f rf) :: evs))
            (mkRollingFile (Some file) (lastErr rf))
| Polls_nil cl c evs rf :
    Polls P (mkSystem Exited cl c evs) rf
            (mkSystem Exited cl c (EvFileClose (f rf) :: evs))
            (mkRollingFile None (lastErr rf)).

(** One move: the state before, what the move returns, the state after. *)
Inductive Trans (P : Program) : System -> Output -> System -> Prop :=
| T_blocked s :
    Trans P s Blocked s
| T_check cl c evs :
    Trans P (mkSystem LoopHead cl c evs) Quiet
            (mkSystem (if cl then Returning else Opening) cl c evs)
| T_mkdir_fails clock e cl c evs :
    Trans P (mkSystem Opening cl c evs) Quiet
            (mkSystem (SendErr e) cl c (mkdirEvents P (epochNow P clock) ++ evs))
| T_open_fails clock e cl c evs :
    Trans P (mkSystem Opening cl c evs) Quiet
            (mkSystem (SendErr e) cl c (openEvents P (epochNow P clock) ++ evs))
| T_opened clock fd cl c evs :
    Trans P (mkSystem Opening cl c evs) Quiet
            (mkSystem (SendFile (epochNow P clock)
                                (mkFile fd (epochPath P (epochNow P clock)))) cl c
                      (armPattern P (epochNow P clock)
                                  (mkFile fd (epochPath P (epochNow P clock)))
                       ++ openEvents P (epochNow P clock) ++ evs))
| T_arm now file cl c evs :
    Trans P (mkSystem (Sent now file) cl c evs) Quiet
            (mkSystem Sleeping cl c (EvTimer (waitFor now) :: captureLayout P file ++ evs))
| T_closed_err e c evs :
    Trans P (mkSystem (SendErr e) true c evs) Quiet (mkSystem Returning true c evs)
| T_closed_file now file c evs :
    Trans P (mkSystem (SendFile now file) true c evs) Quiet
            (mkSystem (if isPatternRev P then Returning else LoopHead) true c evs)
| T_timeout_file now file cl c evs :
    isPatternRev P = true ->
    Trans P (mkSystem (SendFile now file) cl c evs) Quiet
            (mkSystem LoopHead cl c (EvFileClose (Some file) :: evs))
| T_timeout cl c evs :
    Trans P (mkSystem Sleeping cl c evs) Quiet (mkSystem LoopHead cl c evs)
| T_return cl c evs :
    Trans P (mkSystem Returning cl c evs) Quiet (mkSystem Exited cl c (EvCloseChFile :: evs))
| T_new_file now file evs :
    Trans P (mkSystem (SendFile now file) false InNew evs) (NewReturns None)
            (mkSystem (afterSend P now file) false
                      (Holding (mkRollingFile (Some file) None)) evs)
| T_new_nil cl evs :
    Trans P (mkSystem Exited cl InNew evs) (NewReturns None)
            (mkSystem Exited cl (Holding (mkRollingFile None None)) evs)
| T_new_err e evs :
    isPatternRev P = true ->
    Trans P (mkSystem (SendErr e) false InNew evs) (NewReturns (Some e))
            (mkSystem Returning false (NewFailed e) evs)
| T_write_refused s rf s1 rf1 e :
    caller s = Holding rf -> Polls P s rf s1 rf1 -> lastErr rf1 = Some e ->
    Trans P s (WriteReturns 0 (Some e)) (hold s1 rf1)
| T_write s rf s1 rf1 p n err :
    caller s = Holding rf -> Polls P s rf s1 rf1 -> lastErr rf1 = None ->
    Trans P s (WriteReturns (fst (fileWrite (f rf1) n err)) (snd (fileWrite (f rf1) n err)))
            (hold (log s1 [EvFileWrite (f rf1) p]) rf1)
| T_close s rf :
    caller s = Holding rf -> chClosed s = false ->
    Trans P s (CloseReturns None)
            (mkSystem (sched s) true (Holding (mkRollingFile (f rf) (Some EOF)))
                      (EvCloseChClosed :: closeEvents rf ++ events s))
| T_close_again s rf :
    caller s = Holding rf -> chClosed s = true ->
    Trans P s Panics
            (mkSystem (sched s) true (Holding (mkRollingFile (f rf) (Some EOF)))
                      (closeEvents rf ++ events s)).

(** *** The goroutine winding down *)

(** How many moves the goroutine has left at most once [chClosed] is
    closed. *)
Definition shutdownRank (g : Goroutine) : nat :=
  match g with
  | Exited => 0
  | Returning => 1
  | LoopHead | SendErr _ => 2
  | SendFile _ _ | Sleeping => 3
  | Opening | Sent _ _ => 4
  end.

Definition isQuiet (o : Output) : bool :=
  match o with
  | Quiet => true
  | _ => false
  end.

(** The moves the goroutine made in a run. *)
Definition goMoves (os : list Output) : nat := List.length (filter isQuiet os).

(** The goroutine takes no further turn of its loop. *)
Definition halted (g : Goroutine) : bool :=
  match g with
  | SendErr _ | Returning | Exited => true
  | _ => false
  end.

(** The events of a turn of the loop. *)
Definition isTurnEvent (ev : Event) : bool :=
  match ev with
  | EvNow _ | EvMkdirAll _ _ | EvOpenFile _ _ _ | EvTimer _
  | EvDup2 _ _ | EvSyscallClose _ => true
  | _ => false
  end.

Definition isOpenFile (ev : Event) : bool :=
  match ev with
  | EvOpenFile _ _ _ => true
  | _ => false
  end.

Definition isFileWrite (ev : Event) : bool :=
  match ev with
  | EvFileWrite _ _ => true
  | _ => false
  end.

Definition isCloseChFile (ev : Event) : bool :=
  match ev with
  | EvCloseChFile => true
  | _ => false
  end.

Definition isCloseChClosed (ev : Event) : bool :=
  match ev with
  | EvCloseChClosed => true
  | _ => false
  end.

Definition count (p : Event -> bool) (evs : list Event) : nat :=
  List.length (filter p evs).

(** The redirection of a standard descriptor is asked for by [Flags]; only
    the first revision closes the descriptor before it duplicates. *)
Definition captureOk (P : Program) (ev : Event) : Prop :=
  match ev with
  | EvDup2 _ newfd =>
      (newfd = stdoutFd /\ hasFlag P FlagCaptureStdout = true)
      \/ (newfd = stderrFd /\ hasFlag P FlagCaptureStderr = true)
  | EvSyscallClose fd =>
      isPatternRev P = true
      /\ ((fd = stdoutFd /\ hasFlag P FlagCaptureStdout = true)
          \/ (fd = stderrFd /\ hasFlag P FlagCaptureStderr = true))
  | _ => True
  end.

(** A clock reading of the log is one of the program's: an instant seen in
    the location the program reads its clock in. *)
Definition readBy (P : Program) (ev : Event) : Prop :=
  match ev with
  | EvNow now => exists clock, now = epochNow P clock
  | _ => True
  end.

(** [file] was opened by a turn of the loop: at the path formatted from a
    clock reading of the log, with the flags and the mode of the program. *)
Definition openedBy (P : Program) (evs : list Event) (file : File) : Prop :=
  exists now,
    Name file = epochPath P now
    /\ List.In (EvNow now) evs
    /\ List.In (EvOpenFile (Name file) openFlags (fileMode P)) evs.

Definition Provenance (P : Program) (s : System) : Prop :=
  match sched s with
  | SendFile _ file | Sent _ file => openedBy P (events s) file
  | _ => True
  end
  /\ match caller s with
     | Holding rf =>
         match f rf with
         | Some file => openedBy P (events s) file
         | None => True
         end
     | _ => True
     end.

(** Every [os.OpenFile] of a log comes right after the [os.MkdirAll] of its
    directory, which comes right after the clock reading its path is
    formatted from. *)
Fixpoint opensOk (P : Program) (evs : list Event) : Prop :=
  match evs with
  | [] => True
  | ev :: rest =>
      match ev with
      | EvOpenFile name flag perm =>
          exists now rest',
            rest = EvMkdirAll (GoPath.Dir name) (dirMode P) :: EvNow now :: rest'
            /\ name = epochPath P now /\ flag = openFlags /\ perm = fileMode P
      | _ => True
      end /\ opensOk P rest
  end.

(** The file the goroutine is about to open, if it is in a turn. *)
Definition pendingOpen (g : Goroutine) : nat :=
  match g with
  | Opening => 1
  | _ => 0
  end.

(** The writer has recorded an error. *)
Definition holdsError (s : System) : Prop :=
  exists rf e, caller s = Holding rf /\ lastErr rf = Some e.

(** [New] has returned a writer and the writer was closed at once. *)
Definition sampleClosed : System :=
  after samplePattern start (sampleNew ++ [CallClose]).

Definition isExited (g : Goroutine) : bool :=
  match g with
  | Exited => true
  | _ => false
  end.

(** Each channel has been closed once if it is closed, and never otherwise. *)
Definition closesOk (s : System) : Prop :=
  count isCloseChFile (events s) = (if isExited (sched s) then 1 else 0)%nat
  /\ count isCloseChClosed (events s) = (if chClosed s then 1 else 0)%nat.

(** *** Tactics *)

Ltac split_andb :=
  repeat match goal with
         | H : _ && _ = true |- _ => apply andb_prop in H as [? ?]
         end.

Ltac z_bools :=
  repeat match goal with
         | H : (_ =? _) = true |- _ => apply Z.eqb_eq in H
         | H : (_ <=? _) = true |- _ => apply Z.leb_le in H
         | H : (_ <? _) = true |- _ => apply Z.ltb_lt in H
         | H : (_ <? _) = false |- _ => apply Z.ltb_ge in H
         end.

(** Case analysis on the prefixes a layout is tested for; [len] is the
    lemma that relates a stripped prefix to what is left. *)
Ltac strip_cases len H :=
  repeat match type of H with
         | context [stripPrefix ?p ?s] =>
             let E := fresh "E" in
             destruct (stripPrefix p s) eqn:E; [apply len in E; cbn in E|]
         | context [if ?b then _ else _] => destruct b
         end.

(** * Properties *)

(** ** The standard library at work *)

Example date_unix_epoch : date (mkTime 0 UTC) = mkCivil 1970 1 1 0.
Proof. vm_compute. reflexivity. Qed.

Example date_2021 :
  date (mkTime (1614938400 * 10 ^ 9) UTC) = mkCivil 2021 3 5 63
  /\ Hour (mkTime (1614938400 * 10 ^ 9) UTC) = 10
  /\ Weekday (mkTime (1614938400 * 10 ^ 9) UTC) = 5.
Proof. vm_compute. repeat split. Qed.

Example Date_2021 :
  unixNano (Date 2021 3 5 10 0 0 0 UTC) = 1614938400 * 10 ^ 9
  /\ unixNano (Date 2021 12 32 0 0 0 0 UTC) = unixNano (Date 2022 1 1 0 0 0 0 UTC)
  /\ date (Date 2020 2 29 0 0 0 0 UTC) = mkCivil 2020 2 29 59
  /\ date (Date 2021 2 29 0 0 0 0 UTC) = mkCivil 2021 3 1 59.
Proof. vm_compute. repeat split. Qed.

Example Format_examples :
  let t := mkTime (1614938400 * 10 ^ 9 + 123456789) UTC in
  Format t "2006/01/2006-01-02" = "2021/03/2021-03-05"
  /\ Format t "2006}/x/{01" = "2021}/x/{03"
  /\ Format t "Mon Jan _2 15:04:05 MST 2006" = "Fri Mar  5 10:00:00 UTC 2021"
  /\ Format t "2006-01-02T15:04:05.999999999Z07:00" = "2021-03-05T10:00:00.123456789Z"
  /\ Format t "Monday, 02-Jan-06 3:04PM .000 -0700 _2006 002" = "Friday, 05-Mar-21 10:00AM .123 +0000 _2021 064".
Proof. vm_compute. repeat split. Qed.

Example path_examples :
  GoPath.Dir "logs/log.log" = "logs" /\ GoPath.Base "logs/log.log" = "log.log"
  /\ GoPath.Dir "log.log" = "." /\ GoPath.Dir "/a/b/../c/./d//e.log" = "/a/c/d"
  /\ GoPath.Clean "../../a/../../b/" = "../../../b" /\ GoPath.Clean "/../a" = "/a"
  /\ GoPath.Base "/a/b///" = "b" /\ GoPath.Base "///" = "/" /\ GoPath.Dir "/x" = "/"
  /\ GoPath.Clean "a/b/c/../../d" = "a/d" /\ GoPath.Clean "abc/.." = "." /\ GoPath.Clean "a/./b/.c/..d" = "a/b/.c/..d".
Proof. vm_compute. repeat split. Qed.

Example regexp_examples :
  GoRegexp.ReplaceAllStringFunc "a{bc}d{e}f" (fun s => "<" ++ s ++ ">") = "a<{bc}d{e}>f"
  /\ GoRegexp.ReplaceAllStringFunc "a{bc" (fun s => "<" ++ s ++ ">") = "a{bc"
  /\ GoRegexp.ReplaceAllStringFunc "a}{b{}c" (fun s => "<" ++ s ++ ">") = "a}<{b{}>c".
Proof. vm_compute. repeat split. Qed.

(** ** The calendar *)

Lemma rem_eqb_mod a b : 0 < b -> (Z.rem a b =? 0) = (a mod b =? 0).
Proof.
  intros Hb. destruct (Z.eqb_spec (Z.rem a b) 0) as [H|H];
    destruct (Z.eqb_spec (a mod b) 0) as [H'|H']; try reflexivity; exfalso.
  - apply Z.rem_divide in H; [|lia]. apply Z.mod_divide in H; [|lia]. contradiction.
  - apply Z.mod_divide in H'; [|lia]. apply Z.rem_divide in H'; [|lia]. contradiction.
Qed.

Lemma isLeap_mod year :
  isLeap year = (year mod 4 =? 0) && (negb (year mod 100 =? 0) || (year mod 400 =? 0)).
Proof. unfold isLeap. rewrite !rem_eqb_mod by lia. reflexivity. Qed.

(** The year count from the absolute zero year, split in cycles. *)
Lemma isLeap_cycles a b c e :
  0 <= b <= 3 -> 0 <= c <= 24 -> 0 <= e <= 3 ->
  isLeap (400 * a + 100 * b + 4 * c + e + absoluteZeroYear)
  = (e =? 3) && (negb (c =? 24) || (b =? 3)).
Proof.
  intros Hb Hc He. rewrite isLeap_mod. unfold absoluteZeroYear.
  replace ((400 * a + 100 * b + 4 * c + e + -292277022399) mod 4) with ((e + 1) mod 4)
    by (Z.div_mod_to_equations; lia).
  replace ((400 * a + 100 * b + 4 * c + e + -292277022399) mod 100) with ((4 * c + e + 1) mod 100)
    by (Z.div_mod_to_equations; lia).
  replace ((400 * a + 100 * b + 4 * c + e + -292277022399) mod 400) with ((100 * b + 4 * c + e + 1) mod 400)
    by (Z.div_mod_to_equations; lia).
  destruct (Z.eqb_spec e 3), (Z.eqb_spec c 24), (Z.eqb_spec b 3);
  repeat match goal with |- context [?x mod ?y =? 0] => destruct (Z.eqb_spec (x mod y) 0) end;
  simpl; try reflexivity; exfalso; Z.div_mod_to_equations; lia.
Qed.

Lemma dayYear_cycles d0 :
  exists a b c e yday,
    0 <= b <= 3 /\ 0 <= c <= 24 /\ 0 <= e <= 3 /\
    0 <= yday /\
    dayYear d0 = (400 * a + 100 * b + 4 * c + e + absoluteZeroYear, yday) /\
    d0 = 146097 * a + 36524 * b + 1461 * c + 365 * e + yday /\
    yday < (if (e =? 3) && (negb (c =? 24) || (b =? 3)) then 366 else 365).
Proof.
  unfold dayYear, daysPer400Years, daysPer100Years, daysPer4Years.
  rewrite !Z.shiftr_div_pow2 by lia. change (2 ^ 2) with 4.
  set (a := d0 / 146097).
  set (d1 := d0 - 146097 * a).
  set (b' := d1 / 36524). set (b := b' - b' / 4).
  set (d2 := d1 - 36524 * b).
  set (c := d2 / 1461).
  set (d3 := d2 - 1461 * c).
  set (e' := d3 / 365). set (e := e' - e' / 4).
  set (d4 := d3 - 365 * e).
  exists a, b, c, e, d4.
  assert (H1 : 0 <= d1 < 146097) by (subst d1 a; Z.div_mod_to_equations; lia).
  assert (Hb' : 0 <= b' <= 4) by (subst b'; Z.div_mod_to_equations; lia).
  assert (Hb : 0 <= b <= 3 /\ (b' = 4 -> b = 3) /\ (b' <= 3 -> b = b'))
    by (subst b; Z.div_mod_to_equations; lia).
  assert (H2 : 0 <= d2 <= 36524 /\ (d2 = 36524 -> b = 3))
    by (subst d2 b'; Z.div_mod_to_equations; lia).
  assert (Hc : 0 <= c <= 24) by (subst c; Z.div_mod_to_equations; lia).
  assert (H3 : 0 <= d3 <= 1460 /\ (c = 24 -> b <> 3 -> d3 <= 1459))
    by (subst d3 c; Z.div_mod_to_equations; lia).
  assert (He' : 0 <= e' <= 4) by (subst e'; Z.div_mod_to_equations; lia).
  assert (He : 0 <= e <= 3 /\ (e' = 4 -> e = 3) /\ (e' <= 3 -> e = e'))
    by (subst e; Z.div_mod_to_equations; lia).
  assert (H4 : 0 <= d4 <= 365 /\ (d4 = 365 -> e = 3 /\ d3 = 1460))
    by (subst d4 e'; Z.div_mod_to_equations; lia).
  repeat split; try lia.
  destruct (Z.eqb_spec e 3), (Z.eqb_spec c 24), (Z.eqb_spec b 3); simpl; lia.
Qed.

Lemma daysSinceEpoch_cycles a b c e :
  0 <= b <= 3 -> 0 <= c <= 24 -> 0 <= e <= 3 ->
  daysSinceEpoch (400 * a + 100 * b + 4 * c + e + absoluteZeroYear)
  = 146097 * a + 36524 * b + 1461 * c + 365 * e.
Proof.
  intros Hb Hc He. unfold daysSinceEpoch, daysPer400Years, daysPer100Years, daysPer4Years.
  replace (400 * a + 100 * b + 4 * c + e + absoluteZeroYear - absoluteZeroYear)
    with (400 * a + 100 * b + 4 * c + e) by lia.
  assert (Ha' : (400 * a + 100 * b + 4 * c + e) / 400 = a) by (Z.div_mod_to_equations; lia).
  rewrite Ha'.
  replace (400 * a + 100 * b + 4 * c + e - 400 * a) with (100 * b + 4 * c + e) by lia.
  assert (Hb' : (100 * b + 4 * c + e) / 100 = b) by (Z.div_mod_to_equations; lia).
  rewrite Hb'.
  replace (100 * b + 4 * c + e - 100 * b) with (4 * c + e) by lia.
  assert (Hc' : (4 * c + e) / 4 = c) by (Z.div_mod_to_equations; lia).
  rewrite Hc'. lia.
Qed.

Lemma year_cycles year :
  exists a b c e, 0 <= b <= 3 /\ 0 <= c <= 24 /\ 0 <= e <= 3 /\
    year = 400 * a + 100 * b + 4 * c + e + absoluteZeroYear.
Proof.
  set (y := year - absoluteZeroYear).
  exists (y / 400), (y mod 400 / 100), (y mod 100 / 4), (y mod 4).
  subst y. Z.div_mod_to_equations. lia.
Qed.

(** The year and day of the year that [dayYear] finds are the ones that
    count back to the day. *)
Lemma dayYear_spec d0 :
  d0 = daysSinceEpoch (fst (dayYear d0)) + snd (dayYear d0)
  /\ 0 <= snd (dayYear d0) < yearLen (fst (dayYear d0)).
Proof.
  destruct (dayYear_cycles d0) as (a & b & c & e & yday & Hb & Hc & He & Hy & Heq & Hd & Hlt).
  rewrite Heq. cbn [fst snd]. unfold yearLen.
  rewrite daysSinceEpoch_cycles, isLeap_cycles by assumption. lia.
Qed.

Lemma daysSinceEpoch_succ year :
  daysSinceEpoch (year + 1) = daysSinceEpoch year + yearLen year.
Proof.
  destruct (year_cycles year) as (a & b & c & e & Hb & Hc & He & ->).
  unfold yearLen. rewrite isLeap_cycles, (daysSinceEpoch_cycles a b c e) by assumption.
  destruct (Z.eqb_spec e 3) as [->|He3].
  - destruct (Z.eqb_spec c 24) as [->|Hc24].
    + destruct (Z.eqb_spec b 3) as [->|Hb3]; cbn [negb andb orb].
      * replace (400 * a + 100 * 3 + 4 * 24 + 3 + absoluteZeroYear + 1)
          with (400 * (a + 1) + 100 * 0 + 4 * 0 + 0 + absoluteZeroYear) by lia.
        rewrite daysSinceEpoch_cycles by lia. lia.
      * replace (400 * a + 100 * b + 4 * 24 + 3 + absoluteZeroYear + 1)
          with (400 * a + 100 * (b + 1) + 4 * 0 + 0 + absoluteZeroYear) by lia.
        rewrite daysSinceEpoch_cycles by lia. lia.
    + cbn [negb andb orb].
      replace (400 * a + 100 * b + 4 * c + 3 + absoluteZeroYear + 1)
        with (400 * a + 100 * b + 4 * (c + 1) + 0 + absoluteZeroYear) by lia.
      rewrite daysSinceEpoch_cycles by lia. lia.
  - cbn [andb].
    replace (400 * a + 100 * b + 4 * c + e + absoluteZeroYear + 1)
      with (400 * a + 100 * b + 4 * c + (e + 1) + absoluteZeroYear) by lia.
    rewrite daysSinceEpoch_cycles by lia. lia.
Qed.

Lemma yearLen_pos year : 0 < yearLen year.
Proof. unfold yearLen. destruct (isLeap year); lia. Qed.

Lemma daysSinceEpoch_mono y1 y2 : y1 <= y2 -> daysSinceEpoch y1 <= daysSinceEpoch y2.
Proof.
  intros H. replace y2 with (y1 + Z.of_nat (Z.to_nat (y2 - y1))) by lia.
  induction (Z.to_nat (y2 - y1)) as [|k IH]; [rewrite Z.add_0_r; lia|].
  rewrite Nat2Z.inj_succ, <- Z.add_1_r, Z.add_assoc, daysSinceEpoch_succ.
  pose proof (yearLen_pos (y1 + Z.of_nat k)). lia.
Qed.

(** A day lies in one year only. *)
Lemma year_unique y1 d1 y2 d2 :
  daysSinceEpoch y1 + d1 = daysSinceEpoch y2 + d2 ->
  0 <= d1 < yearLen y1 -> 0 <= d2 < yearLen y2 -> y1 = y2 /\ d1 = d2.
Proof.
  intros Heq H1 H2.
  assert (Hy : y1 = y2).
  { destruct (Z.lt_trichotomy y1 y2) as [Hlt|[->|Hgt]]; [exfalso|reflexivity|exfalso].
    - pose proof (daysSinceEpoch_mono (y1 + 1) y2 ltac:(lia)) as Hm.
      rewrite daysSinceEpoch_succ in Hm. lia.
    - pose proof (daysSinceEpoch_mono (y2 + 1) y1 ltac:(lia)) as Hm.
      rewrite daysSinceEpoch_succ in Hm. lia. }
  subst. split; [reflexivity|lia].
Qed.

Lemma dayYear_unique d0 year yday :
  d0 = daysSinceEpoch year + yday -> 0 <= yday < yearLen year ->
  dayYear d0 = (year, yday).
Proof.
  intros Heq Hr. destruct (dayYear_spec d0) as [H1 H2].
  destruct (dayYear d0) as [y d]. cbn [fst snd] in *.
  destruct (year_unique y d year yday) as [-> ->]; [lia|assumption|assumption|reflexivity].
Qed.

Lemma allFrom_spec n P : forall from, allFrom n from P = true ->
  forall r, from <= r < from + Z.of_nat n -> P r = true.
Proof.
  induction n as [|k IH]; intros from H r Hr; [lia|].
  simpl in H. apply andb_prop in H as [H1 H2].
  destruct (Z.eq_dec r from) as [->|Hne]; [assumption|].
  apply (IH (from + 1)); [assumption|lia].
Qed.

Lemma monthDay_checked (leap : bool) (yday : Z) :
  0 <= yday < (if leap then 366 else 365) -> monthDayCheck leap yday = true.
Proof.
  intros H. destruct leap.
  - apply (allFrom_spec 366 (monthDayCheck true) 0); [vm_compute; reflexivity|lia].
  - apply (allFrom_spec 365 (monthDayCheck false) 0); [vm_compute; reflexivity|lia].
Qed.

Lemma dayDate_valid d0 :
  1 <= cMonth (dayDate d0) <= 12
  /\ 1 <= cDay (dayDate d0) <= daysIn (cYear (dayDate d0)) (cMonth (dayDate d0)).
Proof.
  unfold dayDate, daysIn. destruct (dayYear_spec d0) as [_ Hr].
  destruct (dayYear d0) as [year yday]. cbn [fst snd] in Hr. unfold yearLen in Hr.
  pose proof (monthDay_checked (isLeap year) yday Hr) as Hc. unfold monthDayCheck in Hc.
  destruct (monthDay (isLeap year) yday) as [m d].
  destruct (monthDay (isLeap year) (yday + 1)) as [m' d'].
  cbn [cMonth cDay cYear]. split_andb. z_bools. lia.
Qed.

(** Counting the days of the date found gives the day back. *)
Lemma dayCount_dayDate d0 : dayCount (dayDate d0) = d0.
Proof.
  unfold dayDate, dayCount. destruct (dayYear_spec d0) as [Heq Hr].
  destruct (dayYear d0) as [year yday]. cbn [fst snd] in Heq, Hr. unfold yearLen in Hr.
  pose proof (monthDay_checked (isLeap year) yday Hr) as Hc. unfold monthDayCheck in Hc.
  destruct (monthDay (isLeap year) yday) as [m d].
  destruct (monthDay (isLeap year) (yday + 1)) as [m' d'].
  cbn [cMonth cDay cYear]. split_andb. z_bools. lia.
Qed.

(** The day after, across month and year ends. *)
Lemma dayDate_succ d0 : dayDate (d0 + 1) = nextDay (dayDate d0).
Proof.
  destruct (dayYear_spec d0) as [Heq Hr].
  unfold dayDate at 2. unfold nextDay, daysIn.
  destruct (dayYear d0) as [year yday] eqn:Hdy. cbn [fst snd] in Heq, Hr.
  pose proof Hr as Hr'. unfold yearLen in Hr'.
  pose proof (monthDay_checked (isLeap year) yday Hr') as Hc. unfold monthDayCheck in Hc.
  destruct (monthDay (isLeap year) yday) as [m d] eqn:Hmd.
  destruct (monthDay (isLeap year) (yday + 1)) as [m' d'] eqn:Hmd'.
  cbn [cMonth cDay cYear cYday]. split_andb.
  destruct (Z.ltb_spec (yday + 1) (if isLeap year then 366 else 365)) as [Hin|Hout].
  - assert (Hn : dayYear (d0 + 1) = (year, yday + 1))
      by (apply dayYear_unique; unfold yearLen; lia).
    unfold dayDate. rewrite Hn, Hmd'.
    destruct (d <? monthLen (isLeap year) m); split_andb; z_bools; subst.
    + reflexivity.
    + destruct (Z.ltb_spec m 12); [reflexivity|lia].
  - split_andb. z_bools. subst m d.
    assert (Hn : dayYear (d0 + 1) = (year + 1, 0)).
    { apply dayYear_unique; [rewrite daysSinceEpoch_succ; unfold yearLen; lia|].
      pose proof (yearLen_pos (year + 1)). lia. }
    unfold dayDate. rewrite Hn.
    replace (monthDay (isLeap (year + 1)) 0) with (1, 1) by (destruct (isLeap (year + 1)); reflexivity).
    reflexivity.
Qed.

Lemma FixedZone_offset name offset sec : offsetAt (FixedZone name offset) sec = offset.
Proof. reflexivity. Qed.

Lemma FixedZone_kept name offset unix : readingKept (FixedZone name offset) unix.
Proof. reflexivity. Qed.

Lemma FixedZone_steady n name offset :
  - secondsPerDay <= offset <= secondsPerDay -> steady (mkTime n (FixedZone name offset)).
Proof. intros H. split; [exact H|]. intros sec _. reflexivity. Qed.

(** Where the reading is kept, [time.Date] subtracts the offset found at
    the reading. *)
Lemma zoneAdjust_kept l unix :
  readingKept l unix -> zoneAdjust l unix = unix - offsetAt l unix.
Proof.
  unfold readingKept, zoneAdjust. intros H.
  assert (Ho : offsetAt l unix = zoneOffset (fst (fst (lookup l unix)))) by reflexivity.
  destruct (lookup l unix) as [[z start] stop]. cbn [fst] in Ho. rewrite <- Ho.
  generalize dependent (offsetAt l unix). intros o H _.
  destruct (o =? 0) eqn:E; [apply Z.eqb_eq in E; subst o; ring|].
  destruct ((unix - o <? start) || (stop <=? unix - o)); [rewrite H|]; reflexivity.
Qed.

Lemma Date_midnight year month day l :
  1 <= month <= 12 ->
  Date year month day 0 0 0 0 l
  = mkTime (zoneAdjust l (dayCount (mkCivil year month day 0) * secondsPerDay
                          - unixToAbsolute) * nanosPerSecond) l.
Proof.
  intros Hm. unfold Date, norm, dayCount. cbn [cYear cMonth cDay].
  rewrite (Z.div_small (month - 1) 12), (Z.mod_small (month - 1) 12) by lia.
  change (0 / nanosPerSecond) with 0. change (0 mod nanosPerSecond) with 0.
  change (0 / 60) with 0. change (0 mod 60) with 0.
  change (0 / 24) with 0. change (0 mod 24) with 0.
  cbv zeta. rewrite !Z.add_0_r.
  replace (month - 1 + 1) with month by lia.
  do 3 f_equal. destruct (isLeap year && (3 <=? month)); ring.
Qed.

(** [tomorrow] in every location: the reading 00:00:00 of the next
    calendar day, adjusted by [time.Date]. *)
Lemma tomorrow_reading now :
  tomorrow now
  = mkTime (zoneAdjust (loc now)
              ((absSec now / secondsPerDay + 1) * secondsPerDay - unixToAbsolute)
            * nanosPerSecond) (loc now).
Proof.
  unfold tomorrow, Year, Month, Day, Location_of, date, absDate.
  set (D := absSec now / secondsPerDay).
  destruct (dayDate_valid D) as [Hm _].
  rewrite Date_midnight by assumption.
  pose proof (dayCount_dayDate D) as Hc. clearbody D.
  destruct (dayDate D) as [y m d yd]. unfold dayCount in *. cbn [cYear cMonth cDay] in *.
  do 3 f_equal. rewrite <- Hc. ring.
Qed.

(** The reading of the next midnight lies within a day of [now]'s. *)
Lemma next_midnight_near a :
  a < (a / secondsPerDay + 1) * secondsPerDay <= a + secondsPerDay.
Proof.
  assert (Hp : 0 < secondsPerDay) by reflexivity.
  pose proof (Z.div_mod a secondsPerDay ltac:(lia)) as Hd.
  pose proof (Z.mod_pos_bound a secondsPerDay Hp) as Hb.
  generalize dependent (a / secondsPerDay). generalize dependent (a mod secondsPerDay).
  generalize dependent secondsPerDay. intros. nia.
Qed.

Lemma steady_kept now :
  steady now ->
  midnightKept now
  /\ offsetAt (loc now) ((absSec now / secondsPerDay + 1) * secondsPerDay - unixToAbsolute)
     = offsetAt (loc now) (unixSec now).
Proof.
  intros [Ho Hs]. unfold midnightKept, readingKept.
  pose proof (next_midnight_near (absSec now)) as Hn.
  set (T := (absSec now / secondsPerDay + 1) * secondsPerDay - unixToAbsolute) in *.
  assert (Ha : absSec now = unixSec now + offsetAt (loc now) (unixSec now) + unixToAbsolute)
    by reflexivity.
  assert (HT : unixSec now + offsetAt (loc now) (unixSec now) < T
               <= unixSec now + offsetAt (loc now) (unixSec now) + secondsPerDay).
  { subst T. rewrite Ha in Hn at 1 4. lia. }
  clear Hn Ha. clearbody T.
  generalize dependent (offsetAt (loc now) (unixSec now)). intros o Ho Hs HT.
  assert (H1 : offsetAt (loc now) T = o).
  { apply Hs. generalize dependent secondsPerDay. intros. lia. }
  split; [|exact H1]. rewrite H1. apply Hs.
  generalize dependent secondsPerDay. intros. lia.
Qed.

Lemma absSec_seconds sec l :
  absSec (mkTime (sec * nanosPerSecond) l) = sec + offsetAt l sec + unixToAbsolute.
Proof.
  unfold absSec, unixSec. cbn [unixNano loc].
  rewrite Z.div_mul by (unfold nanosPerSecond; lia). reflexivity.
Qed.

Lemma tomorrow_eq now :
  steady now ->
  tomorrow now
  = mkTime (((absSec now / secondsPerDay + 1) * secondsPerDay
             - unixToAbsolute - offsetAt (loc now) (unixSec now)) * nanosPerSecond) (loc now).
Proof.
  intros Hs. destruct (steady_kept now Hs) as [Hk Ho]. unfold midnightKept in Hk.
  rewrite tomorrow_reading, (zoneAdjust_kept _ _ Hk), Ho. reflexivity.
Qed.

Lemma absSec_tomorrow now :
  midnightKept now ->
  absSec (tomorrow now) = (absSec now / secondsPerDay + 1) * secondsPerDay.
Proof.
  intros Hk. unfold midnightKept in Hk.
  rewrite tomorrow_reading, (zoneAdjust_kept _ _ Hk), absSec_seconds.
  unfold readingKept in Hk. rewrite Hk. ring.
Qed.

(** Where the next day has its midnight, [tomorrow] is
    00:00:00.000000000 of the next calendar day. *)
Lemma tomorrow_civil now :
  midnightKept now ->
  date (tomorrow now) = nextDay (date now)
  /\ Hour (tomorrow now) = 0 /\ Minute (tomorrow now) = 0
  /\ Second (tomorrow now) = 0 /\ Nanosecond (tomorrow now) = 0.
Proof.
  intros Hs.
  unfold date, absDate, Hour, Minute, Second. rewrite (absSec_tomorrow now Hs).
  set (D := absSec now / secondsPerDay).
  rewrite Z.div_mul by (unfold secondsPerDay; lia).
  rewrite dayDate_succ. split; [reflexivity|].
  rewrite Z.mod_mul by (unfold secondsPerDay; lia).
  unfold secondsPerDay, secondsPerHour, secondsPerMinute.
  replace ((D + 1) * 86400) with ((D + 1) * 24 * 3600) at 1 by lia.
  rewrite Z.mod_mul by lia.
  replace ((D + 1) * 86400) with ((D + 1) * 1440 * 60) by lia.
  rewrite Z.mod_mul by lia.
  repeat split.
  rewrite tomorrow_reading. unfold Nanosecond. cbn [unixNano].
  apply Z.mod_mul. unfold nanosPerSecond; lia.
Qed.

Lemma waitFor_eq now :
  steady now ->
  waitFor now = untilNextMidnight now /\ 0 < waitFor now <= nanosPerDay.
Proof.
  intros Hs.
  unfold waitFor, Sub. rewrite tomorrow_eq by exact Hs. cbn [unixNano].
  unfold untilNextMidnight, localNano, absSec, unixSec.
  set (N := unixNano now). set (off := offsetAt (loc now) (N / nanosPerSecond)).
  clearbody off.
  assert (HU : unixToAbsolute = 106751991073094 * secondsPerDay) by reflexivity.
  rewrite HU. rewrite Z.div_add by (unfold secondsPerDay; lia).
  assert (Hq : (N + off * nanosPerSecond) / nanosPerDay
               = (N / nanosPerSecond + off) / secondsPerDay).
  { unfold nanosPerDay. rewrite (Z.mul_comm secondsPerDay).
    rewrite <- Z.div_div by (unfold nanosPerSecond, secondsPerDay; lia).
    rewrite Z.div_add by (unfold nanosPerSecond; lia). reflexivity. }
  pose proof (Z.div_mod (N + off * nanosPerSecond) nanosPerDay ltac:(unfold nanosPerDay, secondsPerDay, nanosPerSecond; lia)) as Hdm.
  pose proof (Z.mod_pos_bound (N + off * nanosPerSecond) nanosPerDay ltac:(unfold nanosPerDay, secondsPerDay, nanosPerSecond; lia)) as Hb.
  rewrite Hq in Hdm.
  set (q := (N / nanosPerSecond + off) / secondsPerDay) in *.
  set (r := (N + off * nanosPerSecond) mod nanosPerDay) in *.
  unfold nanosPerDay, secondsPerDay, nanosPerSecond, minDuration, maxDuration in *.
  assert (Hd : ((q + 106751991073094 + 1) * 86400 - 106751991073094 * 86400 - off) * 1000000000 - N
               = 86400 * 1000000000 - r) by lia.
  rewrite Hd.
  destruct (Z.ltb_spec (86400 * 1000000000 - r) (- 2 ^ 63)); [lia|].
  destruct (Z.ltb_spec (2 ^ 63 - 1) (86400 * 1000000000 - r)); [lia|].
  lia.
Qed.

Lemma Date_clock year month day hour min sec l :
  1 <= month <= 12 -> 0 <= hour < 24 -> 0 <= min < 60 -> 0 <= sec < 60 ->
  Date year month day hour min sec 0 l
  = mkTime (zoneAdjust l (dayCount (mkCivil year month day 0) * secondsPerDay
                          + hour * secondsPerHour + min * secondsPerMinute + sec
                          - unixToAbsolute) * nanosPerSecond) l.
Proof.
  intros Hm Hh Hmi Hs. unfold Date, norm, dayCount. cbn [cYear cMonth cDay].
  rewrite (Z.div_small (month - 1) 12), (Z.mod_small (month - 1) 12) by lia.
  change (0 / nanosPerSecond) with 0. change (0 mod nanosPerSecond) with 0.
  rewrite !Z.add_0_r.
  rewrite (Z.div_small sec 60), (Z.mod_small sec 60) by lia. rewrite !Z.add_0_r.
  rewrite (Z.div_small min 60), (Z.mod_small min 60) by lia. rewrite !Z.add_0_r.
  rewrite (Z.div_small hour 24), (Z.mod_small hour 24) by lia. rewrite !Z.add_0_r.
  replace (month - 1 + 1) with month by lia.
  do 3 f_equal. destruct (isLeap year && (3 <=? month)); ring.
Qed.

(** Where the reading is kept, the time [time.Date] returns shows the
    fields it was given. *)
Lemma absSec_Date year month day hour min sec l :
  1 <= month <= 12 -> 0 <= hour < 24 -> 0 <= min < 60 -> 0 <= sec < 60 ->
  readingKept l (dayCount (mkCivil year month day 0) * secondsPerDay
                 + hour * secondsPerHour + min * secondsPerMinute + sec - unixToAbsolute) ->
  absSec (Date year month day hour min sec 0 l)
  = dayCount (mkCivil year month day 0) * secondsPerDay
    + hour * secondsPerHour + min * secondsPerMinute + sec
  /\ Nanosecond (Date year month day hour min sec 0 l) = 0
  /\ loc (Date year month day hour min sec 0 l) = l
  /\ unixSec (Date year month day hour min sec 0 l)
     = dayCount (mkCivil year month day 0) * secondsPerDay
       + hour * secondsPerHour + min * secondsPerMinute + sec - unixToAbsolute
       - offsetAt l (dayCount (mkCivil year month day 0) * secondsPerDay
                     + hour * secondsPerHour + min * secondsPerMinute + sec
                     - unixToAbsolute).
Proof.
  intros Hm Hh Hmi Hs Hk. rewrite Date_clock by assumption.
  rewrite (zoneAdjust_kept _ _ Hk). rewrite absSec_seconds.
  unfold unixSec, Nanosecond. cbn [unixNano loc].
  rewrite Z.div_mul, Z.mod_mul by (unfold nanosPerSecond; lia).
  unfold readingKept in Hk. rewrite Hk.
  repeat split. ring.
Qed.

(** *** The invariant *)

Lemma capturePattern_valid P file : forallb validWrite (capturePattern P file) = true.
Proof.
  unfold capturePattern.
  destruct (hasFlag P FlagCaptureStderr), (hasFlag P FlagCaptureStdout); reflexivity.
Qed.

Lemma captureLayout_valid P file : forallb validWrite (captureLayout P file) = true.
Proof.
  unfold captureLayout.
  destruct (hasFlag P FlagCaptureStderr), (hasFlag P FlagCaptureStdout); reflexivity.
Qed.

Lemma Inv_start : Inv start.
Proof. split; [reflexivity|]. cbn. auto. Qed.

Lemma goStep_Inv P s a s' : Inv s -> goStep P s a = Some s' -> Inv s'.
Proof.
  intros [Hw Hc] Hs. destruct s as [g cl c evs]. cbn in *.
  unfold goStep, goOpen, goto, log in Hs. cbn in Hs.
  destruct a; try discriminate; destruct g; try discriminate; cbn in Hs.
  all: repeat match type of Hs with
         | context [if ?x then _ else _] => destruct x eqn:?
         | context [match ?x with _ => _ end] => destruct x eqn:?
         end; try discriminate; injection Hs as <-; unfold Inv; cbn.
  all: split;
    [repeat (cbn; rewrite ?forallb_app, ?capturePattern_valid, ?captureLayout_valid, ?Hw); reflexivity|].
  all: destruct c as [| |rf]; cbn in *; try tauto.
  all: try (intros Hn; specialize (Hc Hn); intuition congruence).
  all: intuition congruence.
Qed.

Lemma newReceive_Inv P s : Inv s -> Inv (fst (newReceive P s)).
Proof.
  intros [Hw Hc]. destruct s as [g cl c evs]. unfold newReceive, offer, afterSend. cbn in *.
  destruct c as [| |rf]; [|exact (conj Hw Hc)|exact (conj Hw Hc)].
  destruct Hc as [-> Hr].
  destruct g; cbn in *; try discriminate; try (split; [assumption|cbn; auto]).
  - destruct (isPatternRev P); cbn; split; cbn; auto.
  - intros _. destruct (isPatternRev P); cbn; repeat split; congruence.
Qed.

Lemma Write_Inv P s rf p n err :
  Inv s -> caller s = Holding rf -> Inv (fst (Write P s rf p n err)).
Proof.
  intros [Hw Hc] Hrf. destruct s as [g cl c evs]. cbn in *. subst c.
  unfold Write, poll, offer, fileWrite, afterSend, hold, goto, log. cbn.
  destruct rf as [file lerr].
  destruct g, cl, lerr as [e|]; cbn in *;
    try (destruct file; cbn);
    try (destruct (isPatternRev P); cbn);
    unfold Inv; cbn; rewrite ?Hw; cbn;
    try (split; [reflexivity|]); try (intros ?; try discriminate);
    try (specialize (Hc eq_refl); destruct Hc as (? & ? & ?));
    try discriminate; try congruence; repeat split; try congruence.
Qed.

Lemma Close_Inv s rf : Inv s -> caller s = Holding rf -> Inv (fst (Close s rf)).
Proof.
  intros [Hw Hc] Hrf. destruct s as [g cl c evs]. cbn in *. subst c.
  unfold Close, hold, log. destruct rf as [[file|] lerr]; cbn;
    destruct cl; cbn; unfold Inv; cbn; rewrite ?Hw; split; try reflexivity; discriminate.
Qed.

Lemma step_Inv P s a : Inv s -> Inv (fst (step P s a)).
Proof.
  intros H. unfold step.
  destruct a;
    try (destruct (goStep P s _) eqn:Hg; [eapply goStep_Inv; eassumption|assumption]).
  - apply newReceive_Inv; assumption.
  - destruct (caller s) eqn:Hc; try assumption. apply Write_Inv; assumption.
  - destruct (caller s) eqn:Hc; try assumption. apply Close_Inv; assumption.
Qed.

Lemma after_cons P s a tr : after P s (a :: tr) = after P (fst (step P s a)) tr.
Proof.
  unfold after. cbn. destruct (step P s a) as [s1 o]. cbn.
  destruct (run P s1 tr). reflexivity.
Qed.

Lemma outputs_cons P s a tr :
  outputs P s (a :: tr) = snd (step P s a) :: outputs P (fst (step P s a)) tr.
Proof.
  unfold outputs. cbn. destruct (step P s a) as [s1 o]. cbn.
  destruct (run P s1 tr). reflexivity.
Qed.

Lemma after_app P tr1 : forall s tr2,
  after P s (tr1 ++ tr2) = after P (after P s tr1) tr2.
Proof.
  induction tr1 as [|a tr1 IH]; intros s tr2; [reflexivity|].
  rewrite <- app_comm_cons, !after_cons. apply IH.
Qed.

Lemma after_Inv P tr : forall s, Inv s -> Inv (after P s tr).
Proof.
  induction tr as [|a tr IH]; intros s H; [exact H|].
  rewrite after_cons. apply IH, step_Inv, H.
Qed.

(** Every state a run reaches from [start] satisfies the invariant. *)
Lemma reachable_Inv P tr : Inv (after P start tr).
Proof. apply after_Inv, Inv_start. Qed.

(** *** A recorded error stays *)

Lemma Failed_goStep P s a s' e : Failed e s -> goStep P s a = Some s' -> Failed e s'.
Proof.
  intros (rf & Hc & He & Hs) Hg. destruct s as [g cl c evs]. cbn in *. subst c.
  unfold goStep, goOpen, goto, log in Hg. cbn in Hg.
  destruct a; try discriminate; destruct g; try discriminate; cbn in Hg.
  all: repeat match type of Hg with
         | context [if ?x then _ else _] => destruct x eqn:?
         | context [match ?x with _ => _ end] => destruct x eqn:?
         end; try discriminate; injection Hg as <-.
  all: exists rf; cbn in *; repeat split; try assumption; intuition congruence.
Qed.

Lemma Failed_offer s e :
  Failed e s -> offer s = NoOffer \/ offer s = OfferNil.
Proof.
  intros (rf & Hc & He & Hs). unfold offer.
  destruct (sched s); cbn in *; auto; destruct (chClosed s); auto;
    destruct Hs; discriminate.
Qed.

Lemma Failed_Write P s e p n err :
  Failed e s ->
  snd (step P s (CallWrite p n err)) = WriteReturns 0 (Some e)
  /\ Failed e (fst (step P s (CallWrite p n err))).
Proof.
  intros HF. pose proof (Failed_offer s e HF) as Ho.
  destruct HF as (rf & Hc & He & Hs).
  unfold step. rewrite Hc. unfold Write, poll.
  destruct Ho as [-> | ->]; cbn; rewrite He; cbn.
  - split; [reflexivity|]. exists rf. auto.
  - split; [reflexivity|]. eexists. cbn. repeat split; eauto.
Qed.

Lemma Failed_Close P s e :
  Failed e s ->
  Failed EOF (fst (step P s CallClose)) /\ chClosed (fst (step P s CallClose)) = true.
Proof.
  intros (rf & Hc & He & Hs). unfold step. rewrite Hc. unfold Close.
  destruct (f rf); cbn; destruct (chClosed s) eqn:Hcl; cbn;
    (split; [eexists; cbn; repeat split; eauto|auto]).
Qed.

Lemma Failed_step P s a e :
  Failed e s -> Failed (if isCallClose a then EOF else e) (fst (step P s a)).
Proof.
  intros HF. destruct a; cbn [isCallClose];
    try (unfold step; destruct (goStep P s _) eqn:Hg;
         [eapply Failed_goStep; eassumption|assumption]).
  - destruct HF as (rf & Hc & He & Hs). unfold step, newReceive. rewrite Hc.
    exists rf. auto.
  - apply Failed_Write, HF.
  - eapply Failed_Close, HF.
Qed.

Lemma errAfter_cons e a tr :
  errAfter e (a :: tr) = errAfter (if isCallClose a then EOF else e) tr.
Proof.
  unfold errAfter. cbn. destruct (isCallClose a), (existsb isCallClose tr); reflexivity.
Qed.

Lemma Failed_after P tr : forall s e,
  Failed e s -> Failed (errAfter e tr) (after P s tr).
Proof.
  induction tr as [|a tr IH]; intros s e HF; [exact HF|].
  rewrite after_cons, errAfter_cons. apply IH, Failed_step, HF.
Qed.

(** *** Timers *)

Lemma lastNow_capturePattern P file l : lastNow (capturePattern P file ++ l) = lastNow l.
Proof.
  unfold capturePattern.
  destruct (hasFlag P FlagCaptureStderr), (hasFlag P FlagCaptureStdout); reflexivity.
Qed.

Lemma lastOpened_capturePattern P file l : lastOpened (capturePattern P file ++ l) = lastOpened l.
Proof.
  unfold capturePattern.
  destruct (hasFlag P FlagCaptureStderr), (hasFlag P FlagCaptureStdout); reflexivity.
Qed.

Lemma timersOk_capturePattern P file l : timersOk P l -> timersOk P (capturePattern P file ++ l).
Proof.
  unfold capturePattern.
  destruct (hasFlag P FlagCaptureStderr), (hasFlag P FlagCaptureStdout); cbn; tauto.
Qed.

Lemma lastNow_captureLayout P file l : lastNow (captureLayout P file ++ l) = lastNow l.
Proof.
  unfold captureLayout.
  destruct (hasFlag P FlagCaptureStderr), (hasFlag P FlagCaptureStdout); reflexivity.
Qed.

Lemma lastOpened_captureLayout P file l : lastOpened (captureLayout P file ++ l) = lastOpened l.
Proof.
  unfold captureLayout.
  destruct (hasFlag P FlagCaptureStderr), (hasFlag P FlagCaptureStdout); reflexivity.
Qed.

Lemma timersOk_captureLayout P file l : timersOk P l -> timersOk P (captureLayout P file ++ l).
Proof.
  unfold captureLayout.
  destruct (hasFlag P FlagCaptureStderr), (hasFlag P FlagCaptureStdout); cbn; tauto.
Qed.

Lemma InvTimer_start P : InvTimer P start.
Proof. split; exact I. Qed.

Lemma goStep_InvTimer P s a s' : InvTimer P s -> goStep P s a = Some s' -> InvTimer P s'.
Proof.
  intros [Ht Hs] Hg. destruct s as [g cl c evs]. cbn in *.
  unfold goStep, goOpen, goto, log in Hg. cbn in Hg.
  destruct a; try discriminate; destruct g; try discriminate; cbn in Hg.
  all: repeat match type of Hg with
         | context [if ?x then _ else _] => destruct x eqn:?
         | context [match ?x with _ => _ end] => destruct x eqn:?
         end; try discriminate; injection Hg as <-; unfold InvTimer; cbn.
  all: rewrite ?lastNow_capturePattern, ?lastOpened_capturePattern,
         ?lastNow_captureLayout, ?lastOpened_captureLayout; cbn.
  all: try (split; [|exact I]); try tauto.
  - (* first revision: the file is open and the timer set *)
    repeat split; try (eexists; repeat split; reflexivity).
    apply timersOk_capturePattern. cbn. tauto.
  - (* second revision: the timer is set after the send *)
    destruct Hs as (Hn & Ho & _). split; [|apply timersOk_captureLayout, Ht].
    exists now. auto.
Qed.

Lemma step_InvTimer P s a : InvTimer P s -> InvTimer P (fst (step P s a)).
Proof.
  intros H. unfold step.
  destruct a;
    try (destruct (goStep P s _) eqn:Hg; [eapply goStep_InvTimer; eassumption|assumption]).
  - (* NewReceive *)
    destruct H as [Ht Hs]. destruct s as [g cl c evs].
    unfold newReceive, offer, afterSend, InvTimer in *. cbn in *.
    destruct c; cbn; auto.
    destruct g; cbn in *; auto; destruct cl; cbn; auto;
      destruct (isPatternRev P); cbn; auto.
  - (* Write *)
    destruct H as [Ht Hs]. destruct s as [g cl c evs].
    unfold Write, poll, offer, afterSend, fileWrite, InvTimer in *. cbn in *.
    destruct c as [| |rf]; cbn; auto.
    destruct g; cbn in *; try destruct cl; cbn;
      try destruct (isPatternRev P); cbn;
      destruct (lastErr rf); cbn; try destruct (f rf); cbn; tauto.
  - (* Close *)
    destruct H as [Ht Hs]. destruct s as [g cl c evs].
    unfold Close, InvTimer in *. cbn in *.
    destruct c as [| |rf]; cbn; auto.
    destruct (f rf); cbn; destruct cl; cbn; destruct g; cbn in *; tauto.
Qed.

Lemma after_InvTimer P tr : forall s, InvTimer P s -> InvTimer P (after P s tr).
Proof.
  induction tr as [|a tr IH]; intros s H; [exact H|].
  rewrite after_cons. apply IH, step_InvTimer, H.
Qed.

Lemma timersOk_split P l1 : forall d l2,
  timersOk P (l1 ++ EvTimer d :: l2) ->
  exists now, lastNow l2 = Some now /\ lastOpened l2 = Some (epochPath P now)
              /\ d = waitFor now.
Proof.
  induction l1 as [|ev l1 IH]; intros d l2 H.
  - destruct H as [H _]. exact H.
  - destruct H as [_ H]. apply IH, H.
Qed.

(** *** Errors the scheduler reports *)

Lemma Write_observes P s rf e p n err :
  caller s = Holding rf -> offer s = OfferErr e ->
  snd (step P s (CallWrite p n err)) = WriteReturns 0 (Some e)
  /\ Failed e (fst (step P s (CallWrite p n err))).
Proof.
  intros Hc Ho. unfold step. rewrite Hc. unfold Write, poll. rewrite Ho. cbn.
  split; [reflexivity|]. eexists. cbn. repeat split; eauto.
Qed.

(** C1, as amended.  Once a write has taken the scheduler's error [e] from
    [chErr], that write and every later one return zero bytes and an
    error, whatever moves come between: the error is [e] as long as
    [Close] has not been called, and [io.EOF] from then on. *)
Theorem sticky_error_until_Close P s rf e p n err :
  caller s = Holding rf -> offer s = OfferErr e ->
  snd (step P s (CallWrite p n err)) = WriteReturns 0 (Some e)
  /\ forall tr p' n' err',
       snd (step P (after P (fst (step P s (CallWrite p n err))) tr)
              (CallWrite p' n' err'))
       = WriteReturns 0 (Some (errAfter e tr)).
Proof.
  intros Hc Ho. destruct (Write_observes P s rf e p n err Hc Ho) as [Hr HF].
  split; [exact Hr|]. intros tr p' n' err'.
  apply Failed_Write, Failed_after, HF.
Qed.

Lemma sticky_error_until_Close_witness :
  snd (step samplePattern (after samplePattern start sampleFailing) (CallWrite [] 0 None))
  = WriteReturns 0 (Some sampleErr)
  /\ forall tr p' n' err',
       snd (step samplePattern
              (after samplePattern
                 (fst (step samplePattern (after samplePattern start sampleFailing)
                         (CallWrite [] 0 None))) tr)
              (CallWrite p' n' err'))
       = WriteReturns 0 (Some (errAfter sampleErr tr)).
Proof.
  apply (sticky_error_until_Close samplePattern (after samplePattern start sampleFailing)
           (mkRollingFile (Some sampleFile) None) sampleErr [] 0 None);
    vm_compute; reflexivity.
Defined.

(** C1, as stated, fails: a [Close] between two writes replaces the
    scheduler's error by [io.EOF]. *)
Lemma sticky_error_replaced_by_Close : ~ StickySameError.
Proof.
  intros H.
  specialize (H samplePattern sampleFailing (mkRollingFile (Some sampleFile) None)
                sampleErr [] 0 None [CallClose] [] 0 None eq_refl eq_refl).
  vm_compute in H. discriminate H.
Qed.

(** *** Close *)

Lemma closed_step P s a :
  (exists rf, caller s = Holding rf) -> chClosed s = true ->
  (exists rf, caller (fst (step P s a)) = Holding rf)
  /\ chClosed (fst (step P s a)) = true.
Proof.
  intros [rf Hc] Hcl. destruct s as [g cl c evs]. cbn in *. subst c cl.
  unfold step, newReceive, Write, Close, poll, offer, fileWrite, goStep, goOpen,
    afterSend, hold, goto, log.
  destruct a; cbn; destruct g; cbn;
    repeat match goal with
      | |- context [if ?x then _ else _] => destruct x eqn:?; cbn
      | |- context [match ?x with _ => _ end] => destruct x eqn:?; cbn
      end; eauto.
Qed.

Lemma closed_after P tr : forall s,
  (exists rf, caller s = Holding rf) -> chClosed s = true ->
  (exists rf, caller (after P s tr) = Holding rf) /\ chClosed (after P s tr) = true.
Proof.
  induction tr as [|a tr IH]; intros s Hc Hcl; [auto|].
  rewrite after_cons. destruct (closed_step P s a Hc Hcl) as [Hc' Hcl']. apply IH; assumption.
Qed.

Lemma Close_returns_inv P s :
  snd (step P s CallClose) = CloseReturns None ->
  (exists rf, caller (fst (step P s CallClose)) = Holding rf)
  /\ chClosed (fst (step P s CallClose)) = true
  /\ Failed EOF (fst (step P s CallClose)).
Proof.
  unfold step. destruct (caller s) as [| |rf] eqn:Hc; cbn; try discriminate.
  unfold Close. destruct (f rf); cbn; destruct (chClosed s); cbn; try discriminate;
    intros _; (split; [eauto|split; [reflexivity|]]); eexists; cbn; repeat split; eauto.
Qed.

Lemma Close_when_closed P s rf :
  caller s = Holding rf -> chClosed s = true -> snd (step P s CallClose) = Panics.
Proof.
  intros Hc Hcl. unfold step. rewrite Hc. unfold Close.
  destruct (f rf); cbn; rewrite Hcl; reflexivity.
Qed.

(** C2, as amended.  The first [Close] on a held writer returns nil at
    once; every later [Close], whatever moves come between, is not guarded
    by state: it closes [chClosed] again and panics. *)
Theorem Close_once_then_panics P s rf :
  caller s = Holding rf -> chClosed s = false ->
  snd (step P s CallClose) = CloseReturns None
  /\ forall tr,
       snd (step P (after P (fst (step P s CallClose)) tr) CallClose) = Panics.
Proof.
  intros Hc Hcl.
  assert (Hr : snd (step P s CallClose) = CloseReturns None).
  { unfold step. rewrite Hc. unfold Close. destruct (f rf); cbn; rewrite Hcl; reflexivity. }
  split; [exact Hr|]. intros tr.
  destruct (Close_returns_inv P s Hr) as (Hh & Hcl1 & _).
  destruct (closed_after P tr _ Hh Hcl1) as [[rf' Hc'] Hcl'].
  exact (Close_when_closed P _ rf' Hc' Hcl').
Qed.

Lemma Close_once_then_panics_witness :
  snd (step samplePattern (after samplePattern start sampleNew) CallClose) = CloseReturns None
  /\ forall tr,
       snd (step samplePattern
              (after samplePattern (fst (step samplePattern (after samplePattern start sampleNew) CallClose)) tr)
              CallClose) = Panics.
Proof.
  apply (Close_once_then_panics samplePattern (after samplePattern start sampleNew)
           (mkRollingFile (Some sampleFile) None)); vm_compute; reflexivity.
Defined.

(** C2, as stated, fails: the second [Close] panics. *)
Lemma second_Close_not_guarded : ~ SecondCloseGuarded.
Proof.
  intros H. apply (H samplePattern sampleNew []); vm_compute; reflexivity.
Qed.

(** C6.  After [Close] has returned, every later [Write] returns zero bytes
    and [io.EOF], whatever the scheduler, further writes and further calls
    of [Close] do in between. *)
Theorem writes_after_Close_fail_EOF P s :
  snd (step P s CallClose) = CloseReturns None ->
  forall tr p n err,
    snd (step P (after P (fst (step P s CallClose)) tr) (CallWrite p n err))
    = WriteReturns 0 (Some EOF).
Proof.
  intros Hr tr p n err.
  destruct (Close_returns_inv P s Hr) as (_ & _ & HF).
  pose proof (Failed_after P tr _ _ HF) as HF'.
  replace (errAfter EOF tr) with EOF in HF'
    by (unfold errAfter; destruct (existsb isCallClose tr); reflexivity).
  apply Failed_Write, HF'.
Qed.

Lemma writes_after_Close_fail_EOF_witness :
  snd (step samplePattern (after samplePattern start sampleNew) CallClose) = CloseReturns None
  /\ snd (step samplePattern
            (after samplePattern
               (fst (step samplePattern (after samplePattern start sampleNew) CallClose))
               [GoTimeout; GoCheck; GoReturn; CallWrite [] 0 None])
            (CallWrite [] 5 None))
     = WriteReturns 0 (Some EOF).
Proof.
  split; [vm_compute; reflexivity|].
  apply (writes_after_Close_fail_EOF samplePattern (after samplePattern start sampleNew)).
  vm_compute. reflexivity.
Defined.

(** *** The constructor *)

Lemma goOpen_open_fails P s clock mkdir e :
  sched (goOpen P s clock mkdir (inr e))
  = SendErr (match mkdirFailed mkdir with Some e' => e' | None => e end)
  /\ caller (goOpen P s clock mkdir (inr e)) = caller s
  /\ chClosed (goOpen P s clock mkdir (inr e)) = chClosed s.
Proof. unfold goOpen. destruct (mkdirFailed mkdir); cbn; auto. Qed.

Lemma first_turn P clock mkdir opened :
  after P start [GoCheck; GoOpen clock mkdir opened]
  = goOpen P (mkSystem Opening false InNew []) clock mkdir opened.
Proof. reflexivity. Qed.

(** A constructor of the second revision that waits while the goroutine
    offers an error can make no move, and neither can anyone else. *)
Lemma New_stuck P s e a :
  isPatternRev P = false -> caller s = InNew -> sched s = SendErr e -> chClosed s = false ->
  step P s a = (s, Blocked).
Proof.
  intros HP Hc Hs Hcl. destruct s as [g cl c evs]. cbn in *. subst.
  destruct a; unfold step, newReceive, offer, goStep; cbn; rewrite ?HP; reflexivity.
Qed.

Lemma New_stuck_run P e tr : forall s,
  isPatternRev P = false -> caller s = InNew -> sched s = SendErr e -> chClosed s = false ->
  run P s tr = (s, map (fun _ => Blocked) tr).
Proof.
  induction tr as [|a tr IH]; intros s HP Hc Hs Hcl; [reflexivity|].
  cbn. rewrite (New_stuck P s e a HP Hc Hs Hcl), (IH s HP Hc Hs Hcl). reflexivity.
Qed.

(** C3, second revision.  When the first [os.OpenFile] fails (or
    [os.MkdirAll] before it), the goroutine waits to send its error on
    [chErr], [New] waits to receive on [chFile], and no move is left:
    whatever is tried afterwards, [New] is still waiting and has returned
    neither a writer nor the error. *)
Theorem Second_New_never_returns config local clock mkdir e tr :
  let P := mkProgram (LayoutRev config) local in
  let s := after P start [GoCheck; GoOpen clock mkdir (inr e)] in
  (exists e', sched s = SendErr e')
  /\ caller (after P s tr) = InNew
  /\ Forall (fun o => o = Blocked) (outputs P s tr).
Proof.
  intros P s. subst s. rewrite first_turn.
  destruct (goOpen_open_fails P (mkSystem Opening false InNew []) clock mkdir e)
    as (Hs & Hc & Hcl).
  split; [eauto|].
  unfold after, outputs. rewrite (New_stuck_run P _ tr _ eq_refl Hc Hs Hcl). cbn [fst snd].
  split; [exact Hc|]. apply Forall_forall. intros o Ho. apply in_map_iff in Ho.
  destruct Ho as (a & <- & _). reflexivity.
Qed.

(** First revision: [New] returns as soon as the first turn of the loop
    has reached its select, with the writer when a file is offered and
    with the goroutine's error otherwise. *)
Lemma First_New_returns config local clock mkdir opened :
  let P := mkProgram (PatternRev config) local in
  let s := after P start [GoCheck; GoOpen clock mkdir opened] in
  match mkdirFailed mkdir, opened with
  | None, inl fd =>
      exists file, Fd file = fd
        /\ snd (step P s NewReceive) = NewReturns None
        /\ caller (fst (step P s NewReceive)) = Holding (mkRollingFile (Some file) None)
  | Some e, _ | None, inr e =>
      snd (step P s NewReceive) = NewReturns (Some e)
      /\ caller (fst (step P s NewReceive)) = NewFailed e
  end.
Proof.
  intros P s. subst s. rewrite first_turn. unfold goOpen.
  destruct (mkdirFailed mkdir) as [e|]; [cbn; auto|].
  destruct opened as [fd|e]; cbn; [|auto].
  eexists. repeat split. reflexivity.
Qed.

(** *** Write *)

(** C4.  [Write] never waits: it returns.  Its select takes what the
    goroutine offers at that moment and nothing more: the file offered on
    [chFile], after closing the file held before; or the error offered on
    [chErr], which the writer then holds in every later state (as is, or
    as [io.EOF] once [Close] is called); with nothing offered the writer is
    left as it was.  One call closes at most one held file. *)
Theorem Write_polls_once P s rf p n err :
  caller s = Holding rf ->
  (exists k r, snd (step P s (CallWrite p n err)) = WriteReturns k r)
  /\ exists rf' new,
       caller (fst (step P s (CallWrite p n err))) = Holding rf'
       /\ events (fst (step P s (CallWrite p n err))) = (new ++ events s)%list
       /\ (List.length (filter isFileClose new) <= 1)%nat
       /\ match offer s with
          | OfferFile now file =>
              f rf' = Some file /\ lastErr rf' = lastErr rf
              /\ List.In (EvFileClose (f rf)) new
              /\ sched (fst (step P s (CallWrite p n err))) = afterSend P now file
          | OfferErr e =>
              f rf' = f rf /\ lastErr rf' = Some e
              /\ sched (fst (step P s (CallWrite p n err))) = Returning
              /\ forall tr, exists rf'',
                   caller (after P (fst (step P s (CallWrite p n err))) tr) = Holding rf''
                   /\ lastErr rf'' = Some (errAfter e tr)
          | OfferNil =>
              f rf' = None /\ lastErr rf' = lastErr rf
              /\ sched (fst (step P s (CallWrite p n err))) = sched s
          | NoOffer =>
              rf' = rf /\ sched (fst (step P s (CallWrite p n err))) = sched s
          end.
Proof.
  intros Hc.
  destruct (offer s) as [e|now file| |] eqn:Ho.
  - destruct (Write_observes P s rf e p n err Hc Ho) as [Hr HF].
    split; [eauto|].
    unfold step in *. rewrite Hc in *. unfold Write, poll in *. rewrite Ho in *. cbn in *.
    exists (mkRollingFile (f rf) (Some e)), []. cbn. repeat split; auto.
    intros tr. destruct (Failed_after P tr _ _ HF) as (rf'' & H1 & H2 & _). eauto.
  - unfold step. rewrite Hc. unfold Write, poll. rewrite Ho.
    destruct rf as [file0 [e0|]]; cbn.
    + split; [eauto|]. eexists; exists [EvFileClose file0]. cbn. repeat split; auto.
    + split; [eauto|]. eexists; exists [EvFileWrite (Some file) p; EvFileClose file0].
      cbn. repeat split; auto.
  - unfold step. rewrite Hc. unfold Write, poll. rewrite Ho.
    destruct rf as [file0 [e0|]]; cbn.
    + split; [eauto|]. eexists; exists [EvFileClose file0]. cbn. repeat split; auto.
    + split; [eauto|]. eexists; exists [EvFileWrite None p; EvFileClose file0].
      cbn. repeat split; auto.
  - unfold step. rewrite Hc. unfold Write, poll. rewrite Ho.
    destruct rf as [file0 [e0|]]; cbn.
    + split; [eauto|]. eexists; exists []. cbn. repeat split; auto.
    + destruct file0 as [file0|]; cbn; (split; [eauto|]);
        eexists; eexists [EvFileWrite _ p]; cbn; repeat split; auto.
Qed.

Lemma Write_polls_once_witness :
  (exists k r, snd (step samplePattern (after samplePattern start sampleFailing) (CallWrite [] 0 None))
               = WriteReturns k r)
  /\ exists rf' new,
       caller (fst (step samplePattern (after samplePattern start sampleFailing) (CallWrite [] 0 None)))
       = Holding rf'
       /\ events (fst (step samplePattern (after samplePattern start sampleFailing) (CallWrite [] 0 None)))
          = (new ++ events (after samplePattern start sampleFailing))%list
       /\ (List.length (filter isFileClose new) <= 1)%nat
       /\ match offer (after samplePattern start sampleFailing) with
          | OfferFile now file =>
              f rf' = Some file /\ lastErr rf' = lastErr (mkRollingFile (Some sampleFile) None)
              /\ List.In (EvFileClose (f (mkRollingFile (Some sampleFile) None))) new
              /\ sched (fst (step samplePattern (after samplePattern start sampleFailing) (CallWrite [] 0 None)))
                 = afterSend samplePattern now file
          | OfferErr e =>
              f rf' = f (mkRollingFile (Some sampleFile) None) /\ lastErr rf' = Some e
              /\ sched (fst (step samplePattern (after samplePattern start sampleFailing) (CallWrite [] 0 None)))
                 = Returning
              /\ forall tr, exists rf'',
                   caller (after samplePattern
                             (fst (step samplePattern (after samplePattern start sampleFailing)
                                     (CallWrite [] 0 None))) tr) = Holding rf''
                   /\ lastErr rf'' = Some (errAfter e tr)
          | OfferNil =>
              f rf' = None /\ lastErr rf' = lastErr (mkRollingFile (Some sampleFile) None)
              /\ sched (fst (step samplePattern (after samplePattern start sampleFailing) (CallWrite [] 0 None)))
                 = sched (after samplePattern start sampleFailing)
          | NoOffer =>
              rf' = mkRollingFile (Some sampleFile) None
              /\ sched (fst (step samplePattern (after samplePattern start sampleFailing) (CallWrite [] 0 None)))
                 = sched (after samplePattern start sampleFailing)
          end.
Proof.
  apply (Write_polls_once samplePattern (after samplePattern start sampleFailing)
           (mkRollingFile (Some sampleFile) None) [] 0 None).
  vm_compute. reflexivity.
Defined.

(** C4, as stated, fails: the error a write has recorded is not kept for
    good, a later [Close] puts [io.EOF] in its place. *)
Lemma recorded_error_replaced_by_Close : ~ RecordedPermanently.
Proof.
  intros H.
  specialize (H samplePattern sampleFailing (mkRollingFile (Some sampleFile) None)
                sampleErr [] 0 None [CallClose]
                (mkRollingFile (Some sampleFile) (Some EOF)) eq_refl eq_refl eq_refl).
  discriminate H.
Qed.

Lemma offer_same s s' :
  sched s' = sched s -> chClosed s' = chClosed s -> offer s' = offer s.
Proof. intros H1 H2. unfold offer. rewrite H1, H2. reflexivity. Qed.

(** C5.  In a state a run reaches, let the writer hold no error and the
    goroutine offer none.  Then [Write] passes the bytes to the held file,
    which is not nil, and returns what the file returns, count and error
    alike; an error of the file is not kept: the writer still holds no
    error, and the write that follows, on a file that answers without
    error, returns that answer. *)
Theorem Write_forwards_verbatim P tr rf p n err :
  caller (after P start tr) = Holding rf ->
  lastErr rf = None ->
  (forall e, offer (after P start tr) <> OfferErr e) ->
  snd (step P (after P start tr) (CallWrite p n err)) = WriteReturns n err
  /\ (exists file rest,
        caller (fst (step P (after P start tr) (CallWrite p n err)))
        = Holding (mkRollingFile (Some file) None)
        /\ events (fst (step P (after P start tr) (CallWrite p n err)))
           = EvFileWrite (Some file) p :: rest)
  /\ forall p' n',
       snd (step P (fst (step P (after P start tr) (CallWrite p n err))) (CallWrite p' n' None))
       = WriteReturns n' None.
Proof.
  intros Hc He Ho. pose proof (reachable_Inv P tr) as [_ HI].
  set (s := after P start tr) in *. clearbody s.
  rewrite Hc in HI. specialize (HI He). destruct HI as (Hf & Hcl & Hrun).
  destruct s as [g cl c evs]. cbn in *. subst c cl.
  destruct rf as [[file0|] lerr]; cbn in *; [subst lerr|congruence].
  unfold step, Write, poll, offer, fileWrite, afterSend, hold, goto, log in *. cbn in *.
  destruct g; cbn in *; try discriminate;
    try (exfalso; eapply Ho; reflexivity);
    try destruct (isPatternRev P); cbn; repeat split; eauto.
Qed.

Lemma Write_forwards_verbatim_witness :
  snd (step samplePattern (after samplePattern start sampleNew) (CallWrite [] 7 (Some ErrInvalid)))
  = WriteReturns 7 (Some ErrInvalid)
  /\ (exists file rest,
        caller (fst (step samplePattern (after samplePattern start sampleNew)
                       (CallWrite [] 7 (Some ErrInvalid))))
        = Holding (mkRollingFile (Some file) None)
        /\ events (fst (step samplePattern (after samplePattern start sampleNew)
                          (CallWrite [] 7 (Some ErrInvalid))))
           = EvFileWrite (Some file) [] :: rest)
  /\ forall p' n',
       snd (step samplePattern
              (fst (step samplePattern (after samplePattern start sampleNew)
                      (CallWrite [] 7 (Some ErrInvalid))))
              (CallWrite p' n' None))
       = WriteReturns n' None.
Proof.
  apply (Write_forwards_verbatim samplePattern sampleNew (mkRollingFile (Some sampleFile) None)).
  - vm_compute. reflexivity.
  - reflexivity.
  - intros e. vm_compute. discriminate.
Defined.

(** C10.  In every state a run from the start reaches, a writer that
    holds no error holds a file that is not nil; and no [Write] that has
    been made passed bytes to a nil file. *)
Theorem held_file_never_nil P tr :
  (forall rf, caller (after P start tr) = Holding rf -> lastErr rf = None -> f rf <> None)
  /\ (forall p, ~ List.In (EvFileWrite None p) (events (after P start tr))).
Proof.
  destruct (reachable_Inv P tr) as [Hw HI]. split.
  - intros rf Hc He. rewrite Hc in HI. apply HI, He.
  - intros p Hin. rewrite forallb_forall in Hw. specialize (Hw _ Hin). discriminate Hw.
Qed.

Lemma held_file_never_nil_witness :
  caller (after samplePattern start sampleNew) = Holding (mkRollingFile (Some sampleFile) None)
  /\ lastErr (mkRollingFile (Some sampleFile) None) = None
  /\ f (mkRollingFile (Some sampleFile) None) <> None.
Proof.
  split; [vm_compute; reflexivity|]. split; [reflexivity|].
  apply (proj1 (held_file_never_nil samplePattern sampleNew)); vm_compute; reflexivity.
Defined.

(** *** The path *)

Lemma append_empty_r (s : string) : s ++ "" = s.
Proof. induction s as [|c s IH]; [reflexivity|]. cbn. rewrite IH. reflexivity. Qed.

(** C7.  Two bracketed tokens on one line are one match of [{.*}], from
    the first opening brace to the last closing one: the text between the
    tokens, with its braces, goes to [Format] as part of one layout.  At
    2021-03-05 the template [{2006}/x/{01}] gives [2021}/x/{03], not
    [2021/x/03]. *)
Theorem two_tokens_one_match :
  (forall now, Pattern.formatPath "{2006}/x/{01}" now = Format now "2006}/x/{01")
  /\ Pattern.formatPath "{2006}/x/{01}" (mkTime sampleClock UTC) = "2021}/x/{03"
  /\ Format (mkTime sampleClock UTC) "2006" ++ "/x/" ++ Format (mkTime sampleClock UTC) "01"
     = "2021/x/03".
Proof.
  split; [|split; vm_compute; reflexivity].
  intros now. unfold Pattern.formatPath.
  change (GoRegexp.ReplaceAllStringFunc "{2006}/x/{01}" (fun s => Format now (Pattern.inner s)))
    with (Format now (Pattern.inner "{2006}/x/{01}") ++ "").
  apply append_empty_r.
Qed.

Lemma default_template repl :
  GoRegexp.ReplaceAllStringFunc "logs/{2006/01/2006-01-02}/log.log" repl
  = "logs/" ++ repl "{2006/01/2006-01-02}" ++ "/log.log".
Proof. reflexivity. Qed.

Lemma Format_date_2021 l layout :
  readingKept l 1614938400 ->
  exists name offset,
    Format (Date 2021 3 5 10 0 0 0 l) layout
    = formatLoop (String.length layout) 9223372030330260000 0 name offset layout.
Proof.
  intros Hk. unfold Format.
  destruct (absSec_Date 2021 3 5 10 0 0 l) as (Ha & Hn & Hl & _); try lia; [exact Hk|].
  rewrite Ha, Hn, Hl. eexists _, _. reflexivity.
Qed.

Lemma Pattern_format_2021 l :
  readingKept l 1614938400 ->
  Pattern.formatPath "logs/{2006/01/2006-01-02}/log.log" (Date 2021 3 5 10 0 0 0 l)
  = "logs/2021/03/2021-03-05/log.log".
Proof.
  intros Hk. unfold Pattern.formatPath. rewrite default_template.
  change (Pattern.inner "{2006/01/2006-01-02}") with "2006/01/2006-01-02".
  destruct (Format_date_2021 l "2006/01/2006-01-02" Hk) as (name & offset & ->).
  vm_compute. reflexivity.
Qed.

Lemma Layout_format_2021 l :
  readingKept l 1614938400 ->
  Layout.formatPath "logs/log.log" (Date 2021 3 5 10 0 0 0 l)
  = "logs/2021/03/2021-03-05/log.log".
Proof.
  intros Hk. unfold Layout.formatPath.
  destruct (Format_date_2021 l "/2006/01/2006-01-02/" Hk) as (name & offset & ->).
  vm_compute. reflexivity.
Qed.

Lemma goOpen_lastOpened P s clock mkdir opened :
  mkdirFailed mkdir = None ->
  lastOpened (events (goOpen P s clock mkdir opened))
  = Some (epochPath P (epochNow P clock)).
Proof.
  intros Hm. unfold goOpen. rewrite Hm.
  destruct opened as [fd|e]; [|reflexivity].
  destruct (isPatternRev P); cbn; [|reflexivity].
  apply lastOpened_capturePattern.
Qed.

(** C8.  The path of a turn of the loop is the formatter applied to the
    template and to [now], whatever the state of the system and whatever
    the world answers: it is the name passed to [os.OpenFile] whenever the
    turn gets there.  At 10:00:00 on 2021-03-05, in any location where
    [time.Date] has one answer for that reading (every zone of fixed
    offset is one), the template [logs/{2006/01/2006-01-02}/log.log] (the
    default of the first revision) gives
    [logs/2021/03/2021-03-05/log.log], and so does the second revision
    for its default [logs/log.log]. *)
Theorem path_from_template_and_now :
  (forall P s clock mkdir opened,
      mkdirFailed mkdir = None ->
      lastOpened (events (goOpen P s clock mkdir opened))
      = Some (epochPath P (epochNow P clock)))
  /\ (forall config local now,
        epochPath (mkProgram (PatternRev config) local) now
        = Pattern.formatPath (Pattern.FilepathPattern (Pattern.defaults config)) now)
  /\ (forall config local now,
        epochPath (mkProgram (LayoutRev config) local) now
        = Layout.formatPath (Layout.Filepath (Layout.defaults local config)) now)
  /\ (forall l,
        readingKept l 1614938400 ->
        Pattern.formatPath "logs/{2006/01/2006-01-02}/log.log" (Date 2021 3 5 10 0 0 0 l)
        = "logs/2021/03/2021-03-05/log.log")
  /\ (forall l,
        readingKept l 1614938400 ->
        Layout.formatPath "logs/log.log" (Date 2021 3 5 10 0 0 0 l)
        = "logs/2021/03/2021-03-05/log.log")
  /\ (forall name offset, readingKept (FixedZone name offset) 1614938400)
  /\ Pattern.FilepathPattern (Pattern.defaults (Pattern.mkConfig "" 0 0 0))
     = "logs/{2006/01/2006-01-02}/log.log"
  /\ Layout.Filepath (Layout.defaults UTC (Layout.mkConfig "" None 0 0 0)) = "logs/log.log".
Proof.
  split; [exact goOpen_lastOpened|].
  split; [intros config local now; unfold epochPath; cbn [code Local]; reflexivity|].
  split; [intros config local now; unfold epochPath; cbn [code Local]; reflexivity|].
  split; [exact Pattern_format_2021|]. split; [exact Layout_format_2021|].
  split; [intros name offset; apply FixedZone_kept|].
  split; vm_compute; reflexivity.
Qed.

Lemma path_from_template_and_now_witness :
  lastOpened (events (goOpen samplePattern start sampleClock None (inl 3)))
  = Some (epochPath samplePattern (epochNow samplePattern sampleClock)).
Proof.
  apply (proj1 path_from_template_and_now samplePattern start sampleClock None (inl 3)).
  reflexivity.
Defined.

(** *** The wait *)

(** Every timer the goroutine sets, in either revision, is set to
    [tomorrow.Sub(now)] for the [now] it read last, the one whose path it
    opened. *)
Lemma timers_from_last_now P tr l1 d l2 :
  events (after P start tr) = (l1 ++ EvTimer d :: l2)%list ->
  exists now,
    lastNow l2 = Some now
    /\ lastOpened l2 = Some (epochPath P now)
    /\ d = waitFor now.
Proof.
  intros Hev.
  destruct (after_InvTimer P tr start (InvTimer_start P)) as [Ht _].
  rewrite Hev in Ht. exact (timersOk_split P l1 d l2 Ht).
Qed.

(** C9.  In Havana the clocks go from 00:00 to 01:00 on 2021-03-14, so
    that day has no midnight.  For a turn at 10:00 on 2021-03-13 (either
    revision) [tomorrow], that is [time.Date] for 00:00 on the 14th, is
    23:00 on the 13th: the wait is 13 hours and ends on [now]'s own
    calendar day, an hour before the next one begins.  The turn after it
    opens the path of the 13th again and sets a timer of zero, and a turn
    half an hour later a negative one.  The reading 00:00:00 of the 14th
    is not kept in Havana. *)
Theorem tomorrow_is_today_in_Havana :
  (Year (mkTime havanaClock Havana), Month (mkTime havanaClock Havana),
   Day (mkTime havanaClock Havana), Hour (mkTime havanaClock Havana)) = (2021, 3, 13, 10)
  /\ (Year (tomorrow (mkTime havanaClock Havana)),
      Month (tomorrow (mkTime havanaClock Havana)),
      Day (tomorrow (mkTime havanaClock Havana)),
      Hour (tomorrow (mkTime havanaClock Havana))) = (2021, 3, 13, 23)
  /\ epochNow havanaPattern havanaClock = mkTime havanaClock Havana
  /\ epochNow havanaLayout havanaClock = mkTime havanaClock Havana
  /\ waitFor (mkTime havanaClock Havana) = 13 * oneHour
  /\ date (mkTime (havanaClock + 14 * oneHour - 1) Havana) = date (mkTime havanaClock Havana)
  /\ (Month (mkTime (havanaClock + 14 * oneHour) Havana),
      Day (mkTime (havanaClock + 14 * oneHour) Havana),
      Hour (mkTime (havanaClock + 14 * oneHour) Havana)) = (3, 14, 1)
  /\ untilNextMidnight (mkTime havanaClock Havana) = 14 * oneHour
  /\ events (after havanaPattern start havanaRun)
     = [EvTimer 0;
        EvOpenFile "logs/2021/03/2021-03-13/log.log" 1089 384;
        EvMkdirAll "logs/2021/03/2021-03-13" 1472;
        EvNow (mkTime (havanaClock + 13 * oneHour) Havana);
        EvTimer (13 * oneHour);
        EvOpenFile "logs/2021/03/2021-03-13/log.log" 1089 384;
        EvMkdirAll "logs/2021/03/2021-03-13" 1472;
        EvNow (mkTime havanaClock Havana)]
  /\ epochPath havanaLayout (epochNow havanaLayout (havanaClock + 13 * oneHour))
     = epochPath havanaLayout (epochNow havanaLayout havanaClock)
  /\ waitFor (epochNow havanaLayout (havanaClock + 13 * oneHour)) = 0
  /\ waitFor (mkTime (havanaClock + 13 * oneHour + 1800 * 10 ^ 9) Havana) = - (1800 * 10 ^ 9)
  /\ ~ midnightKept (mkTime havanaClock Havana).
Proof.
  repeat (split; [vm_compute; reflexivity|]).
  intros H. vm_compute in H. discriminate H.
Qed.

(** Where midnight is there the wait reaches it, on a day of 25 hours
    too: at 00:30 on 2021-11-07 in Havana, before the clocks go back from
    01:00 to 00:00, [tomorrow] is 00:00 on the 8th, 24 hours and 30
    minutes away. *)
Example day_of_25_hours_in_Havana :
  midnightKept (mkTime (1636259400 * 10 ^ 9) Havana)
  /\ (Month (mkTime (1636259400 * 10 ^ 9) Havana), Day (mkTime (1636259400 * 10 ^ 9) Havana),
      Hour (mkTime (1636259400 * 10 ^ 9) Havana), Minute (mkTime (1636259400 * 10 ^ 9) Havana))
     = (11, 7, 0, 30)
  /\ (Month (tomorrow (mkTime (1636259400 * 10 ^ 9) Havana)),
      Day (tomorrow (mkTime (1636259400 * 10 ^ 9) Havana)),
      Hour (tomorrow (mkTime (1636259400 * 10 ^ 9) Havana))) = (11, 8, 0)
  /\ waitFor (mkTime (1636259400 * 10 ^ 9) Havana) = 24 * oneHour + 1800 * 10 ^ 9.
Proof. repeat split; vm_compute; reflexivity. Qed.

Example two_days_two_files :
  epochPath samplePattern (epochNow samplePattern sampleClock) = "logs/2021/03/2021-03-05/log.log"
  /\ epochPath samplePattern (epochNow samplePattern sampleClock') = "logs/2021/03/2021-03-06/log.log"
  /\ epochPath sampleLayout (epochNow sampleLayout sampleClock') = "logs/2021/03/2021-03-06/log.log".
Proof. vm_compute. repeat split. Qed.

(** * Further properties *)

(** ** The formatters *)

(** *** Fuel *)

Lemma stripPrefix_length p : forall s r,
  stripPrefix p s = Some r -> String.length s = (String.length p + String.length r)%nat.
Proof.
  induction p as [|a p IH]; intros s r H; cbn in *.
  - injection H as ->. reflexivity.
  - destruct s as [|b s]; [discriminate|]. destruct (Ascii.eqb a b); [|discriminate].
    cbn. rewrite (IH s r H). reflexivity.
Qed.

Lemma firstPrefix_shorter cands : forall s std r,
  Forall (fun c => fst c <> "") cands ->
  firstPrefix cands s = Some (std, r) -> (String.length r < String.length s)%nat.
Proof.
  induction cands as [|[p st] cands IH]; intros s std r Hne H; cbn in H; [discriminate|].
  inversion Hne as [|? ? Hp Hrest]; subst. cbn in Hp.
  destruct (stripPrefix p s) as [r'|] eqn:Hs.
  - injection H as _ <-. apply stripPrefix_length in Hs.
    destruct p; [congruence|]. cbn in Hs. lia.
  - eapply IH; eassumption.
Qed.

Lemma spanChar_length ch s : forall n r,
  spanChar ch s = (n, r) -> (String.length r <= String.length s)%nat.
Proof.
  induction s as [|c s IH]; intros n r H; cbn in H.
  - injection H as _ <-. reflexivity.
  - destruct (Ascii.eqb c ch).
    + destruct (spanChar ch s) as [n' r'] eqn:Hs. injection H as _ <-.
      specialize (IH _ _ eq_refl). cbn. lia.
    + injection H as _ <-. reflexivity.
Qed.

(** An element of a layout takes at least one byte. *)
Lemma stdChunkAt_shorter layout std suffix :
  stdChunkAt layout = Some (std, suffix) ->
  (String.length suffix < String.length layout)%nat.
Proof.
  unfold stdChunkAt. destruct layout as [|c rest]; [discriminate|].
  intros H.
  repeat match type of H with
         | (if Ascii.eqb c ?x then _ else _) = _ => destruct (Ascii.eqb c x)
         | (if (Ascii.eqb c ?x || Ascii.eqb c ?y)%bool then _ else _) = _ =>
             destruct (Ascii.eqb c x || Ascii.eqb c y)%bool
         end;
    try discriminate;
    try (eapply firstPrefix_shorter; [|exact H];
         repeat constructor; cbn; discriminate);
    try (strip_cases stripPrefix_length H; try discriminate; injection H as _ <-; cbn in *; lia).
  destruct rest as [|ch rest']; [discriminate|].
  destruct (Ascii.eqb ch "0" || Ascii.eqb ch "9")%bool; [|discriminate].
  destruct (spanChar ch (String ch rest')) as [n after] eqn:Hs.
  apply spanChar_length in Hs.
  destruct after as [|d after']; cbn in H.
  - destruct (Ascii.eqb ch "9"); injection H as _ <-; cbn in *; lia.
  - destruct (isDigit d); [discriminate|].
    destruct (Ascii.eqb ch "9"); injection H as _ <-; cbn in *; lia.
Qed.

(** [String.length layout] turns are enough for [formatLoop]. *)
Lemma formatLoop_fuel abs nsec name offset n : forall layout,
  (String.length layout <= n)%nat ->
  formatLoop n abs nsec name offset layout
  = formatLoop (String.length layout) abs nsec name offset layout.
Proof.
  induction n as [n IH] using lt_wf_ind. intros layout Hn.
  destruct layout as [|c rest]; [destruct n; reflexivity|].
  destruct n as [|n]; [cbn in Hn; lia|].
  cbn [formatLoop String.length].
  destruct (stdChunkAt (String c rest)) as [[std suffix]|] eqn:Hc.
  - apply stdChunkAt_shorter in Hc. cbn in Hc, Hn.
    rewrite (IH n ltac:(lia) suffix ltac:(lia)).
    rewrite (IH (String.length rest) ltac:(lia) suffix ltac:(lia)). reflexivity.
  - cbn in Hn. rewrite (IH n ltac:(lia) rest ltac:(lia)). reflexivity.
Qed.

(** ** More on the path formatters *)

Lemma append_assoc (a b c : string) : (a ++ b) ++ c = a ++ (b ++ c).
Proof. induction a as [|x a IH]; [reflexivity|]. cbn. rewrite IH. reflexivity. Qed.

Lemma length_append (a b : string) :
  String.length (a ++ b) = (String.length a + String.length b)%nat.
Proof. induction a as [|x a IH]; [reflexivity|]. cbn. rewrite IH. reflexivity. Qed.

Lemma occurs_append c a b : occurs c (a ++ b) = occurs c a || occurs c b.
Proof.
  induction a as [|x a IH]; [reflexivity|]. cbn. rewrite IH. apply orb_assoc.
Qed.

Lemma greedyClose_none s : occurs "}" s = false -> GoRegexp.greedyClose s = None.
Proof.
  induction s as [|c s IH]; intros H; [reflexivity|]. cbn in *.
  apply orb_false_elim in H as [Hc Hs]. rewrite (IH Hs), Hc.
  match goal with |- context [if ?b then _ else _] => destruct b end; reflexivity.
Qed.

(** [.*}] runs to the last closing brace of the line. *)
Lemma greedyClose_last layout post :
  occurs GoRegexp.newline layout = false -> occurs "}" post = false ->
  GoRegexp.greedyClose (layout ++ String "}" post) = Some (layout, post).
Proof.
  intros Hl Hp. induction layout as [|c layout IH]; cbn in *.
  - rewrite (greedyClose_none post Hp). reflexivity.
  - apply orb_false_elim in Hl as [Hc Hl]. rewrite Hc, (IH Hl). reflexivity.
Qed.

Lemma greedyClose_length s : forall inner rest,
  GoRegexp.greedyClose s = Some (inner, rest) ->
  String.length s = (String.length inner + 1 + String.length rest)%nat.
Proof.
  induction s as [|c s IH]; intros inner rest H; cbn in H; [discriminate|].
  match type of H with context [if ?b then _ else _] => destruct b end; [discriminate|].
  destruct (GoRegexp.greedyClose s) as [[i r]|] eqn:Hs.
  - injection H as <- <-. cbn. rewrite (IH i r eq_refl). lia.
  - destruct (Ascii.eqb c "}"); [|discriminate]. injection H as <- <-. cbn. lia.
Qed.

Lemma matchHere_shorter s m rest :
  GoRegexp.matchHere s = Some (m, rest) -> (String.length rest < String.length s)%nat.
Proof.
  unfold GoRegexp.matchHere. destruct s as [|c t]; [discriminate|].
  destruct (Ascii.eqb c "{"); [|discriminate].
  destruct (GoRegexp.greedyClose t) as [[i r]|] eqn:Hg; [|discriminate].
  intros H. injection H as _ <-. apply greedyClose_length in Hg. cbn. lia.
Qed.

(** [String.length src] turns are enough for [replaceLoop]. *)
Lemma replaceLoop_fuel repl n : forall src,
  (String.length src <= n)%nat ->
  GoRegexp.replaceLoop n repl src = GoRegexp.replaceLoop (String.length src) repl src.
Proof.
  induction n as [n IH] using lt_wf_ind. intros src Hn.
  destruct src as [|c rest]; [destruct n; reflexivity|].
  destruct n as [|n]; [cbn in Hn; lia|].
  cbn [GoRegexp.replaceLoop String.length].
  destruct (GoRegexp.matchHere (String c rest)) as [[m after]|] eqn:Hm.
  - apply matchHere_shorter in Hm. cbn in Hm, Hn.
    rewrite (IH n ltac:(lia) after ltac:(lia)).
    rewrite (IH (String.length rest) ltac:(lia) after ltac:(lia)). reflexivity.
  - cbn in Hn. rewrite (IH n ltac:(lia) rest ltac:(lia)). reflexivity.
Qed.

Lemma matchHere_no_open s : occurs "{" s = false -> GoRegexp.matchHere s = None.
Proof.
  destruct s as [|c t]; [reflexivity|]. cbn. intros H.
  apply orb_false_elim in H as [-> _]. reflexivity.
Qed.

Lemma matchHere_no_close s : occurs "}" s = false -> GoRegexp.matchHere s = None.
Proof.
  destruct s as [|c t]; [reflexivity|]. cbn. intros H.
  apply orb_false_elim in H as [_ Ht]. rewrite (greedyClose_none t Ht).
  destruct (Ascii.eqb c "{"); reflexivity.
Qed.

Lemma replaceLoop_verbatim repl s :
  occurs "{" s = false \/ occurs "}" s = false ->
  GoRegexp.replaceLoop (String.length s) repl s = s.
Proof.
  induction s as [|c s IH]; intros H; [reflexivity|].
  cbn [GoRegexp.replaceLoop String.length].
  assert (Hm : GoRegexp.matchHere (String c s) = None)
    by (destruct H as [H|H]; [apply matchHere_no_open|apply matchHere_no_close]; exact H).
  rewrite Hm. f_equal. apply IH.
  cbn in H. destruct H as [H|H]; apply orb_false_elim in H as [_ H]; auto.
Qed.

Lemma replaceLoop_prefix repl pre : forall rest,
  occurs "{" pre = false ->
  GoRegexp.replaceLoop (String.length (pre ++ rest)) repl (pre ++ rest)
  = pre ++ GoRegexp.replaceLoop (String.length rest) repl rest.
Proof.
  induction pre as [|c pre IH]; intros rest H; [reflexivity|].
  cbn in H. apply orb_false_elim in H as [Hc Hp].
  cbn [append String.length GoRegexp.replaceLoop].
  assert (Hm : GoRegexp.matchHere (String c (pre ++ rest)) = None)
    by (cbn; rewrite Hc; reflexivity).
  rewrite Hm. f_equal. apply IH, Hp.
Qed.

(** What [pattern.ReplaceAllStringFunc] does on a line with braces: one
    match, from the first opening brace to the last closing one. *)
Lemma ReplaceAll_one_match repl pre layout post :
  occurs "{" pre = false -> occurs GoRegexp.newline layout = false ->
  occurs "}" post = false ->
  GoRegexp.ReplaceAllStringFunc (pre ++ String "{" (layout ++ String "}" post)) repl
  = pre ++ repl (String "{" (layout ++ "}")) ++ post.
Proof.
  intros Hpre Hl Hpost. unfold GoRegexp.ReplaceAllStringFunc.
  rewrite (replaceLoop_prefix repl pre _ Hpre). f_equal.
  cbn [String.length GoRegexp.replaceLoop].
  assert (Hm : GoRegexp.matchHere (String "{" (layout ++ String "}" post))
               = Some (String "{" (layout ++ "}"), post))
    by (cbn; rewrite (greedyClose_last layout post Hl Hpost); reflexivity).
  rewrite Hm. f_equal.
  rewrite replaceLoop_fuel by (rewrite length_append; cbn; lia).
  apply replaceLoop_verbatim. right. exact Hpost.
Qed.

Lemma substring_prefix a : forall b, substring 0 (String.length a) (a ++ b) = a.
Proof.
  induction a as [|c a IH]; intros b; cbn.
  - destruct b; reflexivity.
  - rewrite IH. reflexivity.
Qed.

Lemma inner_braces layout : Pattern.inner (String "{" (layout ++ "}")) = layout.
Proof.
  unfold Pattern.inner. cbn [String.length]. rewrite length_append. cbn [String.length].
  replace (S (String.length layout + 1) - 1 - 1)%nat with (String.length layout) by lia.
  cbn [substring]. apply substring_prefix.
Qed.

(** X1.  A template in which no opening brace, or no closing brace,
    occurs is the path as it stands, at every time: the file never
    rolls. *)
Theorem formatPath_verbatim template now :
  occurs "{" template = false \/ occurs "}" template = false ->
  Pattern.formatPath template now = template.
Proof.
  intros H. unfold Pattern.formatPath, GoRegexp.ReplaceAllStringFunc.
  apply replaceLoop_verbatim, H.
Qed.

Lemma formatPath_verbatim_witness :
  Pattern.formatPath "logs/server.log" (mkTime sampleClock UTC) = "logs/server.log".
Proof.
  apply (formatPath_verbatim "logs/server.log" (mkTime sampleClock UTC)).
  left. reflexivity.
Defined.

(** The first revision's formatter on a template with braces. *)
Lemma formatPath_braces pre layout post now :
  occurs "{" pre = false -> occurs GoRegexp.newline layout = false ->
  occurs "}" post = false ->
  Pattern.formatPath (pre ++ String "{" (layout ++ String "}" post)) now
  = pre ++ Format now layout ++ post.
Proof.
  intros Hpre Hl Hpost. unfold Pattern.formatPath.
  rewrite (ReplaceAll_one_match _ pre layout post Hpre Hl Hpost).
  rewrite inner_braces. reflexivity.
Qed.

(** X2.  On a one-line template the text from the first opening brace to
    the last closing brace is one layout: what stands before and after it
    is kept, and the text between, braces of its own included, is
    rendered by [Format]. *)
Theorem formatPath_one_match pre layout post now :
  occurs "{" pre = false -> occurs GoRegexp.newline layout = false ->
  occurs "}" post = false ->
  Pattern.formatPath (pre ++ String "{" (layout ++ String "}" post)) now
  = pre ++ Format now layout ++ post.
Proof. exact (formatPath_braces pre layout post now). Qed.

Lemma formatPath_one_match_witness :
  Pattern.formatPath ("data/" ++ String "{" ("2006-01-02" ++ String "}" "/server.log"))
    (mkTime sampleClock UTC)
  = "data/" ++ Format (mkTime sampleClock UTC) "2006-01-02" ++ "/server.log".
Proof.
  apply (formatPath_one_match "data/" "2006-01-02" "/server.log" (mkTime sampleClock UTC));
    reflexivity.
Defined.

Lemma formatLoop_dated abs nsec name offset :
  formatLoop (String.length "2006/01/2006-01-02") abs nsec name offset "2006/01/2006-01-02"
  = datedSegment (cYear (absDate abs)) (cMonth (absDate abs)) (cDay (absDate abs)) ++ ""
  /\ formatLoop (String.length "/2006/01/2006-01-02/") abs nsec name offset
       "/2006/01/2006-01-02/"
     = "/" ++ datedSegment (cYear (absDate abs)) (cMonth (absDate abs)) (cDay (absDate abs))
       ++ "/".
Proof.
  unfold datedSegment.
  generalize (eq_refl (appendStd abs nsec name offset stdLongYear)).
  generalize (eq_refl (appendStd abs nsec name offset stdZeroMonth)).
  generalize (eq_refl (appendStd abs nsec name offset stdZeroDay)).
  generalize (appendStd abs nsec name offset stdZeroDay) at 2 as D0.
  generalize (appendStd abs nsec name offset stdZeroMonth) at 2 as M.
  generalize (appendStd abs nsec name offset stdLongYear) at 2 as Y.
  intros Y M D0 HD HM HY.
  change (appendInt (cYear (absDate abs)) 4)
    with (appendStd abs nsec name offset stdLongYear).
  change (appendInt (cMonth (absDate abs)) 2)
    with (appendStd abs nsec name offset stdZeroMonth).
  change (appendInt (cDay (absDate abs)) 2)
    with (appendStd abs nsec name offset stdZeroDay).
  split.
  - change (formatLoop (String.length "2006/01/2006-01-02") abs nsec name offset
              "2006/01/2006-01-02")
      with (appendStd abs nsec name offset stdLongYear ++ String "/"
             (appendStd abs nsec name offset stdZeroMonth ++ String "/"
               (appendStd abs nsec name offset stdLongYear ++ String "-"
                 (appendStd abs nsec name offset stdZeroMonth ++ String "-"
                   (appendStd abs nsec name offset stdZeroDay ++ ""))))).
    rewrite HY, HM, HD. rewrite !append_assoc. reflexivity.
  - change (formatLoop (String.length "/2006/01/2006-01-02/") abs nsec name offset
              "/2006/01/2006-01-02/")
      with (String "/" (appendStd abs nsec name offset stdLongYear ++ String "/"
             (appendStd abs nsec name offset stdZeroMonth ++ String "/"
               (appendStd abs nsec name offset stdLongYear ++ String "-"
                 (appendStd abs nsec name offset stdZeroMonth ++ String "-"
                   (appendStd abs nsec name offset stdZeroDay ++ "/")))))).
    rewrite HY, HM, HD. rewrite !append_assoc. reflexivity.
Qed.

(** The layout of the default paths prints year, month and day, each
    padded with zeros. *)
Lemma Format_dated now :
  Format now "2006/01/2006-01-02" = datedSegment (Year now) (Month now) (Day now)
  /\ Format now "/2006/01/2006-01-02/"
     = "/" ++ datedSegment (Year now) (Month now) (Day now) ++ "/".
Proof.
  unfold Format, Year, Month, Day, date.
  destruct (formatLoop_dated (absSec now) (Nanosecond now)
              (zoneName (zoneAt (loc now) (unixSec now)))
              (offsetAt (loc now) (unixSec now))) as [H1 H2].
  rewrite H1, H2, append_empty_r. split; reflexivity.
Qed.

(** X3.  The two revisions format the same path: the second revision on
    [Filepath] and the first on the template that puts
    [/{2006/01/2006-01-02}/] between the directory and the base name of
    [Filepath], as long as the directory holds no opening brace and the
    base name no closing one. *)
Theorem formatters_agree filepath now :
  occurs "{" (GoPath.Dir filepath) = false ->
  occurs "}" (GoPath.Base filepath) = false ->
  Pattern.formatPath
    (GoPath.Dir filepath ++ "/{2006/01/2006-01-02}/" ++ GoPath.Base filepath) now
  = Layout.formatPath filepath now.
Proof.
  intros Hd Hb. unfold Layout.formatPath.
  destruct (Format_dated now) as [H1 H2]. rewrite H2.
  change (GoPath.Dir filepath ++ "/{2006/01/2006-01-02}/" ++ GoPath.Base filepath)
    with (GoPath.Dir filepath
          ++ "/" ++ String "{" ("2006/01/2006-01-02" ++ String "}" ("/" ++ GoPath.Base filepath))).
  rewrite <- (append_assoc (GoPath.Dir filepath) "/").
  rewrite formatPath_braces.
  - rewrite H1, !append_assoc. reflexivity.
  - rewrite occurs_append, Hd. reflexivity.
  - reflexivity.
  - cbn. exact Hb.
Qed.

Lemma formatters_agree_witness :
  Pattern.formatPath
    (GoPath.Dir "logs/log.log" ++ "/{2006/01/2006-01-02}/" ++ GoPath.Base "logs/log.log")
    (mkTime sampleClock UTC)
  = Layout.formatPath "logs/log.log" (mkTime sampleClock UTC).
Proof.
  apply (formatters_agree "logs/log.log" (mkTime sampleClock UTC)); vm_compute; reflexivity.
Defined.

(** *** The path tells the date *)

Lemma padded4 y : 0 <= y <= 9999 -> paddedCheck 4 y = true.
Proof.
  intros H. apply (allFrom_spec (Z.to_nat 10000) (paddedCheck 4) 0);
    [vm_compute; reflexivity|rewrite Z2Nat.id by lia; lia].
Qed.

Lemma padded2 x : 0 <= x <= 99 -> paddedCheck 2 x = true.
Proof.
  intros H. apply (allFrom_spec (Z.to_nat 100) (paddedCheck 2) 0);
    [vm_compute; reflexivity|rewrite Z2Nat.id by lia; lia].
Qed.

Lemma digits4 y : 0 <= y <= 9999 -> allDigits (appendInt y 4) = true.
Proof.
  intros H. apply (allFrom_spec (Z.to_nat 10000) (digitsCheck 4) 0);
    [vm_compute; reflexivity|rewrite Z2Nat.id by lia; lia].
Qed.

Lemma digits2 x : 0 <= x <= 99 -> allDigits (appendInt x 2) = true.
Proof.
  intros H. apply (allFrom_spec (Z.to_nat 100) (digitsCheck 2) 0);
    [vm_compute; reflexivity|rewrite Z2Nat.id by lia; lia].
Qed.

Lemma paddedCheck_spec width x :
  paddedCheck width x = true ->
  String.length (appendInt x width) = width /\ digitsValue 0 (appendInt x width) = x.
Proof.
  unfold paddedCheck. intros H. apply andb_prop in H as [H1 H2].
  apply Nat.eqb_eq in H1. apply Z.eqb_eq in H2. auto.
Qed.

Lemma append_inj_length a : forall a' b b',
  String.length a = String.length a' -> a ++ b = a' ++ b' -> a = a' /\ b = b'.
Proof.
  induction a as [|c a IH]; intros [|c' a'] b b' Hl H; cbn in *; try discriminate.
  - auto.
  - injection H as -> H. destruct (IH a' b b' ltac:(lia) H) as [-> ->]. auto.
Qed.

Lemma append_cancel_l a : forall b b', a ++ b = a ++ b' -> b = b'.
Proof.
  induction a as [|c a IH]; intros b b' H; cbn in H; [exact H|].
  injection H as H. apply IH, H.
Qed.

Lemma datedSegment_length year month day :
  0 <= year <= 9999 -> 0 <= month <= 99 -> 0 <= day <= 99 ->
  String.length (datedSegment year month day) = 18%nat.
Proof.
  intros Hy Hm Hd. unfold datedSegment.
  destruct (paddedCheck_spec 4 year (padded4 year Hy)) as [Ly _].
  destruct (paddedCheck_spec 2 month (padded2 month Hm)) as [Lm _].
  destruct (paddedCheck_spec 2 day (padded2 day Hd)) as [Ld _].
  generalize dependent (appendInt year 4). generalize dependent (appendInt month 2).
  generalize dependent (appendInt day 2). intros D0 Ld M Lm Y Ly.
  rewrite !length_append. cbn [String.length]. lia.
Qed.

(** The dated segment of a path is that of one date only. *)
Lemma datedSegment_inj y m d y' m' d' :
  0 <= y <= 9999 -> 0 <= m <= 99 -> 0 <= d <= 99 ->
  0 <= y' <= 9999 -> 0 <= m' <= 99 -> 0 <= d' <= 99 ->
  datedSegment y m d = datedSegment y' m' d' -> y = y' /\ m = m' /\ d = d'.
Proof.
  intros Hy Hm Hd Hy' Hm' Hd' H. unfold datedSegment in H.
  destruct (paddedCheck_spec 4 y (padded4 y Hy)) as [Ly Vy].
  destruct (paddedCheck_spec 2 m (padded2 m Hm)) as [Lm Vm].
  destruct (paddedCheck_spec 2 d (padded2 d Hd)) as [Ld Vd].
  destruct (paddedCheck_spec 4 y' (padded4 y' Hy')) as [Ly' Vy'].
  destruct (paddedCheck_spec 2 m' (padded2 m' Hm')) as [Lm' Vm'].
  destruct (paddedCheck_spec 2 d' (padded2 d' Hd')) as [Ld' Vd'].
  generalize dependent (appendInt y 4). generalize dependent (appendInt m 2).
  generalize dependent (appendInt d 2). generalize dependent (appendInt y' 4).
  generalize dependent (appendInt m' 2). generalize dependent (appendInt d' 2).
  intros D' Ld' Vd' M' Lm' Vm' Y' Ly' Vy' D0 Ld Vd M Lm Vm Y H Ly Vy.
  apply append_inj_length in H as [HY H]; [|congruence].
  cbn in H. injection H as H.
  apply append_inj_length in H as [HM H]; [|congruence].
  cbn in H. injection H as H.
  apply append_inj_length in H as [_ H]; [|congruence].
  cbn in H. injection H as H.
  apply append_inj_length in H as [_ H]; [|congruence].
  cbn in H. injection H as H.
  subst. auto.
Qed.

Lemma date_ranges now :
  1 <= Month now <= 12 /\ 1 <= Day now <= 31.
Proof.
  unfold Month, Day, date, absDate.
  destruct (dayDate_valid (absSec now / secondsPerDay)) as [Hm Hd].
  split; [exact Hm|].
  generalize dependent (dayDate (absSec now / secondsPerDay)). intros c Hm Hd.
  unfold daysIn, monthLen in Hd.
  destruct (cMonth c =? 2); [destruct (isLeap (cYear c)); lia|].
  destruct ((cMonth c =? 4) || (cMonth c =? 6) || (cMonth c =? 9) || (cMonth c =? 11)); lia.
Qed.

Lemma datedSegment_same_date t1 t2 :
  0 <= Year t1 <= 9999 -> 0 <= Year t2 <= 9999 ->
  (datedSegment (Year t1) (Month t1) (Day t1) = datedSegment (Year t2) (Month t2) (Day t2)
   <-> Year t1 = Year t2 /\ Month t1 = Month t2 /\ Day t1 = Day t2).
Proof.
  intros H1 H2. destruct (date_ranges t1) as [Hm1 Hd1]. destruct (date_ranges t2) as [Hm2 Hd2].
  split.
  - apply datedSegment_inj; lia.
  - intros (-> & -> & ->). reflexivity.
Qed.

(** First revision, template [pre{2006/01/2006-01-02}post]. *)
Lemma Pattern_path_tells_date pre post t1 t2 :
  occurs "{" pre = false -> occurs "}" post = false ->
  0 <= Year t1 <= 9999 -> 0 <= Year t2 <= 9999 ->
  (Pattern.formatPath (pre ++ String "{" ("2006/01/2006-01-02" ++ String "}" post)) t1
   = Pattern.formatPath (pre ++ String "{" ("2006/01/2006-01-02" ++ String "}" post)) t2
   <-> Year t1 = Year t2 /\ Month t1 = Month t2 /\ Day t1 = Day t2).
Proof.
  intros Hpre Hpost H1 H2.
  rewrite !formatPath_braces by (assumption || reflexivity).
  destruct (Format_dated t1) as [-> _]. destruct (Format_dated t2) as [-> _].
  rewrite <- (datedSegment_same_date t1 t2 H1 H2).
  destruct (date_ranges t1) as [Hm1 Hd1]. destruct (date_ranges t2) as [Hm2 Hd2].
  split.
  - intros H. apply append_cancel_l in H.
    apply append_inj_length in H as [H _]; [exact H|].
    rewrite !datedSegment_length by lia. reflexivity.
  - intros ->. reflexivity.
Qed.


(** Second revision, any [Filepath]. *)
Lemma Layout_path_tells_date filepath t1 t2 :
  0 <= Year t1 <= 9999 -> 0 <= Year t2 <= 9999 ->
  (Layout.formatPath filepath t1 = Layout.formatPath filepath t2
   <-> Year t1 = Year t2 /\ Month t1 = Month t2 /\ Day t1 = Day t2).
Proof.
  intros H1 H2. unfold Layout.formatPath.
  destruct (Format_dated t1) as [_ ->]. destruct (Format_dated t2) as [_ ->].
  rewrite <- (datedSegment_same_date t1 t2 H1 H2).
  destruct (date_ranges t1) as [Hm1 Hd1]. destruct (date_ranges t2) as [Hm2 Hd2].
  split.
  - intros H. apply append_cancel_l in H. cbn in H. injection H as H.
    rewrite !append_assoc in H.
    apply append_inj_length in H as [H _]; [exact H|].
    rewrite !datedSegment_length by lia. reflexivity.
  - intros ->. reflexivity.
Qed.


(** X4.  The shape of the dated path (years 0 to 9999).  The second
    revision's path is the directory of [Filepath], then
    [/YYYY/MM/YYYY-MM-DD/], then the base name of [Filepath]; the first
    revision's default template gives [logs/YYYY/MM/YYYY-MM-DD/log.log].
    [YYYY], [MM] and [DD] are strings of four, two and two decimal
    digits whose values are the year, the month and the day of [now]:
    the three numbers in decimal, padded with zeros. *)
Theorem dated_path_shape filepath now :
  0 <= Year now <= 9999 ->
  exists y m d,
    (String.length y = 4 /\ String.length m = 2 /\ String.length d = 2)%nat
    /\ allDigits y = true /\ allDigits m = true /\ allDigits d = true
    /\ digitsValue 0 y = Year now /\ digitsValue 0 m = Month now
    /\ digitsValue 0 d = Day now
    /\ Layout.formatPath filepath now
       = GoPath.Dir filepath ++ "/" ++ y ++ "/" ++ m ++ "/" ++ y ++ "-" ++ m ++ "-" ++ d
         ++ "/" ++ GoPath.Base filepath
    /\ Pattern.formatPath "logs/{2006/01/2006-01-02}/log.log" now
       = "logs/" ++ y ++ "/" ++ m ++ "/" ++ y ++ "-" ++ m ++ "-" ++ d ++ "/log.log".
Proof.
  intros Hy. destruct (date_ranges now) as [Hm Hd].
  destruct (paddedCheck_spec 4 (Year now) (padded4 (Year now) Hy)) as [Ly Vy].
  destruct (paddedCheck_spec 2 (Month now) (padded2 (Month now) ltac:(lia))) as [Lm Vm].
  destruct (paddedCheck_spec 2 (Day now) (padded2 (Day now) ltac:(lia))) as [Ld Vd].
  exists (appendInt (Year now) 4), (appendInt (Month now) 2), (appendInt (Day now) 2).
  split; [auto|].
  split; [exact (digits4 (Year now) Hy)|].
  split; [apply digits2; lia|]. split; [apply digits2; lia|].
  split; [exact Vy|]. split; [exact Vm|]. split; [exact Vd|].
  split.
  - unfold Layout.formatPath. rewrite (proj2 (Format_dated now)). unfold datedSegment.
    generalize (appendInt (Year now) 4), (appendInt (Month now) 2), (appendInt (Day now) 2),
      (GoPath.Dir filepath), (GoPath.Base filepath).
    intros y m d dir base.
    repeat first [rewrite append_assoc | progress cbn [append]]. reflexivity.
  - change "logs/{2006/01/2006-01-02}/log.log"
      with ("logs/" ++ String "{" ("2006/01/2006-01-02" ++ String "}" "/log.log")).
    rewrite (formatPath_braces "logs/" "2006/01/2006-01-02" "/log.log" now
               eq_refl eq_refl eq_refl).
    rewrite (proj1 (Format_dated now)). unfold datedSegment.
    generalize (appendInt (Year now) 4), (appendInt (Month now) 2), (appendInt (Day now) 2).
    intros y m d.
    repeat first [rewrite append_assoc | progress cbn [append]]. reflexivity.
Qed.

Lemma dated_path_shape_witness :
  exists y m d,
    (String.length y = 4 /\ String.length m = 2 /\ String.length d = 2)%nat
    /\ allDigits y = true /\ allDigits m = true /\ allDigits d = true
    /\ digitsValue 0 y = 2021 /\ digitsValue 0 m = 3 /\ digitsValue 0 d = 5
    /\ Layout.formatPath "/var/log/app.log" (mkTime sampleClock UTC)
       = "/var/log" ++ "/" ++ y ++ "/" ++ m ++ "/" ++ y ++ "-" ++ m ++ "-" ++ d
         ++ "/" ++ "app.log"
    /\ Pattern.formatPath "logs/{2006/01/2006-01-02}/log.log" (mkTime sampleClock UTC)
       = "logs/" ++ y ++ "/" ++ m ++ "/" ++ y ++ "-" ++ m ++ "-" ++ d ++ "/log.log".
Proof.
  apply (dated_path_shape "/var/log/app.log" (mkTime sampleClock UTC)).
  vm_compute. split; discriminate.
Defined.

(** ** The roll *)

(** The day count of a time, from its wall clock. *)
Lemma dayOf_localNano t :
  absSec t / secondsPerDay = localNano t / nanosPerDay + unixToAbsoluteDays.
Proof.
  unfold absSec, localNano, nanosPerDay.
  generalize (offsetAt (loc t) (unixSec t)). intros o. unfold unixSec.
  change unixToAbsolute with (unixToAbsoluteDays * secondsPerDay).
  rewrite Z.div_add by (unfold secondsPerDay; lia).
  rewrite (Z.mul_comm secondsPerDay nanosPerSecond).
  rewrite <- Z.div_div by (unfold nanosPerSecond, secondsPerDay; lia).
  rewrite Z.div_add by (unfold nanosPerSecond; lia). reflexivity.
Qed.

Lemma dayDate_inj a b : dayDate a = dayDate b -> a = b.
Proof.
  intros H. rewrite <- (dayCount_dayDate a), <- (dayCount_dayDate b), H. reflexivity.
Qed.

Lemma date_localNano now :
  date now = dayDate (localNano now / nanosPerDay + unixToAbsoluteDays).
Proof. unfold date, absDate. rewrite dayOf_localNano. reflexivity. Qed.

Lemma dayDate_inj_from a b :
  dayDate (a + unixToAbsoluteDays) = dayDate (b + unixToAbsoluteDays) -> a = b.
Proof. intros H. apply dayDate_inj in H. apply (Z.add_cancel_r a b unixToAbsoluteDays), H. Qed.

(** Away from a change of offset, the wall clock at [tomorrow] stands at
    a midnight, the first after [now]. *)
Lemma localNano_expiry now :
  steady now ->
  localNano now + waitFor now = (localNano now / nanosPerDay + 1) * nanosPerDay.
Proof.
  intros Hs. destruct (waitFor_eq now Hs) as [-> _]. unfold untilNextMidnight.
  assert (Hpos : 0 < nanosPerDay) by reflexivity.
  generalize dependent nanosPerDay. intros npd Hpos.
  generalize (localNano now). intros x.
  pose proof (Z.div_mod x npd ltac:(lia)). lia.
Qed.

Lemma same_day_arith x w npd m :
  0 < npd -> x + w = (x / npd + 1) * npd ->
  (x <= m < x + w -> m / npd = x / npd)
  /\ (x + w <= m -> m / npd <> x / npd).
Proof.
  intros Hpos He. pose proof (Z.mul_div_le x npd Hpos) as Hq.
  generalize dependent (x / npd). intros q He Hq. split.
  - intros Hm. symmetry. apply (Z.div_unique m npd q (m - npd * q)); [left; lia|ring].
  - intros Hm. assert (q + 1 <= m / npd) by (apply Z.div_le_lower_bound; lia). lia.
Qed.

(** The wall clock of a later reading that finds the same offset. *)
Lemma localNano_later n now :
  offsetAt (loc now) (unixSec (mkTime n (loc now))) = offsetAt (loc now) (unixSec now) ->
  localNano (mkTime n (loc now)) = n - unixNano now + localNano now.
Proof. unfold localNano. cbn [unixNano loc]. intros ->. ring. Qed.

Lemma shift_le (u w x n : Z) : u + w <= n -> x + w <= n - u + x.
Proof. lia. Qed.

(** A reading at [tomorrow] or later that finds the same offset falls on
    another calendar day. *)
Lemma later_reading_other_day now n :
  steady now ->
  offsetAt (loc now) (unixSec (mkTime n (loc now))) = offsetAt (loc now) (unixSec now) ->
  unixNano now + waitFor now <= n ->
  date (mkTime n (loc now)) <> date now.
Proof.
  intros Hs Ho Hn Heq.
  rewrite (date_localNano (mkTime n (loc now))), (date_localNano now) in Heq.
  apply dayDate_inj_from in Heq.
  rewrite (localNano_later n now Ho) in Heq.
  destruct (same_day_arith (localNano now) (waitFor now) nanosPerDay
              (n - unixNano now + localNano now) eq_refl (localNano_expiry now Hs))
    as [_ Hout].
  exact (Hout (shift_le _ _ _ _ Hn) Heq).
Qed.

Lemma sampleClock_steady : steady (mkTime sampleClock UTC).
Proof. split; [vm_compute; split; discriminate|]. intros sec _. reflexivity. Qed.



Lemma same_ymd_same_date t1 t2 :
  Year t1 = Year t2 -> Month t1 = Month t2 -> Day t1 = Day t2 -> date t1 = date t2.
Proof.
  unfold Year, Month, Day, date, absDate. intros Hy Hm Hd.
  f_equal. rewrite <- (dayCount_dayDate (absSec t1 / secondsPerDay)).
  rewrite <- (dayCount_dayDate (absSec t2 / secondsPerDay)).
  unfold dayCount. rewrite Hy, Hm, Hd. reflexivity.
Qed.

Lemma same_date_iff t1 t2 :
  Year t1 = Year t2 /\ Month t1 = Month t2 /\ Day t1 = Day t2 <-> date t1 = date t2.
Proof.
  split.
  - intros (Hy & Hm & Hd). apply same_ymd_same_date; assumption.
  - unfold Year, Month, Day. intros ->. auto.
Qed.

Lemma dated_path_ymd P t1 t2 :
  datedTemplate P -> 0 <= Year t1 <= 9999 -> 0 <= Year t2 <= 9999 ->
  (epochPath P t1 = epochPath P t2
   <-> Year t1 = Year t2 /\ Month t1 = Month t2 /\ Day t1 = Day t2).
Proof.
  intros HP H1 H2. unfold epochPath, datedTemplate in *.
  destruct (code P) as [c|c].
  - destruct HP as (pre & post & Hpre & Hpost & ->).
    apply Pattern_path_tells_date; assumption.
  - apply Layout_path_tells_date; assumption.
Qed.

Lemma dated_path_tells_date P t1 t2 :
  datedTemplate P -> 0 <= Year t1 <= 9999 -> 0 <= Year t2 <= 9999 ->
  (epochPath P t1 = epochPath P t2 <-> date t1 = date t2).
Proof.
  intros HP H1 H2. rewrite <- same_date_iff. apply dated_path_ymd; assumption.
Qed.

Lemma samplePattern_dated : datedTemplate samplePattern.
Proof. exists "logs/", "/log.log". repeat split; reflexivity. Qed.

(** X6.  With a dated template (every [Filepath] of the second revision;
    in the first a template [pre{2006/01/2006-01-02}post] with no opening
    brace in [pre] and no closing brace in [post], as the default one) two
    clock readings in the years 0 to 9999 get the same path exactly when
    they fall on the same calendar day. *)
Theorem same_path_same_day P t1 t2 :
  datedTemplate P -> 0 <= Year t1 <= 9999 -> 0 <= Year t2 <= 9999 ->
  (epochPath P t1 = epochPath P t2
   <-> Year t1 = Year t2 /\ Month t1 = Month t2 /\ Day t1 = Day t2).
Proof. exact (dated_path_ymd P t1 t2). Qed.

Lemma same_path_same_day_witness :
  (epochPath samplePattern (mkTime sampleClock UTC)
   = epochPath samplePattern (mkTime (sampleClock + 1) UTC)
   <-> Year (mkTime sampleClock UTC) = Year (mkTime (sampleClock + 1) UTC)
       /\ Month (mkTime sampleClock UTC) = Month (mkTime (sampleClock + 1) UTC)
       /\ Day (mkTime sampleClock UTC) = Day (mkTime (sampleClock + 1) UTC))
  /\ (epochPath sampleLayout (mkTime sampleClock UTC)
      = epochPath sampleLayout (mkTime sampleClock' UTC)
      <-> Year (mkTime sampleClock UTC) = Year (mkTime sampleClock' UTC)
          /\ Month (mkTime sampleClock UTC) = Month (mkTime sampleClock' UTC)
          /\ Day (mkTime sampleClock UTC) = Day (mkTime sampleClock' UTC)).
Proof.
  split.
  - apply (same_path_same_day samplePattern); [exact samplePattern_dated| |];
      vm_compute; split; discriminate.
  - apply (same_path_same_day sampleLayout); [exact I| |];
      vm_compute; split; discriminate.
Defined.

Lemma epochNow_zone P : exists l, forall clock, epochNow P clock = mkTime clock l.
Proof.
  unfold epochNow. destruct (code P) as [c|c].
  - exists (Local P). reflexivity.
  - destruct (Layout.Timezone (Layout.defaults (Local P) c)) as [tz|].
    + exists tz. reflexivity.
    + exists (Local P). reflexivity.
Qed.


(** ** The system *)

(** *** The moves, as a relation *)

Lemma goOpen_Trans P g cl c evs clock mkdir opened :
  g = Opening ->
  Trans P (mkSystem g cl c evs) Quiet (goOpen P (mkSystem g cl c evs) clock mkdir opened).
Proof.
  intros ->. unfold goOpen, goto, log. cbn [sched chClosed caller events].
  destruct (mkdirFailed mkdir) as [e|].
  - apply (T_mkdir_fails P clock e).
  - destruct opened as [fd|e].
    + pose proof (T_opened P clock fd cl c evs) as H.
      unfold armPattern in H. destruct (isPatternRev P); exact H.
    + apply (T_open_fails P clock e).
Qed.

Lemma goStep_Trans P s a s' : goStep P s a = Some s' -> Trans P s Quiet s'.
Proof.
  destruct s as [g cl c evs]. unfold goStep. cbn [sched chClosed].
  destruct a; try discriminate.
  - destruct g; try discriminate. intros [= <-]. apply T_check.
  - destruct g; try discriminate. intros [= <-]. apply goOpen_Trans. reflexivity.
  - destruct g; try discriminate. intros [= <-]. apply T_arm.
  - destruct g; try discriminate; destruct cl; try discriminate; intros [= <-].
    + apply T_closed_err.
    + apply T_closed_file.
  - destruct g; try discriminate.
    + destruct (isPatternRev P) eqn:HP; try discriminate. intros [= <-].
      apply T_timeout_file, HP.
    + intros [= <-]. apply T_timeout.
  - destruct g; try discriminate. intros [= <-]. apply T_return.
Qed.

Lemma poll_Polls P s rf : Polls P s rf (fst (poll P s rf)) (snd (poll P s rf)).
Proof.
  destruct s as [g cl c evs]. unfold poll, offer. cbn [sched chClosed].
  destruct g; try apply Polls_default; try (destruct cl; [apply Polls_default|]).
  - apply Polls_err.
  - apply Polls_file.
  - apply Polls_nil.
Qed.

(** Every move of [step] is a move of the relation. *)
Lemma step_Trans P s a : Trans P s (snd (step P s a)) (fst (step P s a)).
Proof.
  unfold step.
  destruct a;
    try (destruct (goStep P s _) eqn:Hg;
         [apply (goStep_Trans P s _ _ Hg)|apply T_blocked]).
  - (* NewReceive *)
    destruct s as [g cl c evs]. unfold newReceive, offer. cbn [sched chClosed caller].
    destruct c; try apply T_blocked.
    destruct g; try apply T_blocked; try (destruct cl; [apply T_blocked|]).
    + destruct (isPatternRev P) eqn:HP; [apply T_new_err, HP|apply T_blocked].
    + apply T_new_file.
    + apply T_new_nil.
  - (* CallWrite *)
    destruct (caller s) as [| |rf] eqn:Hc; try apply T_blocked.
    unfold Write. pose proof (poll_Polls P s rf) as Hp.
    destruct (poll P s rf) as [s1 rf1]. cbn [fst snd] in Hp.
    destruct (lastErr rf1) as [e|] eqn:He.
    + apply (T_write_refused P s rf s1 rf1 e Hc Hp He).
    + pose proof (T_write P s rf s1 rf1 p n err Hc Hp He) as H.
      destruct (fileWrite (f rf1) n err). exact H.
  - (* CallClose *)
    destruct (caller s) as [| |rf] eqn:Hc; try apply T_blocked.
    unfold Close.
    destruct (chClosed s) eqn:Hcl.
    + pose proof (T_close_again P s rf Hc Hcl) as H. unfold closeEvents in H.
      destruct (f rf); unfold hold, log; cbn; rewrite Hcl; exact H.
    + pose proof (T_close P s rf Hc Hcl) as H. unfold closeEvents in H.
      destruct (f rf); cbn; rewrite Hcl; exact H.
Qed.

(** What every move keeps, every run keeps. *)
Lemma Trans_after P (I : System -> Prop) :
  (forall s o s', I s -> Trans P s o s' -> I s') ->
  forall tr s, I s -> I (after P s tr).
Proof.
  intros Hstep tr. induction tr as [|a tr IH]; intros s H; [exact H|].
  rewrite after_cons. apply IH. exact (Hstep _ _ _ H (step_Trans P s a)).
Qed.

(** *** The turn after a timer *)

Lemma turn_readBy P clock file :
  Forall (readBy P) (mkdirEvents P (epochNow P clock))
  /\ Forall (readBy P) (openEvents P (epochNow P clock))
  /\ Forall (readBy P) (armPattern P (epochNow P clock) file)
  /\ Forall (readBy P) (captureLayout P file).
Proof.
  assert (Hn : readBy P (EvNow (epochNow P clock))) by (exists clock; reflexivity).
  unfold mkdirEvents, openEvents, armPattern, capturePattern, captureLayout.
  destruct (isPatternRev P), (hasFlag P FlagCaptureStderr), (hasFlag P FlagCaptureStdout);
    repeat split; repeat (apply Forall_cons; [first [exact I|exact Hn]|]); apply Forall_nil.
Qed.

Lemma closeEvents_readBy P rf : Forall (readBy P) (closeEvents rf).
Proof. unfold closeEvents. destruct (f rf); repeat constructor. Qed.

Lemma Polls_readBy P s rf s1 rf1 :
  Forall (readBy P) (events s) -> Polls P s rf s1 rf1 -> Forall (readBy P) (events s1).
Proof.
  intros Hev H. inversion H; subst; cbn [events] in *; auto;
    (constructor; [exact I|assumption]).
Qed.

Lemma Trans_readBy P s o s' :
  Forall (readBy P) (events s) -> Trans P s o s' -> Forall (readBy P) (events s').
Proof.
  intros Hev H. inversion H; subst; cbn [events] in *.
  - assumption.
  - assumption.
  - destruct (turn_readBy P clock (mkFile 0 "")) as (Hm & _).
    apply Forall_app. split; assumption.
  - destruct (turn_readBy P clock (mkFile 0 "")) as (_ & Hopen & _).
    apply Forall_app. split; assumption.
  - destruct (turn_readBy P clock (mkFile fd (epochPath P (epochNow P clock))))
      as (_ & Hopen & Harm & _).
    apply Forall_app. split; [exact Harm|]. apply Forall_app. split; assumption.
  - destruct (turn_readBy P 0 file) as (_ & _ & _ & Hcap).
    apply Forall_cons; [exact I|]. apply Forall_app. split; assumption.
  - assumption.
  - assumption.
  - apply Forall_cons; [exact I|assumption].
  - assumption.
  - apply Forall_cons; [exact I|assumption].
  - assumption.
  - assumption.
  - assumption.
  - unfold hold. cbn [events]. eapply Polls_readBy; eassumption.
  - unfold hold, log. cbn [events app]. apply Forall_cons; [exact I|].
    eapply Polls_readBy; eassumption.
  - apply Forall_cons; [exact I|]. apply Forall_app.
    split; [apply closeEvents_readBy|assumption].
  - apply Forall_app. split; [apply closeEvents_readBy|assumption].
Qed.

Lemma lastNow_In evs : forall now, lastNow evs = Some now -> List.In (EvNow now) evs.
Proof.
  induction evs as [|ev evs IH]; intros now H; [discriminate|].
  destruct ev; cbn in H; try (right; apply IH; exact H).
  injection H as ->. left. reflexivity.
Qed.

Lemma end_of_timer (u a w n : Z) : u <= a -> a + w <= n -> u + w <= n.
Proof. lia. Qed.

(** X7.  The turn after a timer opens another path.  Take a timer of a
    run, set for the reading [now], and any turn that reads the clock at
    [clock'].  Let the timer be armed at some instant [armed] not before
    [now] (the goroutine arms it after it has opened the file), and let
    the reading come at the end of the timer or later.  Then with a dated
    template, in the years 0 to 9999, with [now] away from a change of
    offset and the same offset found at the later reading, the path of
    the later turn is not the path of [now]. *)
Theorem next_turn_opens_next_day P tr l1 d l2 armed clock' :
  datedTemplate P ->
  events (after P start tr) = (l1 ++ EvTimer d :: l2)%list ->
  exists now,
    lastNow l2 = Some now
    /\ lastOpened l2 = Some (epochPath P now)
    /\ d = Sub (tomorrow now) now
    /\ loc (epochNow P clock') = loc now
    /\ (steady now ->
        offsetAt (loc now) (unixSec (epochNow P clock')) = offsetAt (loc now) (unixSec now) ->
        0 <= Year now <= 9999 -> 0 <= Year (epochNow P clock') <= 9999 ->
        unixNano now <= armed -> armed + d <= clock' ->
        epochPath P (epochNow P clock') <> epochPath P now).
Proof.
  intros HP Hev.
  destruct (timers_from_last_now P tr l1 d l2 Hev) as (now & Hn & Ho & Hd).
  exists now. split; [exact Hn|]. split; [exact Ho|].
  split; [rewrite Hd; unfold waitFor; reflexivity|].
  pose proof (Trans_after P (fun s => Forall (readBy P) (events s)) (Trans_readBy P)
                tr start (Forall_nil _)) as Hr.
  cbv beta in Hr. rewrite Hev in Hr.
  apply Forall_app in Hr as [_ Hr]. apply Forall_cons_iff in Hr as [_ Hr].
  rewrite Forall_forall in Hr. specialize (Hr _ (lastNow_In l2 now Hn)).
  destruct Hr as [clock ->]. destruct (epochNow_zone P) as [l Hl]. rewrite !Hl in *.
  cbn [loc unixNano] in *.
  split; [reflexivity|].
  intros Hs Hoff Hy Hy' Ha Hc Heq.
  apply (dated_path_tells_date P (mkTime clock' l) (mkTime clock l) HP Hy' Hy) in Heq.
  refine (later_reading_other_day (mkTime clock l) clock' Hs Hoff _ Heq).
  cbn [unixNano]. subst d. exact (end_of_timer _ _ _ _ Ha Hc).
Qed.

Lemma next_turn_opens_next_day_witness :
  exists now,
    lastNow [EvOpenFile "logs/2021/03/2021-03-05/log.log" 1089 384;
             EvMkdirAll "logs/2021/03/2021-03-05" 1472;
             EvNow (mkTime sampleClock UTC)] = Some now
    /\ steady now
    /\ unixNano now <= sampleClock + 1
    /\ sampleClock + 1 + 50400000000000 <= sampleClock'
    /\ epochPath samplePattern (epochNow samplePattern sampleClock')
       <> epochPath samplePattern now.
Proof.
  destruct (next_turn_opens_next_day samplePattern sampleNew [] 50400000000000
              [EvOpenFile "logs/2021/03/2021-03-05/log.log" 1089 384;
               EvMkdirAll "logs/2021/03/2021-03-05" 1472;
               EvNow (mkTime sampleClock UTC)] (sampleClock + 1) sampleClock'
              samplePattern_dated eq_refl)
    as (now & Hn & _ & _ & _ & H).
  exists now. split; [exact Hn|].
  injection Hn as <-.
  split; [exact sampleClock_steady|].
  split; [vm_compute; discriminate|]. split; [vm_compute; discriminate|].
  apply H.
  - exact sampleClock_steady.
  - reflexivity.
  - vm_compute. split; discriminate.
  - vm_compute. split; discriminate.
  - vm_compute. discriminate.
  - vm_compute. discriminate.
Defined.

(** *** After Close *)

Lemma Polls_closed P s rf s1 rf1 :
  chClosed s = true -> Polls P s rf s1 rf1 ->
  chClosed s1 = true /\ sched s1 = sched s.
Proof. intros Hcl H. inversion H; subst; cbn in *; auto; discriminate. Qed.

Lemma Trans_closed P s o s' :
  chClosed s = true -> Trans P s o s' ->
  chClosed s' = true
  /\ if isQuiet o
     then (S (shutdownRank (sched s')) <= shutdownRank (sched s))%nat
     else sched s' = sched s.
Proof.
  intros Hcl H. inversion H; subst; cbn in *; subst; try discriminate; auto;
    try (split; [reflexivity|cbn; lia]).
  - destruct (isPatternRev P); cbn; split; auto; lia.
  - eapply Polls_closed; eassumption.
  - eapply Polls_closed; eassumption.
Qed.

Lemma goMoves_cons P s a tr :
  goMoves (outputs P s (a :: tr))
  = ((if isQuiet (snd (step P s a)) then 1 else 0)
     + goMoves (outputs P (fst (step P s a)) tr))%nat.
Proof.
  rewrite outputs_cons. unfold goMoves. cbn [filter].
  destruct (isQuiet (snd (step P s a))); reflexivity.
Qed.

Lemma closed_rank P tr : forall s,
  chClosed s = true ->
  chClosed (after P s tr) = true
  /\ (goMoves (outputs P s tr) + shutdownRank (sched (after P s tr))
      <= shutdownRank (sched s))%nat.
Proof.
  induction tr as [|a tr IH]; intros s Hcl.
  - split; [exact Hcl|]. cbn. lia.
  - rewrite after_cons, goMoves_cons.
    destruct (Trans_closed P s _ _ Hcl (step_Trans P s a)) as [Hcl' Hr].
    destruct (IH _ Hcl') as [Hcl'' Hr'']. split; [exact Hcl''|].
    destruct (isQuiet (snd (step P s a))); [lia|]. rewrite Hr in Hr''. exact Hr''.
Qed.

Lemma shutdownRank_max g : (shutdownRank g <= 4)%nat.
Proof. destruct g; cbn; lia. Qed.

Lemma closed_enabled P s :
  chClosed s = true -> sched s <> Exited -> exists a, snd (step P s a) = Quiet.
Proof.
  intros Hcl Hs. destruct s as [g cl c evs]. cbn in *. subst cl.
  destruct g.
  - exists GoCheck. reflexivity.
  - exists (GoOpen 0 None (inl 0)). reflexivity.
  - exists GoClosed. reflexivity.
  - exists GoClosed. reflexivity.
  - exists GoArm. reflexivity.
  - exists GoTimeout. reflexivity.
  - exists GoReturn. reflexivity.
  - contradiction.
Qed.

(** X8.  Once [chClosed] is closed it stays closed, and the goroutine
    winds down: each of its moves brings it closer to its exit, it makes
    at most four more, and until it has closed [chFile] and exited its
    next move is there to be made (for a goroutine that waits for
    midnight, that move is the end of the wait). *)
Theorem goroutine_exits_after_Close P s tr :
  chClosed s = true ->
  chClosed (after P s tr) = true
  /\ (goMoves (outputs P s tr) + shutdownRank (sched (after P s tr))
      <= shutdownRank (sched s))%nat
  /\ (goMoves (outputs P s tr) <= 4)%nat
  /\ (sched (after P s tr) <> Exited -> exists a, snd (step P (after P s tr) a) = Quiet).
Proof.
  intros Hcl. destruct (closed_rank P tr s Hcl) as [Hcl' Hr].
  split; [exact Hcl'|]. split; [exact Hr|]. split.
  - pose proof (shutdownRank_max (sched s)). lia.
  - apply closed_enabled, Hcl'.
Qed.

Lemma goroutine_exits_after_Close_witness :
  chClosed sampleClosed = true
  /\ sched (after samplePattern sampleClosed [GoTimeout; GoCheck; GoReturn]) = Exited
  /\ (goMoves (outputs samplePattern sampleClosed [GoTimeout; GoCheck; GoReturn]) + 0 <= 3)%nat.
Proof.
  split; [reflexivity|]. split; [reflexivity|].
  exact (proj1 (proj2 (goroutine_exits_after_Close samplePattern sampleClosed
                         [GoTimeout; GoCheck; GoReturn] eq_refl))).
Defined.

(** *** Counting events *)

Lemma count_app p l1 l2 : count p (l1 ++ l2) = (count p l1 + count p l2)%nat.
Proof. unfold count. rewrite filter_app, length_app. reflexivity. Qed.

Lemma capturePattern_turn P file :
  forallb isTurnEvent (capturePattern P file) = true
  /\ forallb (fun ev => negb (isOpenFile ev)) (capturePattern P file) = true.
Proof.
  unfold capturePattern.
  destruct (hasFlag P FlagCaptureStderr), (hasFlag P FlagCaptureStdout); split; reflexivity.
Qed.

Lemma captureLayout_turn P file :
  forallb isTurnEvent (captureLayout P file) = true
  /\ forallb (fun ev => negb (isOpenFile ev)) (captureLayout P file) = true.
Proof.
  unfold captureLayout.
  destruct (hasFlag P FlagCaptureStderr), (hasFlag P FlagCaptureStdout); split; reflexivity.
Qed.

Lemma filter_none {A} (p : A -> bool) l :
  forallb (fun x => negb (p x)) l = true -> filter p l = [].
Proof.
  induction l as [|x l IH]; cbn; [reflexivity|].
  intros H. apply andb_prop in H as [Hx Hl]. apply negb_true_iff in Hx.
  rewrite Hx. apply IH, Hl.
Qed.

Lemma closeEvents_filter p rf :
  p (EvFileClose (f rf)) = false -> filter p (closeEvents rf) = [].
Proof.
  unfold closeEvents. destruct (f rf); cbn; [|reflexivity]. intros ->. reflexivity.
Qed.

(** *** No retry *)

Lemma Polls_halted P s rf s1 rf1 :
  halted (sched s) = true -> Polls P s rf s1 rf1 ->
  halted (sched s1) = true
  /\ (sched s1 = sched s \/ running (sched s1) = false)
  /\ filter isTurnEvent (events s1) = filter isTurnEvent (events s).
Proof. intros Hh H. inversion H; subst; cbn in *; auto; discriminate. Qed.

Lemma Trans_halted P s o s' :
  halted (sched s) = true -> Trans P s o s' ->
  halted (sched s') = true
  /\ (sched s' = sched s \/ running (sched s') = false)
  /\ filter isTurnEvent (events s') = filter isTurnEvent (events s).
Proof.
  intros Hh H. inversion H; subst; cbn in *; try discriminate; auto.
  - eapply Polls_halted; eassumption.
  - eapply Polls_halted; eassumption.
  - rewrite filter_app, closeEvents_filter by reflexivity. auto.
  - rewrite filter_app, closeEvents_filter by reflexivity. auto.
Qed.

(** X9.  The goroutine does not try again.  From the moment it has an
    error to send it only returns and exits, whoever takes the error or
    closes the writer: it reads no clock, makes no directory, opens no
    file, arms no timer and redirects no descriptor any more. *)
Theorem no_retry_after_failure P s e tr :
  sched s = SendErr e ->
  (sched (after P s tr) = SendErr e \/ running (sched (after P s tr)) = false)
  /\ filter isTurnEvent (events (after P s tr)) = filter isTurnEvent (events s).
Proof.
  intros Hs.
  apply (Trans_after P (fun s' =>
    (sched s' = SendErr e \/ running (sched s') = false)
    /\ filter isTurnEvent (events s') = filter isTurnEvent (events s))).
  - intros s1 o s2 [Hg Hev] Ht.
    assert (Hh : halted (sched s1) = true).
    { destruct Hg as [-> | Hr]; [reflexivity|]. destruct (sched s1); try discriminate; reflexivity. }
    destruct (Trans_halted P s1 o s2 Hh Ht) as (_ & Hg' & Hev').
    split; [|congruence].
    destruct Hg' as [-> | Hr]; [exact Hg|right; exact Hr].
  - auto.
Qed.

Lemma no_retry_after_failure_witness :
  sched (after samplePattern start sampleFailing) = SendErr sampleErr
  /\ filter isTurnEvent
       (events (after samplePattern (after samplePattern start sampleFailing)
                  [CallWrite [] 0 None; GoReturn; GoCheck; GoOpen sampleClock' None (inl 4)]))
     = filter isTurnEvent (events (after samplePattern start sampleFailing)).
Proof.
  split; [reflexivity|].
  exact (proj2 (no_retry_after_failure samplePattern (after samplePattern start sampleFailing)
                  sampleErr _ eq_refl)).
Defined.

(** *** One more file at most *)

Lemma count_turn P now :
  count isOpenFile (mkdirEvents P now) = 0%nat
  /\ count isOpenFile (openEvents P now) = 1%nat.
Proof. split; reflexivity. Qed.

Lemma count_armPattern P now file : count isOpenFile (armPattern P now file) = 0%nat.
Proof.
  unfold armPattern, count. destruct (isPatternRev P); [|reflexivity].
  cbn [filter isOpenFile]. rewrite filter_none by apply capturePattern_turn. reflexivity.
Qed.

Lemma count_captureLayout P file : count isOpenFile (captureLayout P file) = 0%nat.
Proof. unfold count. rewrite filter_none by apply captureLayout_turn. reflexivity. Qed.

Lemma count_closeEvents rf : count isOpenFile (closeEvents rf) = 0%nat.
Proof. unfold count. rewrite closeEvents_filter by reflexivity. reflexivity. Qed.

Lemma count_cons p ev evs :
  count p (ev :: evs) = ((if p ev then 1 else 0) + count p evs)%nat.
Proof. unfold count. cbn [filter]. destruct (p ev); reflexivity. Qed.

Lemma Polls_opens P s rf s1 rf1 :
  chClosed s = true -> Polls P s rf s1 rf1 ->
  count isOpenFile (events s1) = count isOpenFile (events s) /\ sched s1 = sched s.
Proof.
  intros Hcl H. inversion H; subst; cbn [events sched chClosed] in *;
    try discriminate; auto.
Qed.

Lemma Trans_opens P s o s' :
  chClosed s = true -> Trans P s o s' ->
  (count isOpenFile (events s') + pendingOpen (sched s')
   <= count isOpenFile (events s) + pendingOpen (sched s))%nat.
Proof.
  intros Hcl H. inversion H; subst; cbn [sched events chClosed pendingOpen] in *;
    subst; try discriminate; try lia.
  - cbn. lia.
  - rewrite count_app, (proj1 (count_turn P _)). lia.
  - rewrite count_app, (proj2 (count_turn P _)). lia.
  - rewrite !count_app, count_armPattern, (proj2 (count_turn P _)). lia.
  - rewrite count_cons, count_app, count_captureLayout. cbn. lia.
  - destruct (isPatternRev P); cbn; lia.
  - rewrite count_cons. cbn. lia.
  - rewrite count_cons. cbn. lia.
  - unfold hold. cbn [events sched].
    match goal with Hp : Polls _ _ _ _ _ |- _ =>
      destruct (Polls_opens P s rf s1 rf1 Hcl Hp) as [-> ->] end. lia.
  - unfold hold, log. cbn [events sched]. rewrite count_app.
    match goal with Hp : Polls _ _ _ _ _ |- _ =>
      destruct (Polls_opens P s rf s1 rf1 Hcl Hp) as [-> ->] end. cbn. lia.
  - rewrite count_cons, count_app, count_closeEvents. cbn. lia.
  - rewrite count_app, count_closeEvents. lia.
Qed.

(** X10.  After [Close] the goroutine opens at most one more file: the one
    of the turn it is in, if it is about to open it. *)
Theorem one_more_file_after_Close P s tr :
  chClosed s = true ->
  (count isOpenFile (events (after P s tr))
   <= count isOpenFile (events s) + pendingOpen (sched s))%nat.
Proof.
  intros Hcl.
  assert (H : chClosed (after P s tr) = true
              /\ (count isOpenFile (events (after P s tr)) + pendingOpen (sched (after P s tr))
                  <= count isOpenFile (events s) + pendingOpen (sched s))%nat).
  { apply (Trans_after P (fun s' =>
      chClosed s' = true
      /\ (count isOpenFile (events s') + pendingOpen (sched s')
          <= count isOpenFile (events s) + pendingOpen (sched s))%nat)).
    - intros s1 o s2 [Hc1 Hn] Ht. split.
      + apply (Trans_closed P s1 o s2 Hc1 Ht).
      + pose proof (Trans_opens P s1 o s2 Hc1 Ht). lia.
    - split; [exact Hcl|lia]. }
  lia.
Qed.

Lemma one_more_file_after_Close_witness :
  chClosed sampleClosed = true
  /\ (count isOpenFile
        (events (after samplePattern sampleClosed
                   [GoTimeout; GoCheck; GoOpen sampleClock' None (inl 4%Z)]))
      <= 1 + 0)%nat.
Proof.
  split; [reflexivity|].
  exact (one_more_file_after_Close samplePattern sampleClosed
           [GoTimeout; GoCheck; GoOpen sampleClock' None (inl 4%Z)] eq_refl).
Defined.

(** *** Where the held file comes from *)

Lemma openedBy_more P new evs file :
  openedBy P evs file -> openedBy P (new ++ evs) file.
Proof.
  intros (now & Hn & H1 & H2). exists now.
  repeat split; [exact Hn| |]; apply in_or_app; right; assumption.
Qed.

Lemma openedBy_cons P ev evs file :
  openedBy P evs file -> openedBy P (ev :: evs) file.
Proof. apply (openedBy_more P [ev]). Qed.

Lemma openedBy_turn P now fd pre evs :
  openedBy P (pre ++ openEvents P now ++ evs) (mkFile fd (epochPath P now)).
Proof.
  exists now. cbn [Name]. split; [reflexivity|].
  split; apply in_or_app; right; apply in_or_app; left; unfold openEvents, mkdirEvents.
  - right. right. left. reflexivity.
  - left. reflexivity.
Qed.

Lemma Provenance_start P : Provenance P start.
Proof. split; exact I. Qed.

Lemma Polls_Provenance P s rf s1 rf1 :
  Provenance P s -> caller s = Holding rf -> Polls P s rf s1 rf1 ->
  (exists new, events s1 = (new ++ events s)%list)
  /\ match sched s1 with
     | SendFile _ file | Sent _ file => openedBy P (events s1) file
     | _ => True
     end
  /\ match f rf1 with
     | Some file => openedBy P (events s1) file
     | None => True
     end.
Proof.
  intros [Hs Hc] Hrf H. rewrite Hrf in Hc.
  inversion H; subst; cbn [sched events caller f] in *.
  - split; [exists []; reflexivity|]. split; assumption.
  - split; [exists []; reflexivity|]. split; [exact I|assumption].
  - split; [exists [EvFileClose (f rf)]; reflexivity|]. split.
    + unfold afterSend. destruct (isPatternRev P); [exact I|].
      apply openedBy_cons, Hs.
    + apply openedBy_cons, Hs.
  - split; [exists [EvFileClose (f rf)]; reflexivity|]. split; exact I.
Qed.

Lemma Trans_Provenance P s o s' : Provenance P s -> Trans P s o s' -> Provenance P s'.
Proof.
  intros HP H. pose proof HP as [Hs Hc].
  inversion H; subst; unfold Provenance; cbn [sched events caller f] in *.
  - exact HP.
  - split; [destruct cl; exact I|exact Hc].
  - split; [exact I|]. destruct c as [| |rf]; try exact I.
    destruct (f rf); [apply openedBy_more, Hc|exact I].
  - split; [exact I|]. destruct c as [| |rf]; try exact I.
    destruct (f rf); [apply openedBy_more, Hc|exact I].
  - split; [apply openedBy_turn|]. destruct c as [| |rf]; try exact I.
    destruct (f rf); [|exact I]. apply openedBy_more, openedBy_more, Hc.
  - split; [exact I|]. destruct c as [| |rf]; try exact I.
    destruct (f rf); [|exact I]. apply openedBy_cons, openedBy_more, Hc.
  - split; [exact I|exact Hc].
  - split; [destruct (isPatternRev P); exact I|exact Hc].
  - split; [exact I|]. destruct c as [| |rf]; try exact I.
    destruct (f rf); [apply openedBy_cons, Hc|exact I].
  - split; [exact I|exact Hc].
  - split; [exact I|]. destruct c as [| |rf]; try exact I.
    destruct (f rf); [apply openedBy_cons, Hc|exact I].
  - split; [|exact Hs]. unfold afterSend. destruct (isPatternRev P); [exact I|exact Hs].
  - split; exact I.
  - split; exact I.
  - match goal with Hrf : caller s = Holding rf, Hp : Polls _ _ _ _ _ |- _ =>
      destruct (Polls_Provenance P s rf s1 rf1 HP Hrf Hp) as (_ & Hs1 & Hf1) end.
    unfold hold. cbn [sched events caller]. split; assumption.
  - match goal with Hrf : caller s = Holding rf, Hp : Polls _ _ _ _ _ |- _ =>
      destruct (Polls_Provenance P s rf s1 rf1 HP Hrf Hp) as (_ & Hs1 & Hf1) end.
    unfold hold, log. cbn [sched events caller app]. split.
    + destruct (sched s1); try exact I; apply openedBy_cons, Hs1.
    + destruct (f rf1); [apply openedBy_cons, Hf1|exact I].
  - match goal with Hrf : caller s = Holding rf |- _ => rewrite Hrf in Hc end. split.
    + destruct (sched s); try exact I; apply openedBy_cons, openedBy_more, Hs.
    + destruct (f rf); [apply openedBy_cons, openedBy_more, Hc|exact I].
  - match goal with Hrf : caller s = Holding rf |- _ => rewrite Hrf in Hc end. split.
    + destruct (sched s); try exact I; apply openedBy_more, Hs.
    + destruct (f rf); [apply openedBy_more, Hc|exact I].
Qed.

(** X11.  The writer holds only files the goroutine opened.  In every
    state a run reaches, the file the writer holds was opened by
    [os.OpenFile] with [O_CREATE|O_APPEND|O_WRONLY] and the configured
    mode, under the name formatted from a clock reading the goroutine
    took. *)
Theorem held_file_was_opened P tr rf file :
  caller (after P start tr) = Holding rf -> f rf = Some file ->
  exists now,
    Name file = epochPath P now
    /\ List.In (EvNow now) (events (after P start tr))
    /\ List.In (EvOpenFile (Name file) openFlags (fileMode P)) (events (after P start tr)).
Proof.
  intros Hc Hf.
  pose proof (Trans_after P (Provenance P) (Trans_Provenance P) tr start (Provenance_start P))
    as [_ H].
  rewrite Hc, Hf in H. exact H.
Qed.

Lemma held_file_was_opened_witness :
  exists now,
    Name sampleFile = epochPath samplePattern now
    /\ List.In (EvNow now) (events (after samplePattern start sampleNew))
    /\ List.In (EvOpenFile (Name sampleFile) openFlags (fileMode samplePattern))
         (events (after samplePattern start sampleNew)).
Proof.
  apply (held_file_was_opened samplePattern sampleNew (mkRollingFile (Some sampleFile) None)).
  - vm_compute. reflexivity.
  - reflexivity.
Defined.

(** *** Redirecting the standard descriptors *)

Lemma capturePattern_ok P file :
  isPatternRev P = true -> Forall (captureOk P) (capturePattern P file).
Proof.
  intros HP. unfold capturePattern.
  destruct (hasFlag P FlagCaptureStderr) eqn:He, (hasFlag P FlagCaptureStdout) eqn:Ho;
    repeat apply Forall_cons; try apply Forall_nil; cbn; auto.
Qed.

Lemma captureLayout_ok P file : Forall (captureOk P) (captureLayout P file).
Proof.
  unfold captureLayout.
  destruct (hasFlag P FlagCaptureStderr) eqn:He, (hasFlag P FlagCaptureStdout) eqn:Ho;
    repeat apply Forall_cons; try apply Forall_nil; cbn; auto.
Qed.

Lemma armPattern_ok P now file : Forall (captureOk P) (armPattern P now file).
Proof.
  unfold armPattern. destruct (isPatternRev P) eqn:HP; [|constructor].
  constructor; [exact I|]. apply capturePattern_ok, HP.
Qed.

Lemma closeEvents_ok P rf : Forall (captureOk P) (closeEvents rf).
Proof. unfold closeEvents. destruct (f rf); repeat constructor. Qed.

Lemma Polls_capture P s rf s1 rf1 :
  Forall (captureOk P) (events s) -> Polls P s rf s1 rf1 ->
  Forall (captureOk P) (events s1).
Proof.
  intros Hev H. inversion H; subst; cbn [events] in *; auto;
    (constructor; [exact I|assumption]).
Qed.

Lemma Trans_capture P s o s' :
  Forall (captureOk P) (events s) -> Trans P s o s' -> Forall (captureOk P) (events s').
Proof.
  intros Hev H. inversion H; subst; cbn [events] in *; auto;
    unfold hold, log; cbn [events];
    repeat first [ assumption | exact I | apply armPattern_ok | apply captureLayout_ok
                 | apply closeEvents_ok | (eapply Polls_capture; eassumption)
                 | apply Forall_nil | apply Forall_cons | (apply Forall_app; split) ].
Qed.

(** X12.  The standard descriptors are touched only as [Flags] asks.
    In every run each [syscall.Dup2] targets descriptor 1 or 2 and the
    flag of that descriptor is set; [syscall.Close] of a descriptor
    happens only in the first revision, under the same condition. *)
Theorem capture_only_when_flagged P tr :
  Forall (captureOk P) (events (after P start tr)).
Proof.
  apply (Trans_after P (fun s => Forall (captureOk P) (events s)) (Trans_capture P)).
  constructor.
Qed.

(** *** Closing the channels *)

Lemma afterSend_running P now file : isExited (afterSend P now file) = false.
Proof. unfold afterSend. destruct (isPatternRev P); reflexivity. Qed.

Lemma Polls_closes P s rf s1 rf1 :
  Polls P s rf s1 rf1 ->
  count isCloseChFile (events s1) = count isCloseChFile (events s)
  /\ count isCloseChClosed (events s1) = count isCloseChClosed (events s)
  /\ isExited (sched s1) = isExited (sched s)
  /\ chClosed s1 = chClosed s.
Proof.
  intros H. inversion H; subst; cbn [events sched chClosed];
    rewrite ?count_cons, ?afterSend_running; cbn; auto.
Qed.

Lemma turn_no_close P now file :
  (count isCloseChFile (mkdirEvents P now) = 0
   /\ count isCloseChClosed (mkdirEvents P now) = 0)%nat
  /\ (count isCloseChFile (openEvents P now) = 0
      /\ count isCloseChClosed (openEvents P now) = 0)%nat
  /\ (count isCloseChFile (armPattern P now file) = 0
      /\ count isCloseChClosed (armPattern P now file) = 0)%nat
  /\ (count isCloseChFile (captureLayout P file) = 0
      /\ count isCloseChClosed (captureLayout P file) = 0)%nat.
Proof.
  unfold armPattern, capturePattern, captureLayout.
  destruct (isPatternRev P), (hasFlag P FlagCaptureStderr), (hasFlag P FlagCaptureStdout);
    repeat split; reflexivity.
Qed.

Lemma closeEvents_no_close rf :
  (count isCloseChFile (closeEvents rf) = 0
   /\ count isCloseChClosed (closeEvents rf) = 0)%nat.
Proof. unfold closeEvents. destruct (f rf); split; reflexivity. Qed.

Lemma Trans_closes P s o s' : closesOk s -> Trans P s o s' -> closesOk s'.
Proof.
  intros [H1 H2] H. unfold closesOk.
  inversion H; subst; cbn [events sched chClosed isExited] in *.
  - split; assumption.
  - split; [destruct cl; exact H1|exact H2].
  - destruct (turn_no_close P (epochNow P clock) (mkFile 0 "")) as ([E1 E2] & _).
    rewrite !count_app, E1, E2, H1, H2. split; reflexivity.
  - destruct (turn_no_close P (epochNow P clock) (mkFile 0 "")) as (_ & [E1 E2] & _).
    rewrite !count_app, E1, E2, H1, H2. split; reflexivity.
  - destruct (turn_no_close P (epochNow P clock)
                (mkFile fd (epochPath P (epochNow P clock))))
      as (_ & [E1 E2] & [E3 E4] & _).
    rewrite !count_app, E1, E2, E3, E4, H1, H2. split; reflexivity.
  - destruct (turn_no_close P now file) as (_ & _ & _ & [E1 E2]).
    rewrite !count_cons, !count_app, E1, E2, H1, H2. split; reflexivity.
  - split; assumption.
  - split; [destruct (isPatternRev P); exact H1|exact H2].
  - rewrite !count_cons, H1, H2. split; reflexivity.
  - split; assumption.
  - rewrite !count_cons, H1, H2. split; reflexivity.
  - rewrite afterSend_running. split; assumption.
  - split; assumption.
  - split; assumption.
  - match goal with Hp : Polls _ _ _ _ _ |- _ =>
      destruct (Polls_closes P s rf s1 rf1 Hp) as (E1 & E2 & E3 & E4) end.
    unfold hold. cbn [events sched chClosed]. rewrite E1, E2, E3, E4. split; assumption.
  - match goal with Hp : Polls _ _ _ _ _ |- _ =>
      destruct (Polls_closes P s rf s1 rf1 Hp) as (E1 & E2 & E3 & E4) end.
    unfold hold, log. cbn [events sched chClosed].
    rewrite !count_app, E1, E2, E3, E4, H1, H2. split; reflexivity.
  - destruct (closeEvents_no_close rf) as [E1 E2].
    rewrite !count_cons, !count_app, E1, E2, H1, H2.
    match goal with Hcl : chClosed s = _ |- _ => rewrite Hcl end. split; reflexivity.
  - destruct (closeEvents_no_close rf) as [E1 E2].
    rewrite !count_app, E1, E2, H1, H2.
    match goal with Hcl : chClosed s = _ |- _ => rewrite Hcl end. split; reflexivity.
Qed.

(** X13.  No channel is closed twice over.  In every run [chFile] has
    been closed once if the goroutine has exited and not at all
    otherwise, and [chClosed] has been closed once if the writer was
    closed and not at all otherwise. *)
Theorem channels_closed_once P tr :
  count isCloseChFile (events (after P start tr))
  = (if isExited (sched (after P start tr)) then 1 else 0)%nat
  /\ count isCloseChClosed (events (after P start tr))
     = (if chClosed (after P start tr) then 1 else 0)%nat.
Proof.
  apply (Trans_after P closesOk (Trans_closes P)). split; reflexivity.
Qed.

(** *** Nothing is written once an error is recorded *)

Lemma Polls_keeps_error P s rf s1 rf1 e :
  lastErr rf = Some e -> Polls P s rf s1 rf1 ->
  lastErr rf1 <> None
  /\ filter isFileWrite (events s1) = filter isFileWrite (events s).
Proof.
  intros He H. inversion H; subst; cbn [lastErr events filter isFileWrite];
    rewrite ?He; split; try reflexivity; discriminate.
Qed.

Lemma turn_no_write P now file :
  filter isFileWrite (mkdirEvents P now) = []
  /\ filter isFileWrite (openEvents P now) = []
  /\ filter isFileWrite (armPattern P now file) = []
  /\ filter isFileWrite (captureLayout P file) = [].
Proof.
  unfold armPattern, capturePattern, captureLayout.
  destruct (isPatternRev P), (hasFlag P FlagCaptureStderr), (hasFlag P FlagCaptureStdout);
    repeat split; reflexivity.
Qed.

Lemma Trans_holdsError P s o s' :
  holdsError s -> Trans P s o s' ->
  holdsError s' /\ filter isFileWrite (events s') = filter isFileWrite (events s).
Proof.
  intros (rf0 & e0 & Hc & He) H. unfold holdsError.
  inversion H; subst; cbn [events sched chClosed caller] in *; try discriminate.
  - eauto.
  - eauto.
  - destruct (turn_no_write P (epochNow P clock) (mkFile 0 "")) as (E & _).
    rewrite filter_app, E. eauto.
  - destruct (turn_no_write P (epochNow P clock) (mkFile 0 "")) as (_ & E & _).
    rewrite filter_app, E. eauto.
  - destruct (turn_no_write P (epochNow P clock)
                (mkFile fd (epochPath P (epochNow P clock)))) as (_ & E1 & E2 & _).
    rewrite !filter_app, E1, E2. eauto.
  - destruct (turn_no_write P now file) as (_ & _ & _ & E).
    cbn [filter isFileWrite]. rewrite filter_app, E. eauto.
  - eauto.
  - eauto.
  - eauto.
  - eauto.
  - eauto.
  - match goal with Hrf : caller s = Holding rf, Hp : Polls _ _ _ _ _ |- _ =>
      rewrite Hc in Hrf; injection Hrf as <-;
      destruct (Polls_keeps_error P s rf0 s1 rf1 e0 He Hp) as [_ E] end.
    unfold hold. cbn [caller events]. eauto.
  - match goal with Hrf : caller s = Holding rf, Hp : Polls _ _ _ _ _ |- _ =>
      rewrite Hc in Hrf; injection Hrf as <-;
      destruct (Polls_keeps_error P s rf0 s1 rf1 e0 He Hp) as [E _] end.
    congruence.
  - cbn [filter isFileWrite]. rewrite filter_app, closeEvents_filter by reflexivity.
    split; [eexists _, EOF; split; reflexivity|reflexivity].
  - rewrite filter_app, closeEvents_filter by reflexivity.
    split; [eexists _, EOF; split; reflexivity|reflexivity].
Qed.

(** X14.  Once the writer has recorded an error (the goroutine's, or
    [io.EOF] from [Close]) it keeps one for good, and no [Write] passes
    bytes to any file again, whatever file the goroutine still offers. *)
Theorem no_write_once_failed P s tr :
  holdsError s ->
  holdsError (after P s tr)
  /\ filter isFileWrite (events (after P s tr)) = filter isFileWrite (events s).
Proof.
  intros H0.
  apply (Trans_after P (fun s' =>
    holdsError s' /\ filter isFileWrite (events s') = filter isFileWrite (events s))).
  - intros s1 o s2 [Hh Hev] Ht.
    destruct (Trans_holdsError P s1 o s2 Hh Ht) as [Hh' Hev'].
    split; [exact Hh'|congruence].
  - auto.
Qed.

Lemma no_write_once_failed_witness :
  holdsError sampleClosed
  /\ filter isFileWrite
       (events (after samplePattern sampleClosed
                  [CallWrite [] 0 None; GoTimeout; CallWrite [] 0 None]))
     = filter isFileWrite (events sampleClosed).
Proof.
  assert (H : holdsError sampleClosed).
  { exists (mkRollingFile (Some sampleFile) (Some EOF)), EOF. split; reflexivity. }
  split; [exact H|].
  exact (proj2 (no_write_once_failed samplePattern sampleClosed
                  [CallWrite [] 0 None; GoTimeout; CallWrite [] 0 None] H)).
Defined.

(** *** Every open follows its MkdirAll *)

Lemma opensOk_more P new evs :
  filter isOpenFile new = [] -> opensOk P evs -> opensOk P (new ++ evs).
Proof.
  induction new as [|ev new IH]; intros Hn Hev; [exact Hev|].
  cbn [filter] in Hn. destruct (isOpenFile ev) eqn:E; [discriminate|].
  cbn [app opensOk]. split; [|apply IH; assumption].
  destruct ev; try exact I. discriminate.
Qed.

Lemma opensOk_turn P now evs : opensOk P evs -> opensOk P (openEvents P now ++ evs).
Proof.
  intros H. unfold openEvents, mkdirEvents. cbn [app opensOk].
  split; [|split; [exact I|split; [exact I|exact H]]].
  exists now, evs. auto.
Qed.

Lemma turn_no_open P now file :
  filter isOpenFile (mkdirEvents P now) = []
  /\ filter isOpenFile (armPattern P now file) = []
  /\ filter isOpenFile (captureLayout P file) = [].
Proof.
  unfold armPattern, capturePattern, captureLayout.
  destruct (isPatternRev P), (hasFlag P FlagCaptureStderr), (hasFlag P FlagCaptureStdout);
    repeat split; reflexivity.
Qed.

Lemma Polls_opensOk P s rf s1 rf1 :
  opensOk P (events s) -> Polls P s rf s1 rf1 -> opensOk P (events s1).
Proof.
  intros Hev H. inversion H; subst; cbn [events opensOk] in *; auto.
Qed.

Lemma Trans_opensOk P s o s' :
  opensOk P (events s) -> Trans P s o s' -> opensOk P (events s').
Proof.
  intros Hev H. inversion H; subst; cbn [events] in *; try assumption.
  - apply opensOk_more; [apply turn_no_open with (file := mkFile 0 "")|exact Hev].
  - apply opensOk_turn, Hev.
  - apply opensOk_more; [apply turn_no_open|]. apply opensOk_turn, Hev.
  - apply (opensOk_more P (EvTimer (waitFor now) :: captureLayout P file)); [|exact Hev].
    cbn [filter isOpenFile]. apply turn_no_open with (now := now).
  - split; [exact I|exact Hev].
  - split; [exact I|exact Hev].
  - unfold hold. cbn [events]. eapply Polls_opensOk; eassumption.
  - unfold hold, log. cbn [events app]. split; [exact I|].
    eapply Polls_opensOk; eassumption.
  - split; [exact I|]. apply opensOk_more; [|exact Hev].
    apply closeEvents_filter. reflexivity.
  - apply opensOk_more; [|exact Hev]. apply closeEvents_filter. reflexivity.
Qed.

Lemma opensOk_split P l1 : forall name flag perm l2,
  opensOk P (l1 ++ EvOpenFile name flag perm :: l2) ->
  exists now l3,
    l2 = EvMkdirAll (GoPath.Dir name) (dirMode P) :: EvNow now :: l3
    /\ name = epochPath P now /\ flag = openFlags /\ perm = fileMode P.
Proof.
  induction l1 as [|ev l1 IH]; intros name flag perm l2 H.
  - destruct H as [H _]. exact H.
  - destruct H as [_ H]. apply IH, H.
Qed.

Lemma modes_nonzero P : fileMode P <> 0 /\ dirMode P <> 0.
Proof.
  unfold fileMode, dirMode. destruct (code P) as [c|c].
  - unfold Pattern.defaults.
    destruct (String.eqb (Pattern.FilepathPattern c) "");
      cbn [Pattern.Mode Pattern.DirMode Pattern.FilepathPattern Pattern.Flags];
      destruct (Pattern.Mode c =? 0) eqn:Em;
      cbn [Pattern.Mode Pattern.DirMode Pattern.FilepathPattern Pattern.Flags];
      destruct (Pattern.DirMode c =? 0) eqn:Ed;
      cbn [Pattern.Mode Pattern.DirMode Pattern.FilepathPattern Pattern.Flags];
      rewrite ?Z.eqb_neq in *; split; try assumption; discriminate.
  - unfold Layout.defaults.
    destruct (String.eqb (Layout.Filepath c) "");
      cbn [Layout.Mode Layout.DirMode Layout.Filepath Layout.Flags Layout.Timezone];
      destruct (Layout.Timezone c);
      cbn [Layout.Mode Layout.DirMode Layout.Filepath Layout.Flags Layout.Timezone];
      destruct (Layout.Mode c =? 0) eqn:Em;
      cbn [Layout.Mode Layout.DirMode Layout.Filepath Layout.Flags Layout.Timezone];
      destruct (Layout.DirMode c =? 0) eqn:Ed;
      cbn [Layout.Mode Layout.DirMode Layout.Filepath Layout.Flags Layout.Timezone];
      rewrite ?Z.eqb_neq in *; split; try assumption; discriminate.
Qed.

(** X15.  Every [os.OpenFile] of a run comes right after the
    [os.MkdirAll] of the directory of its path, which comes right after
    the clock reading the path is formatted from.  The file is opened
    with [O_CREATE|O_APPEND|O_WRONLY]; its mode and the mode of the
    directory are the configured ones, and neither is zero. *)
Theorem every_open_follows_mkdir P tr l1 name flag perm l2 :
  events (after P start tr) = (l1 ++ EvOpenFile name flag perm :: l2)%list ->
  exists now l3,
    l2 = EvMkdirAll (GoPath.Dir name) (dirMode P) :: EvNow now :: l3
    /\ name = epochPath P now
    /\ flag = Z.lor (Z.lor O_CREATE O_APPEND) O_WRONLY
    /\ perm = fileMode P /\ perm <> 0 /\ dirMode P <> 0.
Proof.
  intros Hev.
  pose proof (Trans_after P (fun s => opensOk P (events s)) (Trans_opensOk P) tr start I) as H.
  cbv beta in H. rewrite Hev in H.
  destruct (opensOk_split P l1 name flag perm l2 H) as (now & l3 & -> & -> & -> & ->).
  exists now, l3. destruct (modes_nonzero P) as [Hm Hd]. repeat split; assumption.
Qed.

Lemma every_open_follows_mkdir_witness :
  exists now l3,
    [EvMkdirAll "logs/2021/03/2021-03-05" 1472; EvNow (mkTime sampleClock UTC)]
    = EvMkdirAll (GoPath.Dir "logs/2021/03/2021-03-05/log.log") (dirMode samplePattern)
      :: EvNow now :: l3
    /\ "logs/2021/03/2021-03-05/log.log" = epochPath samplePattern now
    /\ 1089 = Z.lor (Z.lor O_CREATE O_APPEND) O_WRONLY
    /\ 384 = fileMode samplePattern /\ 384 <> 0 /\ dirMode samplePattern <> 0.
Proof.
  apply (every_open_follows_mkdir samplePattern sampleNew [EvTimer (waitFor (mkTime sampleClock UTC))]).
  vm_compute. reflexivity.
Defined.

(** *** New *)

(** X16.  [New] returns once the first turn of the loop has reached its
    select.  When the directory and the file could be opened, both
    revisions return the writer holding that file, named by the path
    formatted from the clock reading of the turn.  Otherwise the first
    revision returns the goroutine's error, and the second stays in its
    receive. *)
Theorem New_returns_after_first_turn P clock mkdir opened :
  match mkdirFailed mkdir, opened with
  | None, inl fd =>
      snd (step P (after P start [GoCheck; GoOpen clock mkdir opened]) NewReceive)
      = NewReturns None
      /\ caller (fst (step P (after P start [GoCheck; GoOpen clock mkdir opened]) NewReceive))
         = Holding (mkRollingFile
                      (Some (mkFile fd (epochPath P (epochNow P clock)))) None)
  | Some e, _ | None, inr e =>
      if isPatternRev P
      then snd (step P (after P start [GoCheck; GoOpen clock mkdir opened]) NewReceive)
           = NewReturns (Some e)
           /\ caller (fst (step P (after P start [GoCheck; GoOpen clock mkdir opened])
                             NewReceive))
              = NewFailed e
      else snd (step P (after P start [GoCheck; GoOpen clock mkdir opened]) NewReceive)
           = Blocked
  end.
Proof.
  rewrite first_turn. unfold goOpen.
  destruct (mkdirFailed mkdir) as [e|].
  - unfold step, newReceive, offer. cbn [goto log sched chClosed caller events].
    destruct (isPatternRev P); cbn; auto.
  - destruct opened as [fd|e].
    + unfold step, newReceive, offer.
      destruct (isPatternRev P); cbn [goto log sched chClosed caller events hold fst snd];
        split; reflexivity.
    + unfold step, newReceive, offer. cbn [goto log sched chClosed caller events].
      destruct (isPatternRev P); cbn; auto.
Qed.
